(** * gulp-typescript: the compile/emit pipeline of [lib/compiler.ts]

    A shallow embedding of the two classes found in [src/lib/compiler.ts]:
    [ProjectCompiler] (whole-project compilation with replay of the previous
    output) and [Project] (compilation, splitting of the emitted artifacts,
    removal of the source-map comment and reference-sorted emission).

    JavaScript strings are modelled as [string] (sequences of code units
    below 256), objects used as dictionaries as [gmap string _] when only
    lookups are made and as association lists in enumeration order when the
    code iterates over them, and the calls made on the collaborators (the
    TypeScript program, the output streams, the error callback) as a trace
    of events. *)

From Stdlib Require Import ZArith Ascii String List Lia.
From stdpp Require Import gmap strings list pretty relations.

Local Open Scope Z_scope.

(** ** JavaScript string primitives used by the source *)

Module JsString.

Definition LF : ascii := "010"%char.
Definition CR : ascii := "013"%char.

(** The one-character string ['\n']. *)
Definition nl : string := String LF "".

Definition len (s : string) : Z := Z.of_nat (String.length s).

(** Clamping of an index argument to [0 .. length], as [substring] and
    [lastIndexOf] do. *)
Definition clamp (s : string) (i : Z) : Z := Z.min (Z.max i 0) (len s).

(** [s.substring(start, end)]: both arguments are clamped and swapped when
    out of order. *)
Definition substring (s : string) (start stop : Z) : string :=
  let a := clamp s start in
  let b := clamp s stop in
  let from := Z.min a b in
  let to := Z.max a b in
  String.substring (Z.to_nat from) (Z.to_nat (to - from)) s.

(** The greatest index [j <= k] holding [ch], or [-1]. *)
Fixpoint lastIndexOf_upto (ch : ascii) (s : string) (k : nat) : Z :=
  if decide (String.get k s = Some ch) then Z.of_nat k
  else match k with
       | O => -1
       | S k' => lastIndexOf_upto ch s k'
       end.

(** [s.lastIndexOf(ch, fromIndex)] for a search string of one code unit. *)
Definition lastIndexOf (s : string) (ch : ascii) (fromIndex : Z) : Z :=
  lastIndexOf_upto ch s (Z.to_nat (clamp s fromIndex)).

(** [s.substr(-n)]: the last [n] code units, all of [s] when it is
    shorter. *)
Definition substr_last (n : nat) (s : string) : string :=
  String.substring (String.length s - n) n s.

(** Does the code unit occur in the string? *)
Fixpoint has_char (ch : ascii) (s : string) : bool :=
  match s with
  | EmptyString => false
  | String c r => if decide (c = ch) then true else has_char ch r
  end.

(** The regular-expression dot: any code unit but a line terminator. *)
Definition dot (c : ascii) : bool :=
  if decide (c = LF) then false else if decide (c = CR) then false else true.

End JsString.

(** ** [Project.getOriginalName] and [Project.removeSourceMapComment] *)

(** [/\.js.map$/] tried at the start of [r]: the characters [.js], one
    character matched by the dot, then [map] and the end of the input. *)
Definition match_js_map (r : string) : bool :=
  match r with
  | String a (String b (String c (String d rest))) =>
      bool_decide (String a (String b (String c "")) = ".js")
      && JsString.dot d && bool_decide (rest = "map")
  | _ => false
  end.

(** [/(\.d\.ts|\.js|\.js.map)$/] tried at the start of [r]; every
    alternative is anchored at the end of the input, so [r] is the whole
    remainder of the file name. *)
Definition suffix_match (r : string) : bool :=
  bool_decide (r = ".d.ts") || bool_decide (r = ".js") || match_js_map r.

(** [filename.replace(/(\.d\.ts|\.js|\.js.map)$/, '.ts')]: the leftmost
    position at which the expression matches is replaced. *)
Fixpoint getOriginalName (filename : string) : string :=
  if suffix_match filename then ".ts"
  else match filename with
       | EmptyString => EmptyString
       | String c rest => String c (getOriginalName rest)
       end.

(** [content.substring(0, content.lastIndexOf('\n', content.length - 2)) + '\n'] *)
Definition removeSourceMapComment (content : string) : string :=
  let index := JsString.lastIndexOf content JsString.LF (JsString.len content - 2) in
  JsString.substring content 0 index +:+ JsString.nl.

(** [path.replace(/\\/g, '/')] *)
Fixpoint normalizePath (path : string) : string :=
  match path with
  | EmptyString => EmptyString
  | String c rest =>
      String (if decide (c = "\"%char) then "/"%char else c) (normalizePath rest)
  end.

(** ** JavaScript objects used as dictionaries

    The model is that of an object whose keys are plain ([plain_key]
    below): [for (k in o)] and [Object.keys(o)] then enumerate the
    properties in the order of their creation, and an assignment to an
    existing key keeps its position. It does not cover a key that is a
    canonical array index (such keys are enumerated first, in numeric
    order) nor the key [__proto__] (an assignment to it creates no
    property). No file name carrying one of the suffixes handled below is
    such a key; a statement about the order of other keys assumes them
    plain. A lookup also sees the properties inherited from
    [Object.prototype]; none of their names contains a dot, so no lookup at
    a name with an extension finds one. *)

Module Obj.

Definition t (V : Type) : Type := list (string * V).



(** [o[k]] *)
Fixpoint get {V} (k : string) (o : t V) : option V :=
  match o with
  | [] => None
  | (k', v) :: o' => if decide (k' = k) then Some v else get k o'
  end.

(** [o[k] = v] *)
Fixpoint set {V} (k : string) (v : V) (o : t V) : t V :=
  match o with
  | [] => [(k, v)]
  | (k', v') :: o' =>
      if decide (k' = k) then (k, v) :: o' else (k', v') :: set k v o'
  end.

Definition keys {V} (o : t V) : list string := map fst o.

End Obj.

(** ** Completion of a call: normal return, a thrown exception, or a model
    run cut short by its recursion budget *)

Inductive completion : Type :=
| Normal
| Threw (message : string)
| OutOfFuel.

(** ** The [Project] class (second half of the source file) *)

Module Project.

(** A source map object carried by a pipeline file. *)
Inductive SourceMap : Type := RawSourceMap (json : string).

(** [gutil.File] *)
Record File : Type := mkFile {
  path : string;
  contents : string;
  cwd : string;
  base : string;
  sourceMap : option SourceMap
}.

(** [FileData]; the [file] property is set for every entry of
    [currentFiles], which are only created by [addFile]. *)
Record FileData : Type := mkFileData {
  file : File;
  content : string
}.

Record LineAndCharacter : Type := mkLineAndCharacter {
  line : Z;
  character : Z
}.

Record FileReference : Type := mkFileReference { fr_filename : string }.

(** [ts.SourceFile], as far as the class reads it. *)
Record SourceFile : Type := mkSourceFile {
  filename : string;
  referencedFiles : list FileReference;
  getLineAndCharacterFromPosition : Z -> LineAndCharacter
}.

(** [ts.Diagnostic]; [file] is [undefined] in a diagnostic that belongs to
    no source file (one about the options or about a root file that cannot
    be read). *)
Record Diagnostic : Type := mkDiagnostic {
  d_file : option SourceFile;
  d_start : Z;
  d_code : Z;
  d_messageText : string
}.

(** [ts.Program], the compiler as a black box: what each of the calls
    made by [compile] returns, and the [writeFile] calls [emitFiles]
    makes on the host, in order. *)
Record Program : Type := mkProgram {
  getDiagnostics : list Diagnostic;
  checker_getDiagnostics : list Diagnostic;
  emitFiles_errors : list Diagnostic;
  emitFiles_writes : list (string * string);
  getSourceFile : string -> option SourceFile
}.

Record Error : Type := mkError {
  name : string;
  message : string
}.

(** The diagnostic names the source file it is about. *)
Definition has_file (info : Diagnostic) : Prop := is_Some (d_file info).

(** Calls made on the collaborators, in the order they happen. A file
    handed to [sourcemapApply] is the object pushed right after it. *)
Inductive event : Type :=
| CreateProgram (rootFilenames : list string)
| GetTypeChecker
| EmitFiles
| ErrorCallback (err : Error)
| DeclPush (f : File)
| SourcemapApply (f : File) (map : string)
| JsPush (f : File).

Definition jsPushed (tr : list event) : list File :=
  omap (fun e => match e with JsPush f => Some f | _ => None end) tr.

Definition declPushed (tr : list event) : list File :=
  omap (fun e => match e with DeclPush f => Some f | _ => None end) tr.

Definition errorsReported (tr : list event) : list Error :=
  omap (fun e => match e with ErrorCallback err => Some err | _ => None end) tr.

Definition mapsApplied (tr : list event) : list (File * string) :=
  omap (fun e => match e with SourcemapApply f m => Some (f, m) | _ => None end) tr.

(** The event pushes a compiled file of [js]. *)
Definition pushes_of (js : list File) (e : event) : Prop :=
  exists f, e = JsPush f /\ f ∈ js.

(** The original name of an output file. *)
Definition oname (f : File) : string := getOriginalName (path f).

(** Modelled from the spec: the output map of the Host Adapter
    ([lib/host.ts] is not among the sources). It is empty when the adapter
    is created and [writeFile] assigns [output[filename] = data]; only the
    emitter writes to it. *)
Definition host_output (writes : list (string * string)) : Obj.t string :=
  fold_left (fun o w => Obj.set w.1 w.2 o) writes [].

(** State of the loop over [host.output]. *)
Record collected : Type := mkCollected {
  outputJS : list File;
  declStream : list File;
  sourcemaps : gmap string string
}.

Definition outputFile (filename data : string) (original : FileData) : File :=
  {| path := filename;
     contents := removeSourceMapComment data;
     cwd := cwd (file original);
     base := base (file original);
     sourceMap := None |}.

(** The file built for a compiled artifact: it carries the inbound source
    map of the original file when there is one. *)
Definition jsFile (filename data : string) (original : FileData) : File :=
  let f := outputFile filename data original in
  match sourceMap (file original) with
  | Some sm => {| path := path f; contents := contents f;
                  cwd := cwd f; base := base f; sourceMap := Some sm |}
  | None => f
  end.

(** One iteration of [for (var filename in this.host.output)]. *)
Definition collect_step (currentFiles : Obj.t FileData)
    (acc : collected) (entry : string * string) : collected :=
  let filename := entry.1 in
  let originalName := getOriginalName filename in
  match Obj.get originalName currentFiles with
  | None => acc
  | Some original =>
      let data := entry.2 in
      if decide (JsString.substr_last 3 filename = ".js") then
        {| outputJS := outputJS acc ++ [jsFile filename data original];
           declStream := declStream acc;
           sourcemaps := sourcemaps acc |}
      else if decide (JsString.substr_last 5 filename = ".d.ts") then
        {| outputJS := outputJS acc;
           declStream := declStream acc ++ [outputFile filename data original];
           sourcemaps := sourcemaps acc |}
      else if decide (JsString.substr_last 4 filename = ".map") then
        {| outputJS := outputJS acc;
           declStream := declStream acc;
           sourcemaps := <[filename := data]> (sourcemaps acc) |}
      else acc
  end.

Definition collect (currentFiles : Obj.t FileData) (output : Obj.t string)
    : collected :=
  fold_left (collect_step currentFiles) output
    {| outputJS := []; declStream := []; sourcemaps := ∅ |}.

(** The [emit] closure: a non-empty map found under [originalName] is
    applied, then the file is pushed. *)
Definition emit (maps : gmap string string) (originalName : string)
    (f : File) : list event :=
  match maps !! originalName with
  | Some map => if decide (map = "") then [JsPush f]
                else [SourcemapApply f map; JsPush f]
  | None => [JsPush f]
  end.

(** State threaded through [sortedEmit]: the [done] dictionary and what
    has been pushed so far. *)
Record emitState : Type := mkEmitState {
  done : gset string;
  out : list event
}.

Section SortedEmit.

Variable program : Program.
Variable maps : gmap string string.
Variable js : list File.

(** The loop [for (var j = 0; j < outputJS.length; ++j)] of
    [sortedEmit], over the remaining files [rest]. *)
Fixpoint emitReferences
    (call : string -> File -> emitState -> emitState * completion)
    (references : list string) (rest : list File) (st : emitState)
    : emitState * completion :=
  match rest with
  | [] => (st, Normal)
  | other :: rest' =>
      let otherName := oname other in
      if decide (otherName ∈ references) then
        match call otherName other st with
        | (st', Normal) => emitReferences call references rest' st'
        | r => r
        end
      else emitReferences call references rest' st
  end.

Fixpoint sortedEmit (fuel : nat) (originalName : string) (f : File)
    (st : emitState) : emitState * completion :=
  match fuel with
  | O => (st, OutOfFuel)
  | S fuel' =>
      if decide (originalName ∈ done st) then (st, Normal)
      else
        let st1 := {| done := {[originalName]} ∪ done st; out := out st |} in
        match getSourceFile program originalName with
        | None => (st1, Threw "TypeError: Cannot read property 'referencedFiles' of undefined")
        | Some tsFile =>
            let references := map fr_filename (referencedFiles tsFile) in
            match emitReferences (sortedEmit fuel') references js st1 with
            | (st2, Normal) =>
                ({| done := done st2;
                    out := out st2 ++ emit maps originalName f |}, Normal)
            | r => r
            end
        end
  end.

(** The loop [for (var i = 0; i < outputJS.length; ++i)] of the sorted
    branch, over the remaining files. *)
Fixpoint sortedEmitAll (fuel : nat) (rest : list File) (st : emitState)
    : emitState * completion :=
  match rest with
  | [] => (st, Normal)
  | f :: rest' =>
      match sortedEmit fuel (oname f) f st with
      | (st', Normal) => sortedEmitAll fuel rest' st'
      | r => r
      end
  end.

End SortedEmit.

(** *** Notions used to state the emission order *)

(** [a] lists [b] in its reference directives. *)
Definition references (prog : Program) (a b : string) : Prop :=
  exists tsFile, getSourceFile prog a = Some tsFile
                 /\ b ∈ map fr_filename (referencedFiles tsFile).

(** The reference relation among the files that have a compiled artifact
    in [js]. *)
Definition refs_among (prog : Program) (js : list File) (a b : string) : Prop :=
  a ∈ map oname js /\ b ∈ map oname js /\ references prog a b.

(** [x] occurs in [l] before an occurrence of [y]. *)
Definition precedes {A : Type} (l : list A) (x y : A) : Prop :=
  exists l1 l2, l = l1 ++ y :: l2 /\ x ∈ l1.

(** Number of artifacts whose original name is not marked yet: the
    recursion budget [sortedEmit] needs. *)
Definition undone (js : list File) (d : gset string) : nat :=
  length (filter (fun n => n ∉ d) (map oname js)).

(** The unsorted branch. *)
Definition plainEmitAll (maps : gmap string string) (js : list File)
    : list event :=
  flat_map (fun f => emit maps (oname f) f) js.

(** What holds of the state of [sortedEmit] between two calls, for the
    files [pushed] so far and the names [anc] that are marked but whose
    call has not returned yet. *)
Record emit_inv (prog : Program) (maps : gmap string string) (js : list File)
    (st : emitState) (pushed : list File) (anc : gset string) : Prop := {
  inv_out : out st = plainEmitAll maps pushed;
  inv_nodup : NoDup (map oname pushed);
  inv_done : forall n, n ∈ done st <-> n ∈ map oname pushed \/ n ∈ anc;
  inv_anc : forall n, n ∈ anc -> n ∉ map oname pushed;
  inv_sub : forall f, f ∈ pushed -> f ∈ js;
  inv_ord : forall x y,
    x ∈ map oname pushed -> refs_among prog js x y ->
    precedes (map oname pushed) y x \/ tc (refs_among prog js) y x
}.

(** The statement proved of [sortedEmit] for a given budget: started on
    an artifact of [js] in a state satisfying the invariant, with the
    pending names all reaching the file through references, it returns in
    a state satisfying the invariant again where the file is marked, or
    throws because some artifact has no source file in the program. *)
Definition call_spec (prog : Program) (maps : gmap string string)
    (js : list File) (fuel : nat) : Prop :=
  forall (f : File) (st : emitState) (pushed : list File) (anc : gset string),
    f ∈ js ->
    emit_inv prog maps js st pushed anc ->
    (forall a, a ∈ anc -> tc (refs_among prog js) a (oname f)) ->
    (undone js (done st) < fuel)%nat ->
    match sortedEmit prog maps js fuel (oname f) f st with
    | (st', Normal) =>
        exists new, emit_inv prog maps js st' (pushed ++ new) anc
                    /\ done st ⊆ done st' /\ oname f ∈ done st'
    | (_, Threw _) => exists g, g ∈ js /\ getSourceFile prog (oname g) = None
    | (_, OutOfFuel) => False
    end.

Record Project (CompilerOptions : Type) : Type := mkProject {
  currentFiles : Obj.t FileData;
  additionalFiles : Obj.t FileData;
  noExternalResolve : bool;
  sortOutput : bool;
  options : CompilerOptions
}.
Arguments currentFiles {CompilerOptions} _.
Arguments additionalFiles {CompilerOptions} _.
Arguments noExternalResolve {CompilerOptions} _.
Arguments sortOutput {CompilerOptions} _.
Arguments options {CompilerOptions} _.

(** [host.Host] as [compile] builds it. *)
Record Host : Type := mkHost {
  currentDirectory : string;
  files : Obj.t FileData
}.

Section Compile.

Context {CompilerOptions : Type}.

(** [path.relative], [gutil.colors.red] and [ts.createProgram]. *)
Variable path_relative : string -> string -> string.
Variable colors_red : string -> string.
Variable ts_createProgram :
  list string -> CompilerOptions -> Host -> Program.

Definition getCurrentFilenames (p : Project CompilerOptions) : list string :=
  omap (fun i => (fun fd => path (file fd)) <$> Obj.get i (currentFiles p))
       (Obj.keys (currentFiles p)).

Definition reset (p : Project CompilerOptions) : Project CompilerOptions :=
  {| currentFiles := []; additionalFiles := [];
     noExternalResolve := noExternalResolve p;
     sortOutput := sortOutput p; options := options p |}.

Definition getFileDataFromGulpFile (f : File) : FileData :=
  {| file := f; content := contents f |}.

Definition addFile (f : File) (p : Project CompilerOptions)
    : Project CompilerOptions :=
  {| currentFiles :=
       Obj.set (normalizePath (path f)) (getFileDataFromGulpFile f)
               (currentFiles p);
     additionalFiles := additionalFiles p;
     noExternalResolve := noExternalResolve p;
     sortOutput := sortOutput p; options := options p |}.

(** [getError]; [None] stands for the [TypeError] that reading
    [info.file.filename] raises when [info.file] is [undefined]. *)
Definition getError (p : Project CompilerOptions) (info : Diagnostic)
    : option Error :=
  match d_file info with
  | None => None
  | Some info_file =>
      let filename0 := getOriginalName (filename info_file) in
      let filename1 :=
        match Obj.get filename0 (currentFiles p) with
        | Some fd => path_relative (cwd (file fd)) (filename info_file)
        | None => filename info_file
        end in
      let startPos := getLineAndCharacterFromPosition info_file (d_start info) in
      Some {| name := "TypeScript error";
              message :=
                colors_red (filename1 +:+ "(" +:+ pretty (line startPos + 1) +:+ ","
                            +:+ pretty (character startPos + 1) +:+ "): ")
                +:+ pretty (d_code info) +:+ " " +:+ d_messageText info |}
  end.

(** The loop handing the diagnostics to the callback: it ends with the
    exception of [getError] at the first diagnostic without file, the
    diagnostics before it being reported. *)
Fixpoint reportErrors (p : Project CompilerOptions) (errors : list Diagnostic)
    : list event * completion :=
  match errors with
  | [] => ([], Normal)
  | info :: rest =>
      match getError p info with
      | None => ([], Threw "TypeError: Cannot read property 'filename' of undefined")
      | Some err =>
          let r := reportErrors p rest in (ErrorCallback err :: r.1, r.2)
      end
  end.

Definition newHost (p : Project CompilerOptions) : Host :=
  {| currentDirectory :=
       match Obj.get "0" (currentFiles p) with
       | Some fd => cwd (file fd)
       | None => ""
       end;
     files := currentFiles p |}.

Definition createProgram (p : Project CompilerOptions) : Program :=
  ts_createProgram (getCurrentFilenames p) (options p) (newHost p).

(** The diagnostics handed to the callback and the content of
    [host.output] once the compiler calls are made. *)
Definition diagnose (prog : Program)
    : list event * list Diagnostic * Obj.t string :=
  let errors := getDiagnostics prog in
  if decide (length errors = 0%nat) then
    ([GetTypeChecker; EmitFiles],
     checker_getDiagnostics prog ++ emitFiles_errors prog,
     host_output (emitFiles_writes prog))
  else ([], errors, host_output []).

(** Everything after the error loop: the split of the artifacts and
    their emission. *)
Definition emitStage (p : Project CompilerOptions) (prog : Program)
    (output : Obj.t string) : list event * completion :=
  let c := collect (currentFiles p) output in
  let decls := map DeclPush (declStream c) in
  if sortOutput p then
    let r := sortedEmitAll prog (sourcemaps c) (outputJS c)
               (S (length (outputJS c))) (outputJS c)
               {| done := ∅; out := [] |} in
    (decls ++ out r.1, r.2)
  else (decls ++ plainEmitAll (sourcemaps c) (outputJS c), Normal).

(** The diagnostics handed to the callback, the content of [host.output]
    and the split of the artifacts in a run of [compile]. *)
Definition reported (p : Project CompilerOptions) : list Diagnostic :=
  (diagnose (createProgram p)).1.2.

Definition hostOutput (p : Project CompilerOptions) : Obj.t string :=
  (diagnose (createProgram p)).2.

Definition artifacts (p : Project CompilerOptions) : collected :=
  collect (currentFiles p) (hostOutput p).

Definition compile (p : Project CompilerOptions) : list event * completion :=
  let prog := createProgram p in
  let '(calls, errors, output) := diagnose prog in
  let e := reportErrors p errors in
  match e.2 with
  | Normal =>
      let r := emitStage p prog output in
      (CreateProgram (getCurrentFilenames p) :: calls ++ e.1 ++ r.1, r.2)
  | thrown => (CreateProgram (getCurrentFilenames p) :: calls ++ e.1, thrown)
  end.

End Compile.

End Project.

(** ** The [ProjectCompiler] class (first half of the source file) *)

Module ProjectCompiler.

(** [output.OutputFileKind] *)
Inductive OutputFileKind : Type := JavaScript | SourceMap | Definitions.

(** A file of the previous output: [content[kind]] is [undefined] for a
    kind that was not written. *)
Record OutputFile : Type := mkOutputFile {
  fileName : string;
  content : OutputFileKind -> option string
}.

(** The suffix of the artifacts of a kind. *)
Definition extension (kind : OutputFileKind) : string :=
  match kind with
  | JavaScript => ".js"
  | SourceMap => ".js.map"
  | Definitions => ".d.ts"
  end.

Definition same_kind (a b : OutputFileKind) : bool :=
  match a, b with
  | JavaScript, JavaScript | SourceMap, SourceMap | Definitions, Definitions => true
  | _, _ => false
  end.

(** Modelled from the spec: how an emitted artifact is keyed back to its
    source ([lib/output.ts], which fills the output of a build, is not
    among the sources). The spec: an artifact has a kind among compiled
    code, source map and declaration, and is keyed back by stripping the
    suffix of its kind. The result is the path without that suffix and the
    kind; a name with none of the three suffixes is no artifact. *)
Definition artifactOf (fileName : string) : option (string * OutputFileKind) :=
  let stem n := JsString.substring fileName 0 (JsString.len fileName - n) in
  if decide (JsString.substr_last 5 fileName = ".d.ts") then Some (stem 5, Definitions)
  else if decide (JsString.substr_last 7 fileName = ".js.map") then Some (stem 7, SourceMap)
  else if decide (JsString.substr_last 3 fileName = ".js") then Some (stem 3, JavaScript)
  else None.

(** Modelled from the spec: the Compilation Cache ([lib/output.ts], which
    builds the [previousOutput] of the next build, is not among the
    sources). The spec: the cached build result holds the ordered
    diagnostics of the prior build and a mapping from original path to its
    three possible emitted artifacts, and is created at the end of every
    recompilation. A write of an artifact sets the content of its kind in
    the entry of its original path (the path without suffix, followed by
    [.ts]), creating the entry when there is none; [fileName] is the path
    without suffix, from which the replay loop rebuilds the output
    paths. *)
Definition cacheWrite (files : Obj.t OutputFile) (w : string * string)
    : Obj.t OutputFile :=
  match artifactOf w.1 with
  | None => files
  | Some (stem, kind) =>
      let previous :=
        match Obj.get (stem +:+ ".ts") files with
        | Some f => content f
        | None => fun _ => None
        end in
      Obj.set (stem +:+ ".ts")
        {| fileName := stem;
           content := fun k => if same_kind k kind then Some w.2 else previous k |}
        files
  end.

Section Types.

(** Types of the modules that are not among the sources: the errors kept
    by an output, the compiler's diagnostics, an input file, the compiler
    options and the filter settings. *)
Context {Error Diagnostic InputFile Options FilterSettings : Type}.

(** [project.previousOutput], as far as [inputDone] reads it. *)
Record Output : Type := mkOutput {
  errors : list Error;
  files : Obj.t OutputFile
}.

(** [project.input], as far as [inputDone] reads it: the answers of
    [firstSourceFile], [isChanged(onlyGulp)] and [getFileNames(onlyGulp)]. *)
Record Input : Type := mkInput {
  firstSourceFile : option InputFile;
  isChanged : bool -> bool;
  getFileNames : bool -> list string
}.

Record Project : Type := mkProject {
  input : Input;
  previousOutput : Output;
  currentDirectory : string;
  noExternalResolve : bool;
  filterSettings : option FilterSettings;
  options : Options
}.

(** Calls made on [project.output], on the host and on the compiler. *)
Inductive event : Type :=
| OutputFinish
| OutputError (e : Error)
| OutputDiagnostic (d : Diagnostic)
| OutputWrite (fileName : string) (content : option string)
| NewHost (currentDirectory : string) (externalResolve : bool)
| CreateProgram (rootFilenames : list string)
| GetDiagnosticsAndEmit.

(** An event that reaches the compiler or the host adapter. *)
Definition is_compiler_event (e : event) : bool :=
  match e with
  | NewHost _ _ | CreateProgram _ | GetDiagnosticsAndEmit => true
  | _ => false
  end.

(** An event that hands a diagnostic or an artifact to the output. *)
Definition is_output_event (e : event) : bool :=
  match e with
  | OutputError _ | OutputDiagnostic _ | OutputWrite _ _ => true
  | _ => false
  end.

(** The three writes of the replay loop for one cached file. *)
Definition replayFile (f : OutputFile) : list event :=
  [OutputWrite (fileName f +:+ ".js") (content f JavaScript);
   OutputWrite (fileName f +:+ ".js.map") (content f SourceMap)]
  ++ match content f Definitions with
     | Some d => [OutputWrite (fileName f +:+ ".d.ts") (Some d)]
     | None => []
     end.

(** The branch that re-uses the old output. *)
Definition replay (old : Output) : list event :=
  map OutputError (errors old)
  ++ flat_map (fun fileName =>
                 match Obj.get fileName (files old) with
                 | Some f => replayFile f
                 | None => []
                 end)
              (Obj.keys (files old)).

(** Modelled from the spec: the cached build result left by a
    recompilation that reported [errors] and whose host output was
    [output] ([lib/output.ts] is not among the sources): the diagnostics in
    order, each as the error the output made of it, and the artifacts
    written, keyed by original path. *)
Definition cachedBuildResult (toError : Diagnostic -> Error)
    (errors : list Diagnostic) (output : Obj.t string) : Output :=
  {| errors := map toError errors;
     files := fold_left cacheWrite output [] |}.

(** [filter.Filter(project, settings).match] and the compiler run
    ([createProgram] followed by [tsApi.getDiagnosticsAndEmit]): the
    diagnostics it returns and the content of [host.output] after it,
    for the host built from the project and the given root names. *)
Variable filter_match : Project -> FilterSettings -> string -> bool.
Variable ts_run :
  Project -> list string -> list Diagnostic * Obj.t string.

Definition rootFilenames (p : Project) : list string :=
  let names := getFileNames (input p) true in
  match filterSettings p with
  | Some settings => List.filter (filter_match p settings) names
  | None => names
  end.

Definition inputDone (p : Project) : list event :=
  match firstSourceFile (input p) with
  | None => [OutputFinish]
  | Some _ =>
      if negb (isChanged (input p) true) then replay (previousOutput p)
      else
        let roots := rootFilenames p in
        let '(errors, output) := ts_run p roots in
        [NewHost (currentDirectory p) (negb (noExternalResolve p));
         CreateProgram roots; GetDiagnosticsAndEmit]
        ++ map OutputDiagnostic errors
        ++ map (fun fileName =>
                  OutputWrite fileName (Obj.get fileName output))
               (Obj.keys output)
        ++ [OutputFinish]
  end.

End Types.

End ProjectCompiler.

(** ** Sample projects *)

Module Examples.

Import Project.

Definition nl : string := JsString.nl.

Definition gulpFile (p : string) : File :=
  {| path := p; contents := "var x;"; cwd := "/w"; base := "/w/src";
     sourceMap := None |}.

Definition sourceOf (n : string) (refs : list string) : SourceFile :=
  {| filename := n;
     referencedFiles := map mkFileReference refs;
     getLineAndCharacterFromPosition := fun _ => {| line := 0; character := 4 |} |}.

Definition compiled (stmt mapName : string) : string :=
  stmt +:+ nl +:+ "//# sourceMappingURL=" +:+ mapName +:+ nl.

Definition emptyProject (sorted : bool) : Project unit :=
  {| currentFiles := []; additionalFiles := []; noExternalResolve := false;
     sortOutput := sorted; options := tt |}.

(** Three inputs, added in the order a, b, c. *)
Definition abcProject (sorted : bool) : Project unit :=
  addFile (gulpFile "/w/src/c.ts")
    (addFile (gulpFile "/w/src/b.ts")
       (addFile (gulpFile "/w/src/a.ts") (emptyProject sorted))).

Definition abcWrites : list (string * string) :=
  [("/w/src/a.js", compiled "var a;" "a.js.map");
   ("/w/src/a.js.map", "{mappings-a}");
   ("/w/src/a.d.ts", "declare var a: number;" +:+ nl +:+ "declare var a2: number;" +:+ nl);
   ("/w/src/b.js", compiled "var b;" "b.js.map");
   ("/w/src/b.js.map", "{mappings-b}");
   ("/w/lib/ext.js", compiled "var ext;" "ext.js.map");
   ("/w/src/c.js", compiled "var c;" "c.js.map");
   ("/w/src/c.js.map", "{mappings-c}")].

(** a references b, b references c. *)
Definition chainProgram : Program :=
  {| getDiagnostics := [];
     checker_getDiagnostics :=
       [{| d_file := Some (sourceOf "/w/src/a.ts" ["/w/src/b.ts"]);
           d_start := 4; d_code := 2304; d_messageText := "Cannot find name 'q'." |}];
     emitFiles_errors := [];
     emitFiles_writes := abcWrites;
     getSourceFile := fun n =>
       if decide (n = "/w/src/a.ts") then Some (sourceOf n ["/w/src/b.ts"])
       else if decide (n = "/w/src/b.ts") then Some (sourceOf n ["/w/src/c.ts"])
       else if decide (n = "/w/src/c.ts") then Some (sourceOf n [])
       else None |}.

(** a references b, b references a. *)
Definition cycleProgram : Program :=
  {| getDiagnostics := [];
     checker_getDiagnostics := [];
     emitFiles_errors := [];
     emitFiles_writes := abcWrites;
     getSourceFile := fun n =>
       if decide (n = "/w/src/a.ts") then Some (sourceOf n ["/w/src/b.ts"])
       else if decide (n = "/w/src/b.ts") then Some (sourceOf n ["/w/src/a.ts"])
       else if decide (n = "/w/src/c.ts") then Some (sourceOf n [])
       else None |}.

(** A program with a syntax error in a. *)
Definition brokenProgram : Program :=
  {| getDiagnostics :=
       [{| d_file := Some (sourceOf "/w/src/a.ts" []);
           d_start := 0; d_code := 1005; d_messageText := "';' expected." |}];
     checker_getDiagnostics := [];
     emitFiles_errors := [];
     emitFiles_writes := abcWrites;
     getSourceFile := getSourceFile chainProgram |}.

(** A diagnostic about a, one that belongs to no file, and a program whose
    checker reports the two. *)
Definition nameDiagnostic : Diagnostic :=
  {| d_file := Some (sourceOf "/w/src/a.ts" ["/w/src/b.ts"]);
     d_start := 4; d_code := 2304; d_messageText := "Cannot find name 'q'." |}.

Definition globalDiagnostic : Diagnostic :=
  {| d_file := None;
     d_start := 0; d_code := 2318;
     d_messageText := "Cannot find global type 'Array'." |}.

Definition globalProgram : Program :=
  {| getDiagnostics := [];
     checker_getDiagnostics := [nameDiagnostic; globalDiagnostic];
     emitFiles_errors := [];
     emitFiles_writes := abcWrites;
     getSourceFile := getSourceFile chainProgram |}.

(** The collaborators: [path.relative] for files below the working
    directory [/w], no colouring, and a compiler returning the given
    program. *)
Definition relative (from to : string) : string :=
  String.substring (String.length from + 1)
    (String.length to - (String.length from + 1)) to.

Definition run (prog : Program) (p : Project unit) : list event * completion :=
  compile relative (fun s => s) (fun _ _ _ => prog) p.

Definition errorOf (p : Project unit) (info : Diagnostic) : option Error :=
  getError relative (fun s => s) p info.

Definition rank (n : string) : nat :=
  if decide (n = "/w/src/a.ts") then 2%nat
  else if decide (n = "/w/src/b.ts") then 1%nat else 0%nat.

(** A previous output of [ProjectCompiler] with one error and two files,
    and projects reading it. *)
Definition cachedFile (n : string) (dts : option string)
    : ProjectCompiler.OutputFile :=
  {| ProjectCompiler.fileName := n;
     ProjectCompiler.content := fun kind =>
       match kind with
       | ProjectCompiler.JavaScript => Some ("var x;" +:+ nl)
       | ProjectCompiler.SourceMap => Some "{mappings}"
       | ProjectCompiler.Definitions => dts
       end |}.

Definition previous : @ProjectCompiler.Output string :=
  {| ProjectCompiler.errors := ["src/a.ts(1,5): 2304 Cannot find name 'q'."];
     ProjectCompiler.files :=
       [("/w/src/a", cachedFile "/w/src/a" (Some ("declare var a: number;" +:+ nl)));
        ("/w/src/b", cachedFile "/w/src/b" None)] |}.

Definition cachedProject (first : option string) (changed : bool)
    : @ProjectCompiler.Project string string unit string :=
  {| ProjectCompiler.input :=
       {| ProjectCompiler.firstSourceFile := first;
          ProjectCompiler.isChanged := fun _ => changed;
          ProjectCompiler.getFileNames := fun _ =>
            match first with
            | Some _ => ["/w/src/a.ts"; "/w/src/b.ts"]
            | None => []
            end |};
     ProjectCompiler.previousOutput := previous;
     ProjectCompiler.currentDirectory := "/w";
     ProjectCompiler.noExternalResolve := false;
     ProjectCompiler.filterSettings := None;
     ProjectCompiler.options := tt |}.

(** A compiler run reporting one diagnostic and emitting two files. *)
Definition tsRun (_ : @ProjectCompiler.Project string string unit string)
    (roots : list string) : list string * Obj.t string :=
  (["TS2304"], [("/w/src/a.js", "var a;" +:+ nl); ("/w/src/a.js.map", "{mappings-a}")]).

Definition inputDone (p : @ProjectCompiler.Project string string unit string)
    : list (@ProjectCompiler.event string string) :=
  ProjectCompiler.inputDone (fun _ _ _ => true) tsRun p.

Definition unchangedProject := cachedProject (Some "/w/src/a.ts") false.
Definition changedProject := cachedProject (Some "/w/src/a.ts") true.
Definition emptyInputProject := cachedProject None false.

(** The build that follows the one of [changedProject] on the same input:
    its previous output is the cache that build left. *)
Definition rebuiltProject : @ProjectCompiler.Project string string unit string :=
  {| ProjectCompiler.input := ProjectCompiler.input unchangedProject;
     ProjectCompiler.previousOutput :=
       ProjectCompiler.cachedBuildResult (fun d => d)
         (tsRun changedProject
            (ProjectCompiler.rootFilenames (fun _ _ _ => true) changedProject)).1
         (tsRun changedProject
            (ProjectCompiler.rootFilenames (fun _ _ _ => true) changedProject)).2;
     ProjectCompiler.currentDirectory := "/w";
     ProjectCompiler.noExternalResolve := false;
     ProjectCompiler.filterSettings := None;
     ProjectCompiler.options := tt |}.

(** The compiler that returns the given program, and the artifacts of the
    sample project under it. *)
Definition compiler (prog : Program) : list string -> unit -> Host -> Program :=
  fun _ _ _ => prog.

Definition abcArtifacts (prog : Program) (sorted : bool) : collected :=
  artifacts (compiler prog) (abcProject sorted).

Definition jsOf (n stmt : string) : File :=
  {| path := n; contents := stmt +:+ nl; cwd := "/w"; base := "/w/src";
     sourceMap := None |}.

End Examples.

(** ** Further notions: loading a project, kinds of output calls *)

(** The character replaced by [normalizePath]. *)
Definition BACKSLASH : ascii := "\"%char.

Module ProjectState.

Import Project.

(** [addFile] for each file of the pipeline, in order. *)
Definition addFiles {CompilerOptions : Type} (fs : list File)
    (p : Project CompilerOptions) : Project CompilerOptions :=
  fold_left (fun q f => addFile f q) fs p.

(** The entry [addFile] stores for a file. *)
Definition entryOf (f : File) : string * FileData :=
  (normalizePath (path f), getFileDataFromGulpFile f).

End ProjectState.

Module ProjectCompilerTrace.

Import ProjectCompiler.

Section Kinds.

Context {Error Diagnostic : Type}.

Definition is_finish (e : @event Error Diagnostic) : bool :=
  match e with OutputFinish => true | _ => false end.

Definition is_write (e : @event Error Diagnostic) : bool :=
  match e with OutputWrite _ _ => true | _ => false end.

Definition is_error (e : @event Error Diagnostic) : bool :=
  match e with OutputError _ => true | _ => false end.

Definition is_diagnostic (e : @event Error Diagnostic) : bool :=
  match e with OutputDiagnostic _ => true | _ => false end.

End Kinds.

(** The cached file has a declaration. *)
Definition has_declaration (entry : string * OutputFile) : bool :=
  match content entry.2 Definitions with Some _ => true | None => false end.

End ProjectCompilerTrace.

(** ** Further sample data *)

Module MoreExamples.

Import Project Examples.

(** The same input file under a Windows and a POSIX spelling of its path. *)
Definition winFile : File := gulpFile "\w\src\a.ts".
Definition posixFile : File := gulpFile "/w/src/a.ts".
Definition otherFile : File := gulpFile "/w/src/b.ts".

(** A program without reference directives. *)
Definition flatProgram : Program :=
  {| getDiagnostics := [];
     checker_getDiagnostics := [];
     emitFiles_errors := [];
     emitFiles_writes := abcWrites;
     getSourceFile := fun n => Some (sourceOf n []) |}.

(** A program that has no source file for c. *)
Definition partialProgram : Program :=
  {| getDiagnostics := [];
     checker_getDiagnostics := [];
     emitFiles_errors := [];
     emitFiles_writes := abcWrites;
     getSourceFile := fun n =>
       if decide (n = "/w/src/a.ts") then Some (sourceOf n [])
       else if decide (n = "/w/src/b.ts") then Some (sourceOf n [])
       else None |}.

(** A diagnostic located in a declaration file. *)
Definition dtsDiagnostic : Diagnostic :=
  {| d_file := Some (sourceOf "/w/src/lib.d.ts" []);
     d_start := 0; d_code := 2300; d_messageText := "Duplicate identifier 'x'." |}.

End MoreExamples.

(** * Properties *)

(** ** Strings *)

Section StringFacts.

Import JsString.

Lemma app_cons (c : ascii) (s t : string) :
  String c s +:+ t = String c (s +:+ t).
Proof. reflexivity. Qed.

Lemma app_empty_l (s : string) : "" +:+ s = s.
Proof. reflexivity. Qed.

Lemma app_assoc_str (s t u : string) : (s +:+ t) +:+ u = s +:+ t +:+ u.
Proof. induction s as [|c s IH]; [done|]. by rewrite !app_cons, IH. Qed.

Lemma length_app_str (s t : string) :
  String.length (s +:+ t) = (String.length s + String.length t)%nat.
Proof. induction s as [|c s IH]; [done|]. rewrite app_cons. simpl. by rewrite IH. Qed.

Lemma get_app_l (s t : string) (i : nat) :
  (i < String.length s)%nat -> String.get i (s +:+ t) = String.get i s.
Proof.
  revert i. induction s as [|c s IH]; intros i Hi; simpl in Hi; [lia|].
  rewrite app_cons. destruct i as [|i]; [done|]. simpl. apply IH. lia.
Qed.

Lemma get_app_r (s t : string) (i : nat) :
  String.get (String.length s + i) (s +:+ t) = String.get i t.
Proof. induction s as [|c s IH]; [done|]. rewrite app_cons. simpl. apply IH. Qed.

Lemma has_char_get (ch : ascii) (s : string) (i : nat) :
  has_char ch s = false -> String.get i s <> Some ch.
Proof.
  revert i. induction s as [|c s IH]; intros i H; simpl in *; [done|].
  destruct (decide (c = ch)) as [->|Hne]; [done|].
  destruct i as [|i]; [congruence|]. by apply IH.
Qed.

Lemma substring_app_l (s t : string) :
  String.substring 0 (String.length s) (s +:+ t) = s.
Proof.
  induction s as [|c s IH].
  - rewrite app_empty_l. by destruct t.
  - rewrite app_cons. cbn [String.length String.substring]. by rewrite IH.
Qed.

(** Scanning down from [k + n] over [n] positions that do not hold [ch]
    stops at [k] when [k] holds it. *)
Lemma lastIndexOf_upto_skip (ch : ascii) (s : string) (k n : nat) :
  String.get k s = Some ch ->
  (forall j, (k < j <= k + n)%nat -> String.get j s <> Some ch) ->
  lastIndexOf_upto ch s (k + n) = Z.of_nat k.
Proof.
  intros Hk. induction n as [|n IH]; intros Hskip.
  - rewrite Nat.add_0_r. destruct k; simpl; by rewrite decide_True.
  - replace (k + S n)%nat with (S (k + n)) by lia. simpl.
    rewrite decide_False by (apply Hskip; lia).
    apply IH. intros j Hj. apply Hskip. lia.
Qed.

Lemma removeSourceMapComment_last_line (body line : string) :
  has_char LF line = false ->
  removeSourceMapComment (body +:+ nl +:+ line +:+ nl) = body +:+ nl.
Proof.
  intros Hline. unfold removeSourceMapComment, lastIndexOf, substring.
  set (content := body +:+ nl +:+ line +:+ nl).
  assert (Hlen : len content
                 = Z.of_nat (String.length body) + Z.of_nat (String.length line) + 2).
  { unfold len, content, nl. rewrite !length_app_str. simpl. lia. }
  assert (Hidx : lastIndexOf_upto LF content
                   (String.length body + String.length line)
                 = Z.of_nat (String.length body)).
  { apply lastIndexOf_upto_skip.
    - unfold content. rewrite <- (Nat.add_0_r (String.length body)).
      by rewrite get_app_r.
    - intros j Hj. unfold content.
      replace j with (String.length body + S (j - String.length body - 1))%nat by lia.
      rewrite get_app_r. unfold nl at 1. rewrite app_cons, app_empty_l. simpl.
      rewrite get_app_l by lia. by apply has_char_get. }
  unfold clamp. rewrite Hlen.
  replace (Z.to_nat (Z.min (Z.max (_ + _ + 2 - 2) 0) (_ + _ + 2)))
    with (String.length body + String.length line)%nat by lia.
  rewrite Hidx.
  replace (Z.min (Z.max 0 0) _) with 0 by lia.
  replace (Z.min (Z.max (Z.of_nat (String.length body)) 0) _)
    with (Z.of_nat (String.length body)) by lia.
  replace (Z.min 0 _) with 0 by lia.
  replace (Z.max 0 _) with (Z.of_nat (String.length body)) by lia.
  rewrite Z.sub_0_r, Nat2Z.id. simpl Z.to_nat.
  unfold content. by rewrite substring_app_l.
Qed.

Lemma lastIndexOf_upto_none (ch : ascii) (s : string) (k : nat) :
  (forall j, (j <= k)%nat -> String.get j s <> Some ch) ->
  lastIndexOf_upto ch s k = -1.
Proof.
  induction k as [|k IH]; intros Hnone; simpl.
  - by rewrite decide_False by (apply Hnone; lia).
  - rewrite decide_False by (apply Hnone; lia). apply IH. intros j Hj. apply Hnone. lia.
Qed.

(** When the last line is the only line, what remains is the line break. *)
Lemma removeSourceMapComment_only_line (line : string) :
  has_char LF line = false ->
  removeSourceMapComment (line +:+ nl) = nl.
Proof.
  intros Hline. unfold removeSourceMapComment, lastIndexOf, substring, clamp, len.
  rewrite length_app_str. simpl String.length.
  destruct line as [|c line].
  - reflexivity.
  - rewrite lastIndexOf_upto_none.
    + replace (Z.min (Z.max 0 0) _) with 0 by lia. simpl. done.
    + intros j Hj. simpl String.length in Hj.
      rewrite get_app_l by (simpl String.length; lia). by apply has_char_get.
Qed.

End StringFacts.

(** ** Reference-sorted emission *)

Section SortedEmitFacts.

Import Project.

Variable prog : Program.
Variable maps : gmap string string.
Variable js : list File.

Abbreviation R := (refs_among prog js).
Abbreviation inv := (emit_inv prog maps js).

Lemma undone_mono (d d' : gset string) :
  d ⊆ d' -> (undone js d' <= undone js d)%nat.
Proof.
  intros Hsub. unfold undone. induction (map oname js) as [|n l IH]; [done|].
  rewrite !filter_cons. repeat case_decide; simpl; try lia. set_solver.
Qed.

Lemma undone_mark (d : gset string) (n : string) :
  n ∈ map oname js -> n ∉ d -> (undone js ({[n]} ∪ d) < undone js d)%nat.
Proof.
  intros Hin Hd. unfold undone. induction (map oname js) as [|m l IH]; [by inv Hin|].
  rewrite !filter_cons. apply elem_of_cons in Hin as [<-|Hin].
  - rewrite decide_False by set_solver. rewrite decide_True by done. simpl.
    pose proof (undone_mono d ({[n]} ∪ d)) as Hm.
    assert (length (filter (fun k => k ∉ {[n]} ∪ d) l)
            <= length (filter (fun k => k ∉ d) l))%nat; [|lia].
    clear. induction l as [|k l IH]; [done|].
    rewrite !filter_cons. repeat case_decide; simpl; try lia. set_solver.
  - specialize (IH Hin). repeat case_decide; simpl; try lia. set_solver.
Qed.

Lemma precedes_app {A} (l l' : list A) (x y : A) :
  precedes l x y -> precedes (l ++ l') x y.
Proof.
  intros (l1 & l2 & -> & Hx). exists l1, (l2 ++ l'). split; [|done].
  by rewrite <- app_assoc.
Qed.

Lemma precedes_snoc {A} (l : list A) (x y : A) :
  x ∈ l -> precedes (l ++ [y]) x y.
Proof. intros Hx. by exists l, []. Qed.

Lemma plainEmitAll_app (l l' : list File) :
  plainEmitAll maps (l ++ l') = plainEmitAll maps l ++ plainEmitAll maps l'.
Proof. unfold plainEmitAll. apply flat_map_app. Qed.

(** The loop over the referenced files, given the statement for the
    budget its calls run with. *)
Lemma emitReferences_spec (fuel : nat) (f : File) (tsFile : SourceFile)
    (rest : list File) :
  call_spec prog maps js fuel ->
  f ∈ js ->
  getSourceFile prog (oname f) = Some tsFile ->
  (forall g, g ∈ rest -> g ∈ js) ->
  forall (st : emitState) (pushed : list File) (anc : gset string),
    inv st pushed anc ->
    (forall a, a ∈ anc -> a = oname f \/ tc R a (oname f)) ->
    (undone js (done st) < fuel)%nat ->
    match emitReferences (sortedEmit prog maps js fuel)
            (map fr_filename (referencedFiles tsFile)) rest st with
    | (st', Normal) =>
        exists new, inv st' (pushed ++ new) anc
                    /\ done st ⊆ done st'
                    /\ (forall g, g ∈ rest ->
                           oname g ∈ map fr_filename (referencedFiles tsFile) ->
                           oname g ∈ done st')
    | (_, Threw _) => exists g, g ∈ js /\ getSourceFile prog (oname g) = None
    | (_, OutOfFuel) => False
    end.
Proof.
  intros Hcall Hf Hsrc. induction rest as [|other rest IH];
    intros Hrest st pushed anc Hinv Hanc Hfuel; simpl.
  - exists []. rewrite app_nil_r. split_and!; [done|done|]. intros g Hg. by inv Hg.
  - assert (Hother : other ∈ js) by (apply Hrest; left).
    assert (Hrest' : forall g, g ∈ rest -> g ∈ js) by (intros; apply Hrest; by right).
    assert (Hreach : oname other ∈ map fr_filename (referencedFiles tsFile) ->
                     forall a, a ∈ anc -> tc R a (oname other)).
    { intros Href a Ha.
      assert (Hedge : R (oname f) (oname other)).
      { split_and!; [by apply list_elem_of_fmap_2..|]. by exists tsFile. }
      destruct (Hanc a Ha) as [->|Htc]; [by apply tc_once|]. eapply tc_r; eauto. }
    case_decide as Href.
    + specialize (Hcall other st pushed anc Hother Hinv (Hreach Href) Hfuel).
      destruct (sortedEmit prog maps js fuel (oname other) other st)
        as [st1 [| |]]; [|done..].
      destruct Hcall as (new1 & Hinv1 & Hsub1 & Hdone1).
      assert (Hfuel1 : (undone js (done st1) < fuel)%nat).
      { pose proof (undone_mono _ _ Hsub1). lia. }
      specialize (IH Hrest' st1 (pushed ++ new1) anc Hinv1 Hanc Hfuel1).
      destruct (emitReferences _ _ rest st1) as [st2 [| |]]; [|done..].
      destruct IH as (new2 & Hinv2 & Hsub2 & Hdone2).
      exists (new1 ++ new2). rewrite app_assoc. split_and!; [done|by etrans|].
      intros g Hg Hgref. apply elem_of_cons in Hg as [->|Hg]; [by apply Hsub2|].
      by apply Hdone2.
    + specialize (IH Hrest' st pushed anc Hinv Hanc Hfuel).
      destruct (emitReferences _ _ rest st) as [st2 [| |]]; [|done..].
      destruct IH as (new2 & Hinv2 & Hsub2 & Hdone2).
      exists new2. split_and!; [done..|].
      intros g Hg Hgref. apply elem_of_cons in Hg as [->|Hg]; [done|].
      by apply Hdone2.
Qed.

Lemma plainEmitAll_snoc (l : list File) (f : File) :
  plainEmitAll maps (l ++ [f]) = plainEmitAll maps l ++ emit maps (oname f) f.
Proof. rewrite plainEmitAll_app. unfold plainEmitAll at 2. simpl. by rewrite app_nil_r. Qed.

(** The invariant after [done[originalName] = true]. *)
Lemma inv_mark (st : emitState) (pushed : list File) (anc : gset string)
    (n : string) :
  inv st pushed anc -> n ∉ done st ->
  inv {| done := {[n]} ∪ done st; out := out st |} pushed ({[n]} ∪ anc).
Proof.
  intros [Ho Hnd Hd Ha Hs Hord] Hn. split; simpl; auto.
  - intros m. rewrite !elem_of_union, elem_of_singleton, Hd. tauto.
  - intros m. rewrite elem_of_union, elem_of_singleton. intros [->|Hm]; [|by apply Ha].
    intros Hin. apply Hn, Hd. by left.
Qed.

(** The invariant after [emit(originalName, file)], once every referenced
    artifact is marked. *)
Lemma inv_emit (st : emitState) (pushed : list File) (anc : gset string)
    (f : File) (tsFile : SourceFile) :
  inv st pushed ({[oname f]} ∪ anc) ->
  oname f ∉ anc -> f ∈ js ->
  getSourceFile prog (oname f) = Some tsFile ->
  (forall a, a ∈ anc -> tc R a (oname f)) ->
  (forall g, g ∈ js -> oname g ∈ map fr_filename (referencedFiles tsFile) ->
             oname g ∈ done st) ->
  inv {| done := done st; out := out st ++ emit maps (oname f) f |}
      (pushed ++ [f]) anc.
Proof.
  intros [Ho Hnd Hd Ha Hs Hord] Hfanc Hf Hsrc Hpre Hrefs.
  assert (Hfresh : oname f ∉ map oname pushed).
  { apply Ha. apply elem_of_union_l. by apply elem_of_singleton. }
  split; simpl.
  - by rewrite plainEmitAll_snoc, Ho.
  - rewrite map_app. simpl. apply NoDup_app. split_and!; [done| |apply NoDup_singleton].
    intros x Hx Hx'. apply list_elem_of_singleton in Hx' as ->. done.
  - intros n. rewrite Hd, map_app, elem_of_app, elem_of_union, elem_of_singleton.
    simpl. rewrite list_elem_of_singleton. tauto.
  - intros n Hn. rewrite map_app, elem_of_app. simpl. rewrite list_elem_of_singleton.
    intros [Hin| ->]; [|done]. revert Hin. apply Ha. by apply elem_of_union_r.
  - intros g. rewrite elem_of_app, list_elem_of_singleton. intros [Hg| ->]; auto.
  - intros x y. rewrite map_app. simpl. rewrite elem_of_app, list_elem_of_singleton.
    intros [Hx| ->] Hxy.
    + destruct (Hord x y Hx Hxy) as [Hp|Htc]; [left|by right].
      by apply precedes_app.
    + destruct Hxy as (Hxn & Hyn & tsFile' & Hsrc' & Hy).
      rewrite Hsrc in Hsrc'. injection Hsrc' as <-.
      apply list_elem_of_fmap in Hyn as (g & -> & Hg).
      specialize (Hrefs g Hg Hy). apply Hd in Hrefs as [Hin|Hanc].
      * left. by apply precedes_snoc.
      * right. apply elem_of_union in Hanc as [Heq|Hanc]; [|by apply Hpre].
        apply elem_of_singleton in Heq. rewrite Heq. apply tc_once.
        rewrite <- Heq at 2. split_and!; [done|by apply list_elem_of_fmap_2|].
        by exists tsFile.
Qed.

(** [sortedEmit] meets its statement for every budget. *)
Lemma sortedEmit_spec (fuel : nat) : call_spec prog maps js fuel.
Proof.
  induction fuel as [|fuel IH]; intros f st pushed anc Hf Hinv Hpre Hfuel; [lia|].
  simpl. case_decide as Hdone.
  - exists []. by rewrite app_nil_r.
  - destruct (getSourceFile prog (oname f)) as [tsFile|] eqn:Hsrc; [|by exists f].
    assert (Hfuel' : (undone js ({[oname f]} ∪ done st) < fuel)%nat).
    { pose proof (undone_mark (done st) (oname f)
                    (list_elem_of_fmap_2 oname js f Hf) Hdone). lia. }
    pose proof (emitReferences_spec fuel f tsFile js IH Hf Hsrc (fun g Hg => Hg)
                  _ pushed _ (inv_mark st pushed anc (oname f) Hinv Hdone)) as Hloop.
    simpl in Hloop.
    destruct (emitReferences _ _ js _) as [st2 [| |]].
    + destruct Hloop as (new & Hinv2 & Hsub2 & Hrefs); [|done|].
      { intros a. rewrite elem_of_union, elem_of_singleton. intros [->|Ha]; auto. }
      exists (new ++ [f]). rewrite app_assoc. split_and!.
      * apply (inv_emit st2 (pushed ++ new) anc f tsFile); auto.
        intros Hanc. apply Hdone. apply (inv_done _ _ _ _ _ _ Hinv). by right.
      * simpl. etrans; [|exact Hsub2]. apply union_subseteq_r.
      * simpl. apply Hsub2. apply elem_of_union_l. by apply elem_of_singleton.
    + apply Hloop; [|done].
      intros a. rewrite elem_of_union, elem_of_singleton. intros [->|Ha]; auto.
    + apply Hloop; [|done].
      intros a. rewrite elem_of_union, elem_of_singleton. intros [->|Ha]; auto.
Qed.

(** Whatever holds of the events present at the start and of the events of
    [emit] for every artifact holds of all events afterwards, also when the
    run is cut short. *)
Lemma sortedEmit_events (P : event -> Prop) (fuel : nat) :
  (forall g, g ∈ js -> Forall P (emit maps (oname g) g)) ->
  forall (f : File) (st : emitState),
    f ∈ js -> Forall P (out st) ->
    Forall P (out (sortedEmit prog maps js fuel (oname f) f st).1).
Proof.
  intros Hemit. induction fuel as [|fuel IH]; intros f st Hf Hst; [done|].
  simpl. case_decide; [done|].
  destruct (getSourceFile prog (oname f)) as [tsFile|]; [|done].
  set (st1 := {| done := {[oname f]} ∪ done st; out := out st |}).
  assert (Hloop : forall rest st0,
             (forall g, g ∈ rest -> g ∈ js) -> Forall P (out st0) ->
             Forall P (out (emitReferences (sortedEmit prog maps js fuel)
                              (map fr_filename (referencedFiles tsFile)) rest st0).1)).
  { induction rest as [|other rest IHrest]; intros st0 Hrest Hst0; [done|]. simpl.
    assert (Hrest' : forall g, g ∈ rest -> g ∈ js) by (intros; apply Hrest; by right).
    case_decide; [|by apply IHrest].
    pose proof (IH other st0 (Hrest other ltac:(left)) Hst0) as Hcall.
    destruct (sortedEmit prog maps js fuel (oname other) other st0) as [st' [| |]];
      [by apply IHrest|done..]. }
  specialize (Hloop js st1 (fun g Hg => Hg) Hst).
  destruct (emitReferences _ _ js st1) as [st2 [| |]]; [|done..].
  simpl in *. apply Forall_app. split; [done|by apply Hemit].
Qed.

Lemma sortedEmitAll_events (P : event -> Prop) (fuel : nat) (rest : list File) :
  (forall g, g ∈ js -> Forall P (emit maps (oname g) g)) ->
  (forall g, g ∈ rest -> g ∈ js) ->
  forall st : emitState,
    Forall P (out st) ->
    Forall P (out (sortedEmitAll prog maps js fuel rest st).1).
Proof.
  intros Hemit. induction rest as [|f rest IH]; intros Hrest st Hst; [done|]. simpl.
  pose proof (sortedEmit_events P fuel Hemit f st (Hrest f ltac:(left)) Hst) as Hcall.
  destruct (sortedEmit prog maps js fuel (oname f) f st) as [st' [| |]]; [|done..].
  apply IH; [|done]. intros g Hg. apply Hrest. by right.
Qed.

(** A run that ends within its budget is the same under any larger
    budget. *)
Lemma emitReferences_fuel_mono
    (call call' : string -> File -> emitState -> emitState * completion)
    (refs : list string) (rest : list File) :
  (forall n f st st' r,
      call n f st = (st', r) -> r <> OutOfFuel -> call' n f st = (st', r)) ->
  forall st st' r,
    emitReferences call refs rest st = (st', r) -> r <> OutOfFuel ->
    emitReferences call' refs rest st = (st', r).
Proof.
  intros Hcall. induction rest as [|other rest IH]; intros st st' r Hrun Hr; [done|].
  simpl in *. case_decide; [|by apply IH].
  destruct (call (oname other) other st) as [st1 r1] eqn:Hc.
  destruct r1.
  - rewrite (Hcall _ _ _ _ _ Hc) by done. by apply IH.
  - injection Hrun as <- <-. by rewrite (Hcall _ _ _ _ _ Hc).
  - by injection Hrun as <- <-.
Qed.

Lemma sortedEmit_fuel_mono (fuel fuel' : nat) (n : string) (f : File)
    (st st' : emitState) (r : completion) :
  (fuel <= fuel')%nat ->
  sortedEmit prog maps js fuel n f st = (st', r) -> r <> OutOfFuel ->
  sortedEmit prog maps js fuel' n f st = (st', r).
Proof.
  revert fuel' n f st st' r.
  induction fuel as [|fuel IH]; intros fuel' n f st st' r Hle Hrun Hr.
  { simpl in Hrun. by injection Hrun as <- <-. }
  destruct fuel' as [|fuel']; [lia|]. simpl in *.
  case_decide; [done|].
  destruct (getSourceFile prog n) as [tsFile|]; [|done].
  destruct (emitReferences (sortedEmit prog maps js fuel) _ js _) as [st2 r2] eqn:Hloop.
  assert (Hr2 : r2 <> OutOfFuel) by (destruct r2; by simplify_eq).
  rewrite (emitReferences_fuel_mono _ (sortedEmit prog maps js fuel') _ _
             ltac:(intros; apply IH; [lia|done..]) _ _ _ Hloop Hr2).
  done.
Qed.

Lemma sortedEmitAll_fuel_mono (fuel fuel' : nat) (rest : list File)
    (st st' : emitState) (r : completion) :
  (fuel <= fuel')%nat ->
  sortedEmitAll prog maps js fuel rest st = (st', r) -> r <> OutOfFuel ->
  sortedEmitAll prog maps js fuel' rest st = (st', r).
Proof.
  intros Hle. revert st. induction rest as [|f rest IH]; intros st Hrun Hr; [done|].
  simpl in *.
  destruct (sortedEmit prog maps js fuel (oname f) f st) as [st1 r1] eqn:Hc.
  destruct r1.
  - rewrite (sortedEmit_fuel_mono _ _ _ _ _ _ _ Hle Hc) by done. by apply IH.
  - injection Hrun as <- <-. by rewrite (sortedEmit_fuel_mono _ _ _ _ _ _ _ Hle Hc).
  - by injection Hrun as <- <-.
Qed.

(** The outer loop of the sorted branch. *)
Lemma sortedEmitAll_spec (fuel : nat) (rest : list File) :
  (forall g, g ∈ rest -> g ∈ js) ->
  forall (st : emitState) (pushed : list File),
    inv st pushed ∅ ->
    (undone js (done st) < fuel)%nat ->
    match sortedEmitAll prog maps js fuel rest st with
    | (st', Normal) =>
        exists new, inv st' (pushed ++ new) ∅
                    /\ done st ⊆ done st'
                    /\ (forall g, g ∈ rest -> oname g ∈ done st')
    | (_, Threw _) => exists g, g ∈ js /\ getSourceFile prog (oname g) = None
    | (_, OutOfFuel) => False
    end.
Proof.
  induction rest as [|f rest IH]; intros Hrest st pushed Hinv Hfuel; simpl.
  - exists []. rewrite app_nil_r. split_and!; [done|done|]. intros g Hg. by inv Hg.
  - assert (Hf : f ∈ js) by (apply Hrest; left).
    pose proof (sortedEmit_spec fuel f st pushed ∅ Hf Hinv) as Hcall.
    destruct (sortedEmit prog maps js fuel (oname f) f st) as [st1 [| |]].
    + destruct Hcall as (new1 & Hinv1 & Hsub1 & Hdone1); [|done|].
      { intros a Ha. by apply not_elem_of_empty in Ha. }
      assert (Hfuel1 : (undone js (done st1) < fuel)%nat).
      { pose proof (undone_mono _ _ Hsub1). lia. }
      specialize (IH (fun g Hg => Hrest g (list_elem_of_further _ _ _ Hg))
                     st1 (pushed ++ new1) Hinv1 Hfuel1).
      destruct (sortedEmitAll prog maps js fuel rest st1) as [st2 [| |]]; [|done..].
      destruct IH as (new2 & Hinv2 & Hsub2 & Hdone2).
      exists (new1 ++ new2). rewrite app_assoc. split_and!; [done|by etrans|].
      intros g Hg. apply elem_of_cons in Hg as [->|Hg]; [by apply Hsub2|by apply Hdone2].
    + apply Hcall; [|done]. intros a Ha. by apply not_elem_of_empty in Ha.
    + apply Hcall; [|done]. intros a Ha. by apply not_elem_of_empty in Ha.
Qed.

Lemma undone_le (d : gset string) : (undone js d <= length js)%nat.
Proof.
  unfold undone. rewrite <- (length_map oname js).
  induction (map oname js) as [|n l IH]; [done|].
  rewrite filter_cons. case_decide; simpl; lia.
Qed.

Lemma inv_init : inv {| done := ∅; out := [] |} [] ∅.
Proof.
  split; simpl; try done.
  - apply NoDup_nil_2.
  - intros n. split; [intros Hn; by apply not_elem_of_empty in Hn|].
    intros [Hn|Hn]; [by inv Hn|done].
  - intros f Hf. by inv Hf.
  - intros x y Hx. by inv Hx.
Qed.

(** The whole sorted branch: it returns within its budget; when it
    returns normally the events are those of the plain emission of some
    enumeration [pushed] of the artifacts, without repetition, in which a
    referenced artifact comes first unless the two lie on a cycle. *)
Lemma sortedEmitAll_result :
  match sortedEmitAll prog maps js (S (length js)) js {| done := ∅; out := [] |} with
  | (st', Normal) =>
      exists pushed,
        out st' = plainEmitAll maps pushed
        /\ NoDup (map oname pushed)
        /\ (forall f, f ∈ pushed -> f ∈ js)
        /\ (forall g, g ∈ js -> oname g ∈ map oname pushed)
        /\ (forall x y, R x y ->
               precedes (map oname pushed) y x \/ tc R y x)
  | (_, Threw _) => exists g, g ∈ js /\ getSourceFile prog (oname g) = None
  | (_, OutOfFuel) => False
  end.
Proof.
  pose proof (sortedEmitAll_spec (S (length js)) js (fun g Hg => Hg) _ [] inv_init) as H.
  simpl in H. specialize (H ltac:(pose proof (undone_le ∅); lia)).
  destruct (sortedEmitAll _ _ _ _ _ _) as [st' [| |]]; [|done..].
  destruct H as (new & [Ho Hnd Hd Ha Hs Hord] & _ & Hall). simpl in *.
  assert (Hcover : forall g, g ∈ js -> oname g ∈ map oname new).
  { intros g Hg. destruct (proj1 (Hd _) (Hall g Hg)) as [Hin|Hin]; [done|].
    by apply not_elem_of_empty in Hin. }
  exists new. split_and!; auto.
  intros x y Hxy. apply Hord; [|done].
  destruct Hxy as (Hx & _). apply list_elem_of_fmap in Hx as (g & -> & Hg). auto.
Qed.

(** The budget [compile] runs the sorted branch with is enough: a larger
    one gives the same run. *)
Lemma sortedEmitAll_budget (fuel : nat) :
  (S (length js) <= fuel)%nat ->
  sortedEmitAll prog maps js fuel js {| done := ∅; out := [] |}
  = sortedEmitAll prog maps js (S (length js)) js {| done := ∅; out := [] |}.
Proof.
  intros Hle. pose proof sortedEmitAll_result as Hres.
  destruct (sortedEmitAll prog maps js (S (length js)) js _) as [st' r] eqn:Hrun.
  apply (sortedEmitAll_fuel_mono _ _ _ _ _ _ Hle Hrun). by destruct r.
Qed.

End SortedEmitFacts.

(** ** Original names *)

Section OriginalNameFacts.

Import JsString.

(** Two ways of splitting a string at the same distance from its end
    agree. *)
Lemma app_inj_suffix (s t a b : string) :
  s +:+ a = t +:+ b -> String.length a = String.length b -> s = t /\ a = b.
Proof.
  revert t. induction s as [|c s IH]; intros [|d t] Heq Hlen.
  - by rewrite !app_empty_l in Heq.
  - apply (f_equal String.length) in Heq. rewrite app_empty_l, app_cons in Heq.
    simpl in Heq. rewrite length_app_str in Heq. lia.
  - apply (f_equal String.length) in Heq. rewrite app_empty_l, app_cons in Heq.
    simpl in Heq. rewrite length_app_str in Heq. lia.
  - rewrite !app_cons in Heq. injection Heq as -> Heq.
    destruct (IH t Heq Hlen) as [-> ->]. done.
Qed.

Lemma match_js_map_suffix (r : string) :
  match_js_map r = true -> exists q, r = q +:+ "map".
Proof.
  destruct r as [|a [|b [|c [|d rest]]]]; simpl; try done.
  intros H. apply andb_prop in H as [_ H]. apply bool_decide_eq_true in H as ->.
  by exists (String a (String b (String c (String d "")))).
Qed.

(** No alternative of the expression matches before the last three
    characters of a name that ends in [.js]. *)
Lemma suffix_match_before_js (c : ascii) (p : string) :
  suffix_match (String c p +:+ ".js") = false.
Proof.
  apply not_true_is_false. unfold suffix_match. intros H.
  apply orb_prop in H as [H|H]; [apply orb_prop in H as [H|H]|].
  - apply bool_decide_eq_true in H.
    change ".d.ts" with (".d" +:+ ".ts") in H.
    by apply app_inj_suffix in H as [_ ?].
  - apply bool_decide_eq_true in H.
    change ".js" with ("" +:+ ".js") in H at 2.
    by apply app_inj_suffix in H as [? _].
  - apply match_js_map_suffix in H as [q H].
    by apply app_inj_suffix in H as [_ ?].
Qed.

Lemma getOriginalName_unfold (f : string) :
  getOriginalName f
  = if suffix_match f then ".ts"
    else match f with
         | EmptyString => EmptyString
         | String c rest => String c (getOriginalName rest)
         end.
Proof. by destruct f. Qed.

(** The original name of a compiled file: [.js] becomes [.ts]. *)
Lemma getOriginalName_js (p : string) :
  getOriginalName (p +:+ ".js") = p +:+ ".ts".
Proof.
  induction p as [|c p IH]; [done|].
  rewrite getOriginalName_unfold, suffix_match_before_js.
  rewrite !app_cons. by rewrite IH.
Qed.

Lemma substring_all (s : string) (m : nat) :
  (String.length s <= m)%nat -> String.substring 0 m s = s.
Proof.
  revert m. induction s as [|c s IH]; intros [|m] Hm; simpl in *; try done; try lia.
  rewrite IH; [done|lia].
Qed.

Lemma substring_drop (s : string) (k : nat) :
  (k <= String.length s)%nat ->
  exists p, s = p +:+ String.substring k (String.length s - k) s.
Proof.
  revert k. induction s as [|c s IH]; intros k Hk.
  - exists "". simpl in Hk. by replace k with 0%nat by lia.
  - destruct k as [|k].
    + exists "". rewrite app_empty_l, Nat.sub_0_r. by rewrite substring_all.
    + simpl in Hk. destruct (IH k ltac:(lia)) as [p Hp].
      exists (String c p). rewrite app_cons. simpl. by rewrite <- Hp.
Qed.

(** [s.substr(-n) === t] for a [t] of [n] characters says that [s] ends
    in [t]. *)
Lemma substr_last_suffix (n : nat) (s t : string) :
  substr_last n s = t -> String.length t = n -> exists p, s = p +:+ t.
Proof.
  unfold substr_last. intros Hsub Hlen.
  destruct (decide (n <= String.length s)%nat) as [Hle|Hgt].
  - destruct (substring_drop s (String.length s - n) ltac:(lia)) as [p Hp].
    exists p. rewrite <- Hsub. rewrite Hp at 1. do 2 f_equal. lia.
  - replace (String.length s - n)%nat with 0%nat in Hsub by lia.
    rewrite substring_all in Hsub by lia. subst t. lia.
Qed.

Lemma substr_last_app (n : nat) (p t : string) :
  String.length t = n -> substr_last n (p +:+ t) = t.
Proof.
  intros Hlen. unfold substr_last. rewrite length_app_str.
  replace (String.length p + String.length t - n)%nat with (String.length p) by lia.
  subst n. clear. induction p as [|c p IH].
  - rewrite app_empty_l. simpl. by apply substring_all.
  - rewrite app_cons. simpl. apply IH.
Qed.

End OriginalNameFacts.

(** ** The split of the emitted artifacts *)

Section CollectFacts.

Import Project.

Variable cf : Obj.t FileData.

Lemma collect_snoc (o : Obj.t string) (e : string * string) :
  collect cf (o ++ [e]) = collect_step cf (collect cf o) e.
Proof. unfold collect. by rewrite fold_left_app. Qed.

Lemma path_jsFile (filename data : string) (original : FileData) :
  path (jsFile filename data original) = filename.
Proof. unfold jsFile. by destruct (sourceMap (file original)). Qed.

Lemma contents_jsFile (filename data : string) (original : FileData) :
  contents (jsFile filename data original) = removeSourceMapComment data.
Proof. unfold jsFile. by destruct (sourceMap (file original)). Qed.

(** The compiled files collected are those of the entries ending in [.js]
    whose original name is an input file. *)
Lemma collect_outputJS_elem (o : Obj.t string) (f : File) :
  f ∈ outputJS (collect cf o) <->
  exists filename data original,
    (filename, data) ∈ o
    /\ Obj.get (getOriginalName filename) cf = Some original
    /\ JsString.substr_last 3 filename = ".js"
    /\ f = jsFile filename data original.
Proof.
  induction o as [|[k v] o IH] using rev_ind.
  - split; [intros H; by inv H|]. intros (? & ? & ? & H & _). by inv H.
  - rewrite collect_snoc. unfold collect_step. simpl.
    assert (Hold : (exists filename data original,
                       (filename, data) ∈ o
                       /\ Obj.get (getOriginalName filename) cf = Some original
                       /\ JsString.substr_last 3 filename = ".js"
                       /\ f = jsFile filename data original) ->
                   exists filename data original,
                       (filename, data) ∈ o ++ [(k, v)]
                       /\ Obj.get (getOriginalName filename) cf = Some original
                       /\ JsString.substr_last 3 filename = ".js"
                       /\ f = jsFile filename data original).
    { intros (a & b & c & H & ?). exists a, b, c. split; [|done].
      apply elem_of_app. by left. }
    assert (Hnew : forall filename data original,
               (filename, data) ∈ o ++ [(k, v)] ->
               Obj.get (getOriginalName filename) cf = Some original ->
               JsString.substr_last 3 filename = ".js" ->
               f = jsFile filename data original ->
               f ∈ outputJS (collect cf o) \/ (filename, data) = (k, v)).
    { intros a b c H ? ? ?. apply elem_of_app in H as [H|H].
      - left. apply IH. by exists a, b, c.
      - right. by apply list_elem_of_singleton in H. }
    destruct (Obj.get (getOriginalName k) cf) as [original|] eqn:Horig.
    + repeat case_decide; simpl.
      * rewrite elem_of_app, list_elem_of_singleton, IH. split.
        -- intros [Hx| ->]; [by apply Hold|]. exists k, v, original.
           split; [|done]. apply elem_of_app. right. by apply list_elem_of_singleton.
        -- intros (a & b & c & Ha & Hc & Hs & Hf).
           destruct (Hnew a b c Ha Hc Hs Hf) as [Hx|Hx]; [left; by apply IH|].
           right. injection Hx as -> ->. congruence.
      * rewrite IH. split; [apply Hold|]. intros (a & b & c & Ha & Hc & Hs & Hf).
        destruct (Hnew a b c Ha Hc Hs Hf) as [Hx|Hx]; [by apply IH|].
        injection Hx as -> ->. done.
      * rewrite IH. split; [apply Hold|]. intros (a & b & c & Ha & Hc & Hs & Hf).
        destruct (Hnew a b c Ha Hc Hs Hf) as [Hx|Hx]; [by apply IH|].
        injection Hx as -> ->. done.
      * rewrite IH. split; [apply Hold|]. intros (a & b & c & Ha & Hc & Hs & Hf).
        destruct (Hnew a b c Ha Hc Hs Hf) as [Hx|Hx]; [by apply IH|].
        injection Hx as -> ->. done.
    + rewrite IH. split; [apply Hold|]. intros (a & b & c & Ha & Hc & Hs & Hf).
      destruct (Hnew a b c Ha Hc Hs Hf) as [Hx|Hx]; [by apply IH|].
      injection Hx as -> ->. congruence.
Qed.

(** The declaration files pushed are those of the entries ending in
    [.d.ts] whose original name is an input file. *)
Lemma collect_declStream_elem (o : Obj.t string) (f : File) :
  f ∈ declStream (collect cf o) <->
  exists filename data original,
    (filename, data) ∈ o
    /\ Obj.get (getOriginalName filename) cf = Some original
    /\ JsString.substr_last 3 filename <> ".js"
    /\ JsString.substr_last 5 filename = ".d.ts"
    /\ f = outputFile filename data original.
Proof.
  induction o as [|[k v] o IH] using rev_ind.
  - split; [intros H; by inv H|]. intros (? & ? & ? & H & _). by inv H.
  - rewrite collect_snoc. unfold collect_step. simpl.
    assert (Hold : f ∈ declStream (collect cf o) ->
                   exists filename data original,
                       (filename, data) ∈ o ++ [(k, v)]
                       /\ Obj.get (getOriginalName filename) cf = Some original
                       /\ JsString.substr_last 3 filename <> ".js"
                       /\ JsString.substr_last 5 filename = ".d.ts"
                       /\ f = outputFile filename data original).
    { intros (a & b & c & Hin & ?)%IH. exists a, b, c. split; [|done].
      apply elem_of_app. by left. }
    assert (Hnew : (exists filename data original,
               (filename, data) ∈ o ++ [(k, v)]
               /\ Obj.get (getOriginalName filename) cf = Some original
               /\ JsString.substr_last 3 filename <> ".js"
               /\ JsString.substr_last 5 filename = ".d.ts"
               /\ f = outputFile filename data original) ->
               f ∈ declStream (collect cf o)
               \/ exists original,
                    Obj.get (getOriginalName k) cf = Some original
                    /\ JsString.substr_last 3 k <> ".js"
                    /\ JsString.substr_last 5 k = ".d.ts"
                    /\ f = outputFile k v original).
    { intros (a & b & c & Hin & Hc & Hj & Hd & Hf). apply elem_of_app in Hin as [Hin|Hin].
      - left. apply IH. by exists a, b, c.
      - right. apply list_elem_of_singleton in Hin. injection Hin as -> ->. by exists c. }
    destruct (Obj.get (getOriginalName k) cf) as [original|] eqn:Horig.
    + repeat case_decide; simpl.
      * split; [apply Hold|]. intros [Hx|(c & _ & Hj & _)]%Hnew; done.
      * rewrite elem_of_app, list_elem_of_singleton. split.
        -- intros [Hx| ->]; [by apply Hold|]. exists k, v, original.
           split; [|done]. apply elem_of_app. right. by apply list_elem_of_singleton.
        -- intros [Hx|(c & Hc & _ & _ & Hf)]%Hnew; [by left|]. right. congruence.
      * split; [apply Hold|]. intros [Hx|(c & _ & _ & Hd & _)]%Hnew; done.
      * split; [apply Hold|]. intros [Hx|(c & _ & _ & Hd & _)]%Hnew; done.
    + split; [apply Hold|]. intros [Hx|(c & Hc & _)]%Hnew; done.
Qed.

(** Every key of the source-map dictionary ends in [.map]. *)
Lemma collect_sourcemaps_key (o : Obj.t string) (k v : string) :
  sourcemaps (collect cf o) !! k = Some v -> exists q, k = q +:+ ".map".
Proof.
  induction o as [|[k' v'] o IH] using rev_ind; [done|].
  rewrite collect_snoc. unfold collect_step. simpl.
  destruct (Obj.get (getOriginalName k') cf) as [original|]; [|done].
  repeat case_decide; simpl; try done.
  rewrite lookup_insert. case_decide as Hk; [|done].
  intros _. subst k'. by apply (substr_last_suffix 4).
Qed.

(** The paths of the compiled files are keys of the output, in their
    order. *)
Lemma collect_outputJS_paths (o : Obj.t string) :
  map path (outputJS (collect cf o)) `sublist_of` Obj.keys o.
Proof.
  induction o as [|[k v] o IH] using rev_ind; [done|].
  rewrite collect_snoc. unfold collect_step, Obj.keys. rewrite map_app. simpl.
  destruct (Obj.get (getOriginalName k) cf) as [original|];
    [|by apply sublist_inserts_r].
  repeat case_decide; simpl; try by apply sublist_inserts_r.
  rewrite map_app. simpl. rewrite path_jsFile. by apply sublist_app.
Qed.

(** An artifact whose original name is not an input file leaves the
    split as it is. *)
Lemma collect_orphan (o1 o2 : Obj.t string) (filename data : string) :
  Obj.get (getOriginalName filename) cf = None ->
  collect cf (o1 ++ (filename, data) :: o2) = collect cf (o1 ++ o2).
Proof.
  intros Horphan. unfold collect. rewrite !fold_left_app. simpl.
  unfold collect_step at 2. simpl. by rewrite Horphan.
Qed.

End CollectFacts.

(** ** The output of the host and the names of the compiled files *)

Section OutputFacts.

Import Project.

Lemma keys_set {V} (k : string) (v : V) (o : Obj.t V) :
  Obj.keys (Obj.set k v o)
  = if decide (k ∈ Obj.keys o) then Obj.keys o else Obj.keys o ++ [k].
Proof.
  induction o as [|[k' v'] o IH].
  - cbn. case_decide as Hin; [by inv Hin|done].
  - cbn [Obj.set Obj.keys map fst]. destruct (decide (k' = k)) as [->|Hne].
    + cbn [map fst]. rewrite decide_True; [done|]. by left.
    + cbn [map fst]. fold (Obj.keys (Obj.set k v o)). fold (Obj.keys o). rewrite IH.
      destruct (decide (k ∈ Obj.keys o)) as [Hin|Hnin].
      * rewrite decide_True; [done|]. by right.
      * rewrite decide_False; [done|]. intros [?|?]%elem_of_cons; congruence.
Qed.

Lemma get_set_eq {V} (k : string) (v : V) (o : Obj.t V) :
  Obj.get k (Obj.set k v o) = Some v.
Proof.
  induction o as [|[k' v'] o IH]; simpl.
  - by rewrite decide_True.
  - destruct (decide (k' = k)) as [->|Hne]; simpl.
    + by rewrite decide_True.
    + by rewrite decide_False.
Qed.

Lemma get_set_ne {V} (k k' : string) (v : V) (o : Obj.t V) :
  k' <> k -> Obj.get k' (Obj.set k v o) = Obj.get k' o.
Proof.
  intros Hne. induction o as [|[k0 v0] o IH]; simpl.
  - by rewrite decide_False.
  - destruct (decide (k0 = k)) as [->|Hk]; simpl.
    + by rewrite !decide_False.
    + destruct (decide (k0 = k')); [done|]. exact IH.
Qed.

Lemma set_set {V} (k : string) (v w : V) (o : Obj.t V) :
  Obj.set k w (Obj.set k v o) = Obj.set k w o.
Proof.
  induction o as [|[k' v'] o IH]; simpl.
  - by rewrite decide_True.
  - destruct (decide (k' = k)) as [->|Hne]; simpl.
    + by rewrite decide_True.
    + rewrite decide_False by done. by rewrite IH.
Qed.


Lemma get_entry {V} (k : string) (v : V) (o : Obj.t V) :
  NoDup (Obj.keys o) -> (k, v) ∈ o -> Obj.get k o = Some v.
Proof.
  induction o as [|[k' v'] o IH]; intros Hnd Hin; [by inv Hin|]. simpl.
  apply NoDup_cons in Hnd as [Hk' Hnd].
  apply elem_of_cons in Hin as [Heq|Hin].
  - injection Heq as -> ->. by rewrite decide_True.
  - rewrite decide_False; [by apply IH|].
    intros ->. apply Hk'. by apply (list_elem_of_fmap_2 fst _ (k, v)).
Qed.

Lemma get_is_Some {V} (k : string) (o : Obj.t V) :
  k ∈ Obj.keys o <-> is_Some (Obj.get k o).
Proof.
  induction o as [|[k' v'] o IH]; simpl.
  - split; [intros H; by inv H|by intros [? ?]].
  - destruct (decide (k' = k)) as [->|Hne].
    + split; [by eexists|]. intros _. by left.
    + rewrite <- IH. split; [|by right].
      intros [?|?]%elem_of_cons; [congruence|done].
Qed.

Lemma get_elem {V} (k : string) (v : V) (o : Obj.t V) :
  Obj.get k o = Some v -> (k, v) ∈ o.
Proof.
  induction o as [|[k' v'] o IH]; simpl; [done|].
  destruct (decide (k' = k)) as [->|Hne].
  - intros [= ->]. by left.
  - intros H. right. by apply IH.
Qed.

(** The keys of [host.output] are pairwise different. *)
Lemma host_output_NoDup (writes : list (string * string)) :
  NoDup (Obj.keys (host_output writes)).
Proof.
  unfold host_output. induction writes as [|[k v] writes IH] using rev_ind.
  - apply NoDup_nil_2.
  - rewrite fold_left_app. simpl. rewrite keys_set. case_decide as Hin; [done|].
    apply NoDup_app. split_and!; [done| |apply NoDup_singleton].
    intros x Hx ->%list_elem_of_singleton. done.
Qed.

Variable cf : Obj.t FileData.
Variable o : Obj.t string.

(** A compiled file has a path in [.js] and an original name in [.ts]. *)
Lemma outputJS_names (f : File) :
  f ∈ outputJS (collect cf o) ->
  exists p, path f = p +:+ ".js" /\ oname f = p +:+ ".ts".
Proof.
  intros (filename & data & original & _ & _ & Hjs & ->)%collect_outputJS_elem.
  apply (substr_last_suffix 3) in Hjs as [p ->]; [|done].
  exists p. unfold oname. rewrite path_jsFile. split; [done|].
  apply getOriginalName_js.
Qed.

(** The lookup made by [emit] never finds a map: the dictionary is keyed
    by the names of the map files, and it is read at original names. *)
Lemma sourcemaps_lookup_original (f : File) :
  f ∈ outputJS (collect cf o) ->
  sourcemaps (collect cf o) !! oname f = None.
Proof.
  intros (p & _ & Hname)%outputJS_names.
  destruct (sourcemaps (collect cf o) !! oname f) as [v|] eqn:Hlook; [|done].
  apply collect_sourcemaps_key in Hlook as [q Hq]. rewrite Hname in Hq.
  change ".map" with ("." +:+ "map") in Hq. rewrite <- app_assoc_str in Hq.
  by apply app_inj_suffix in Hq as [_ ?].
Qed.

Lemma emit_outputJS (f : File) :
  f ∈ outputJS (collect cf o) ->
  emit (sourcemaps (collect cf o)) (oname f) f = [JsPush f].
Proof. intros Hf. unfold emit. by rewrite sourcemaps_lookup_original. Qed.

Lemma plainEmitAll_outputJS (l : list File) :
  (forall f, f ∈ l -> f ∈ outputJS (collect cf o)) ->
  plainEmitAll (sourcemaps (collect cf o)) l = map JsPush l.
Proof.
  induction l as [|f l IH]; intros Hl; [done|].
  unfold plainEmitAll in *. simpl. rewrite emit_outputJS by (apply Hl; left).
  simpl. f_equal. apply IH. intros g Hg. apply Hl. by right.
Qed.

(** Different compiled files have different original names. *)
Lemma outputJS_oname_NoDup :
  NoDup (Obj.keys o) -> NoDup (map oname (outputJS (collect cf o))).
Proof.
  intros Hkeys.
  assert (Hpaths : NoDup (map path (outputJS (collect cf o)))).
  { eapply sublist_NoDup; [done|apply collect_outputJS_paths]. }
  unfold oname. rewrite <- (map_map path getOriginalName).
  apply NoDup_fmap_2_strong; [|done].
  intros x y (f & -> & Hf)%list_elem_of_fmap (g & -> & Hg)%list_elem_of_fmap Heq.
  apply outputJS_names in Hf as (p & Hp & Hpn), Hg as (q & Hq & Hqn).
  unfold oname in Hpn, Hqn. rewrite Hpn, Hqn in Heq.
  apply app_inj_suffix in Heq as [-> _]; [|done]. congruence.
Qed.

Lemma jsPushed_map (l : list File) : jsPushed (map JsPush l) = l.
Proof. induction l as [|f l IH]; [done|]. cbn. f_equal. exact IH. Qed.

Lemma jsPushed_app (t1 t2 : list event) :
  jsPushed (t1 ++ t2) = jsPushed t1 ++ jsPushed t2.
Proof. apply omap_app. Qed.

End OutputFacts.

(** ** Runs of [Project.compile] *)

Section CompileFacts.

Import Project.

Context {CompilerOptions : Type}.
Variable path_relative : string -> string -> string.
Variable colors_red : string -> string.
Variable ts_createProgram : list string -> CompilerOptions -> Host -> Program.

Abbreviation compile := (Project.compile path_relative colors_red ts_createProgram).
Abbreviation getError := (Project.getError path_relative colors_red).
Abbreviation reportErrors := (Project.reportErrors path_relative colors_red).
Abbreviation createProgram := (Project.createProgram ts_createProgram).
Abbreviation reported := (Project.reported ts_createProgram).
Abbreviation hostOutput := (Project.hostOutput ts_createProgram).
Abbreviation artifacts := (Project.artifacts ts_createProgram).

Lemma getError_is_Some (p : Project CompilerOptions) (info : Diagnostic) :
  has_file info <-> is_Some (getError p info).
Proof.
  unfold has_file, Project.getError.
  destruct (d_file info); split; intros [x Hx]; [by eexists..|done|done].
Qed.

Lemma getError_None (p : Project CompilerOptions) (info : Diagnostic) :
  d_file info = None -> getError p info = None.
Proof. intros Hinfo. unfold Project.getError. by rewrite Hinfo. Qed.

Lemma reportErrors_cons (p : Project CompilerOptions) (info : Diagnostic)
    (rest : list Diagnostic) :
  reportErrors p (info :: rest)
  = match getError p info with
    | None => ([], Threw "TypeError: Cannot read property 'filename' of undefined")
    | Some err =>
        (ErrorCallback err :: (reportErrors p rest).1, (reportErrors p rest).2)
    end.
Proof. done. Qed.

Lemma omap_cons_getError (p : Project CompilerOptions) (info : Diagnostic)
    (rest : list Diagnostic) :
  omap (getError p) (info :: rest)
  = match getError p info with
    | Some err => err :: omap (getError p) rest
    | None => omap (getError p) rest
    end.
Proof. done. Qed.

(** The error loop reports every diagnostic when each has its file. *)
Lemma reportErrors_located (p : Project CompilerOptions) (ds : list Diagnostic) :
  Forall has_file ds ->
  reportErrors p ds = (map ErrorCallback (omap (getError p) ds), Normal).
Proof.
  induction 1 as [|info ds Hinfo _ IH]; [done|].
  apply (getError_is_Some p) in Hinfo as [err Herr].
  rewrite reportErrors_cons, omap_cons_getError, Herr, IH. done.
Qed.

(** It stops with an exception at the first diagnostic without file. *)
Lemma reportErrors_thrown (p : Project CompilerOptions)
    (pre post : list Diagnostic) (info : Diagnostic) :
  Forall has_file pre -> d_file info = None ->
  reportErrors p (pre ++ info :: post)
  = (map ErrorCallback (omap (getError p) pre),
     Threw "TypeError: Cannot read property 'filename' of undefined").
Proof.
  intros Hpre Hinfo. induction Hpre as [|d ds Hd _ IH].
  - cbn [app]. by rewrite reportErrors_cons, (getError_None p info Hinfo).
  - apply (getError_is_Some p) in Hd as [err Herr]. cbn [app].
    rewrite reportErrors_cons, omap_cons_getError, Herr, IH. done.
Qed.

Lemma located_cases (ds : list Diagnostic) :
  Forall has_file ds
  \/ exists pre info post,
       ds = pre ++ info :: post /\ Forall has_file pre /\ d_file info = None.
Proof.
  induction ds as [|d ds [IH|(pre & info & post & -> & Hpre & Hinfo)]].
  - left. constructor.
  - destruct (d_file d) as [sf|] eqn:Hd.
    + left. constructor; [by exists sf|done].
    + right. by exists [], d, ds.
  - destruct (d_file d) as [sf|] eqn:Hd.
    + right. exists (d :: pre), info, post. split_and!; [done| |done].
      constructor; [by exists sf|done].
    + right. by exists [], d, (pre ++ info :: post).
Qed.

Lemma compile_unfold (p : Project CompilerOptions) :
  compile p
  = match (reportErrors p (reported p)).2 with
    | Normal =>
        (CreateProgram (getCurrentFilenames p)
           :: (diagnose (createProgram p)).1.1
           ++ (reportErrors p (reported p)).1
           ++ (emitStage p (createProgram p) (hostOutput p)).1,
         (emitStage p (createProgram p) (hostOutput p)).2)
    | thrown =>
        (CreateProgram (getCurrentFilenames p)
           :: (diagnose (createProgram p)).1.1
           ++ (reportErrors p (reported p)).1,
         thrown)
    end.
Proof.
  unfold Project.compile, Project.reported, Project.hostOutput.
  by destruct (diagnose _) as [[calls errors] output].
Qed.

(** A run in which every diagnostic has its file goes on to the emission
    stage. *)
Lemma compile_located (p : Project CompilerOptions) :
  Forall has_file (reported p) ->
  compile p
  = (CreateProgram (getCurrentFilenames p)
       :: (diagnose (createProgram p)).1.1
       ++ map ErrorCallback (omap (getError p) (reported p))
       ++ (emitStage p (createProgram p) (hostOutput p)).1,
     (emitStage p (createProgram p) (hostOutput p)).2).
Proof.
  intros Hloc. rewrite compile_unfold. by rewrite (reportErrors_located p _ Hloc).
Qed.

(** A run with a diagnostic without file ends in the error loop. *)
Lemma compile_thrown (p : Project CompilerOptions)
    (pre post : list Diagnostic) (info : Diagnostic) :
  reported p = pre ++ info :: post ->
  Forall has_file pre -> d_file info = None ->
  compile p
  = (CreateProgram (getCurrentFilenames p)
       :: (diagnose (createProgram p)).1.1
       ++ map ErrorCallback (omap (getError p) pre),
     Threw "TypeError: Cannot read property 'filename' of undefined").
Proof.
  intros Hrep Hpre Hinfo. rewrite compile_unfold, Hrep.
  by rewrite (reportErrors_thrown p pre post info Hpre Hinfo).
Qed.

Lemma hostOutput_NoDup (p : Project CompilerOptions) :
  NoDup (Obj.keys (hostOutput p)).
Proof.
  unfold Project.hostOutput, diagnose. case_decide; apply host_output_NoDup.
Qed.

Lemma pushes_of_filters (js : list File) (tr : list event) :
  Forall (pushes_of js) tr ->
  declPushed tr = [] /\ mapsApplied tr = [] /\ errorsReported tr = []
  /\ forall f, f ∈ jsPushed tr -> f ∈ js.
Proof.
  induction 1 as [|e tr (f & -> & Hf) _ (? & ? & ? & IH)].
  - split_and!; try done. intros f Hf. by inv Hf.
  - cbn. split_and!; try done. intros g [->|Hg]%elem_of_cons; auto.
Qed.

Lemma pushes_of_map (js : list File) (l : list File) :
  (forall f, f ∈ l -> f ∈ js) -> Forall (pushes_of js) (map JsPush l).
Proof.
  induction l as [|f l IH]; intros Hl; constructor.
  - exists f. split; [done|]. apply Hl. by left.
  - apply IH. intros g Hg. apply Hl. by right.
Qed.

Lemma declPushed_app (t1 t2 : list event) :
  declPushed (t1 ++ t2) = declPushed t1 ++ declPushed t2.
Proof. apply omap_app. Qed.

Lemma declPushed_map (l : list File) : declPushed (map DeclPush l) = l.
Proof. induction l as [|f l IH]; [done|]. cbn. f_equal. exact IH. Qed.

Lemma mapsApplied_app (t1 t2 : list event) :
  mapsApplied (t1 ++ t2) = mapsApplied t1 ++ mapsApplied t2.
Proof. apply omap_app. Qed.

Lemma errorsReported_app (t1 t2 : list event) :
  errorsReported (t1 ++ t2) = errorsReported t1 ++ errorsReported t2.
Proof. apply omap_app. Qed.

Lemma filters_decls (l : list File) :
  jsPushed (map DeclPush l) = [] /\ mapsApplied (map DeclPush l) = []
  /\ errorsReported (map DeclPush l) = [].
Proof. induction l as [|f l IH]; [done|]. cbn. exact IH. Qed.

Lemma filters_errors (l : list Error) :
  let tr := map ErrorCallback l in
  jsPushed tr = [] /\ mapsApplied tr = [] /\ declPushed tr = []
  /\ errorsReported tr = l.
Proof.
  induction l as [|f l (? & ? & ? & IH)]; [done|]. cbn. split_and!; try done.
  f_equal. exact IH.
Qed.

Lemma filters_calls (prog : Program) :
  let calls := (diagnose prog).1.1 in
  jsPushed calls = [] /\ mapsApplied calls = [] /\ declPushed calls = []
  /\ errorsReported calls = [].
Proof. unfold diagnose. by case_decide. Qed.

Section Stage.

Variable p : Project CompilerOptions.
Variable prog : Program.
Variable o : Obj.t string.

Abbreviation c := (collect (currentFiles p) o).
Abbreviation sortedRun :=
  (sortedEmitAll prog (sourcemaps c) (outputJS c) (S (length (outputJS c)))
     (outputJS c) {| done := ∅; out := [] |}).

Lemma emit_pushes_of (g : File) :
  g ∈ outputJS c ->
  Forall (pushes_of (outputJS c)) (emit (sourcemaps c) (oname g) g).
Proof.
  intros Hg. rewrite emit_outputJS by done. constructor; [by exists g|done].
Qed.

Lemma sortedRun_pushes_of : Forall (pushes_of (outputJS c)) (out sortedRun.1).
Proof.
  apply sortedEmitAll_events; [apply emit_pushes_of|done|constructor].
Qed.

(** The emission stage pushes the declaration files, then compiled files
    only. *)
Lemma emitStage_shape :
  exists tr, (emitStage p prog o).1 = map DeclPush (declStream c) ++ tr
             /\ Forall (pushes_of (outputJS c)) tr.
Proof.
  unfold emitStage. destruct (sortOutput p); simpl.
  - eexists. split; [done|]. apply sortedRun_pushes_of.
  - eexists. split; [done|]. rewrite plainEmitAll_outputJS by done.
    by apply pushes_of_map.
Qed.

(** The stage returns normally, unless the sorted branch meets an artifact
    whose source file the program does not have. *)
Lemma emitStage_completion :
  (emitStage p prog o).2 = Normal
  \/ (sortOutput p = true
      /\ exists message g,
           (emitStage p prog o).2 = Threw message
           /\ g ∈ outputJS c /\ getSourceFile prog (oname g) = None).
Proof.
  unfold emitStage. destruct (sortOutput p); simpl; [|by left].
  pose proof (sortedEmitAll_result prog (sourcemaps c) (outputJS c)) as H.
  destruct sortedRun as [st' [|message|]]; simpl; [by left| |done].
  right. split; [done|]. destruct H as (g & Hg & Hnone). by exists message, g.
Qed.

(** When the stage returns normally, the compiled files pushed are the
    compiled artifacts, each once; in the sorted branch a referenced
    artifact comes first unless the two lie on a cycle of references. *)
Lemma emitStage_pushed :
  NoDup (Obj.keys o) ->
  (emitStage p prog o).2 = Normal ->
  jsPushed (emitStage p prog o).1 ≡ₚ outputJS c
  /\ (sortOutput p = true ->
      forall fa fb, fa ∈ outputJS c -> fb ∈ outputJS c ->
        references prog (oname fa) (oname fb) ->
        precedes (jsPushed (emitStage p prog o).1) fb fa
        \/ tc (refs_among prog (outputJS c)) (oname fb) (oname fa)).
Proof.
  intros Hkeys. pose proof (outputJS_oname_NoDup (currentFiles p) o Hkeys) as Hnames.
  assert (Hinj : forall x y, x ∈ outputJS c -> y ∈ outputJS c ->
                             oname x = oname y -> x = y).
  { revert Hnames. generalize (outputJS c). intros l. induction l as [|a l IH]; simpl.
    - intros _ x y Hx. by inv Hx.
    - intros [Ha Hl]%NoDup_cons x y [->|Hx]%elem_of_cons [->|Hy]%elem_of_cons Heq; auto.
      + exfalso. apply Ha. rewrite Heq. by apply list_elem_of_fmap_2.
      + exfalso. apply Ha. rewrite <- Heq. by apply list_elem_of_fmap_2. }
  unfold emitStage. destruct (sortOutput p); simpl.
  - pose proof (sortedEmitAll_result prog (sourcemaps c) (outputJS c)) as H.
    destruct sortedRun as [st' [|message|]]; simpl; [intros _|done..].
    destruct H as (pushed & Hout & Hnd & Hsub & Hcover & Hord).
    rewrite Hout, plainEmitAll_outputJS by done.
    rewrite jsPushed_app, (proj1 (filters_decls _)), jsPushed_map. simpl.
    split.
    + apply NoDup_Permutation.
      * by apply NoDup_fmap_1 in Hnd.
      * by apply NoDup_fmap_1 in Hnames.
      * intros x. split; [apply Hsub|]. intros Hx.
        pose proof (Hcover x Hx) as Hc.
        apply list_elem_of_fmap in Hc as (y & Heq & Hy).
        by rewrite (Hinj x y Hx (Hsub y Hy) Heq).
    + intros _ fa fb Hfa Hfb Href.
      destruct (Hord (oname fa) (oname fb)) as [Hp|Htc]; [|left|by right].
      { split_and!; [by apply list_elem_of_fmap_2..|done]. }
      destruct Hp as (l1 & l2 & Hsplit & Hin).
      apply fmap_app_inv in Hsplit as (k1 & k2' & -> & Hk2 & ->).
      symmetry in Hk2.
      apply fmap_cons_inv in Hk2 as (a & k2 & Ha & -> & ->).
      assert (Hasub : a ∈ outputJS c).
      { apply Hsub. apply elem_of_app. right. by left. }
      rewrite (Hinj fa a Hfa Hasub Ha).
      exists k1, k2. split; [done|].
      apply list_elem_of_fmap in Hin as (b & Hb & Hbin).
      assert (Hbsub : b ∈ outputJS c).
      { apply Hsub. apply elem_of_app. by left. }
      by rewrite (Hinj fb b Hfb Hbsub Hb).
  - intros _. rewrite plainEmitAll_outputJS by done.
    rewrite jsPushed_app, (proj1 (filters_decls _)), jsPushed_map. simpl.
    split; [done|]. intros Hs. done.
Qed.

End Stage.

(** The trace of [compile]: the compiler calls, one callback per diagnostic,
    the declaration files, then compiled files only. *)
Lemma compile_shape (p : Project CompilerOptions) :
  Forall has_file (reported p) ->
  exists tr,
    (compile p).1
    = CreateProgram (getCurrentFilenames p)
        :: (diagnose (createProgram p)).1.1
        ++ map ErrorCallback (omap (getError p) (reported p))
        ++ map DeclPush (declStream (artifacts p)) ++ tr
    /\ Forall (pushes_of (outputJS (artifacts p))) tr
    /\ jsPushed (compile p).1 = jsPushed tr.
Proof.
  intros Hloc.
  destruct (emitStage_shape p (createProgram p) (hostOutput p)) as (tr & Htr & Hjs).
  exists tr. rewrite compile_located by done. simpl. rewrite Htr.
  split_and!; [done|done|].
  pose proof (filters_calls (createProgram p)) as (Hc & _).
  change (CreateProgram ?r :: ?l) with ([CreateProgram r] ++ l).
  rewrite !jsPushed_app, Hc, (proj1 (filters_decls _)).
  by rewrite (proj1 (filters_errors _)).
Qed.

Lemma compile_completion (p : Project CompilerOptions) :
  Forall has_file (reported p) ->
  (compile p).2 = (emitStage p (createProgram p) (hostOutput p)).2.
Proof. intros Hloc. by rewrite compile_located. Qed.


Lemma compile_jsPushed (p : Project CompilerOptions) :
  Forall has_file (reported p) ->
  jsPushed (compile p).1
  = jsPushed (emitStage p (createProgram p) (hostOutput p)).1.
Proof.
  intros Hloc. rewrite compile_located by done. simpl.
  pose proof (filters_calls (createProgram p)) as (Hc & _).
  change (CreateProgram ?r :: ?l) with ([CreateProgram r] ++ l).
  rewrite !jsPushed_app, Hc. by rewrite (proj1 (filters_errors _)).
Qed.

Lemma compile_filters (p : Project CompilerOptions) :
  Forall has_file (reported p) ->
  declPushed (compile p).1 = declStream (artifacts p)
  /\ mapsApplied (compile p).1 = []
  /\ errorsReported (compile p).1 = omap (getError p) (reported p)
  /\ forall f, f ∈ jsPushed (compile p).1 -> f ∈ outputJS (artifacts p).
Proof.
  intros Hloc.
  destruct (compile_shape p Hloc) as (tr & Htr & Hjs & Hpushed).
  rewrite Hpushed, Htr.
  pose proof (filters_calls (createProgram p)) as (_ & Hc1 & Hc2 & Hc3).
  pose proof (filters_errors (omap (getError p) (reported p))) as (_ & He1 & He2 & He3).
  pose proof (filters_decls (declStream (artifacts p))) as (_ & Hd1 & Hd2).
  pose proof (pushes_of_filters _ _ Hjs) as (Hj1 & Hj2 & Hj3 & Hj4).
  change (CreateProgram ?r :: ?l) with ([CreateProgram r] ++ l).
  rewrite !declPushed_app, !mapsApplied_app, !errorsReported_app.
  rewrite Hc1, Hc2, Hc3, He1, He2, He3, Hd1, Hd2, Hj1, Hj2, Hj3, declPushed_map.
  simpl. rewrite !app_nil_r. done.
Qed.

(** A run ended by a diagnostic without file reports the diagnostics before
    it and pushes nothing. *)
Lemma compile_thrown_filters (p : Project CompilerOptions)
    (pre post : list Diagnostic) (info : Diagnostic) :
  reported p = pre ++ info :: post ->
  Forall has_file pre -> d_file info = None ->
  jsPushed (compile p).1 = [] /\ declPushed (compile p).1 = []
  /\ mapsApplied (compile p).1 = []
  /\ errorsReported (compile p).1 = omap (getError p) pre.
Proof.
  intros Hrep Hpre Hinfo. rewrite (compile_thrown p pre post info Hrep Hpre Hinfo).
  cbn [fst].
  pose proof (filters_calls (createProgram p)) as (Hc0 & Hc1 & Hc2 & Hc3).
  pose proof (filters_errors (omap (getError p) pre)) as (He0 & He1 & He2 & He3).
  change (CreateProgram ?r :: ?l) with ([CreateProgram r] ++ l).
  rewrite !jsPushed_app, !declPushed_app, !mapsApplied_app, !errorsReported_app.
  by rewrite Hc0, Hc1, Hc2, Hc3, He0, He1, He2, He3.
Qed.

(** In every run, what is pushed is among the artifacts and no source map
    is applied. *)
Lemma compile_pushed (p : Project CompilerOptions) :
  mapsApplied (compile p).1 = []
  /\ (forall f, f ∈ jsPushed (compile p).1 -> f ∈ outputJS (artifacts p))
  /\ (forall f, f ∈ declPushed (compile p).1 -> f ∈ declStream (artifacts p)).
Proof.
  destruct (located_cases (reported p))
    as [Hloc|(pre & info & post & Hrep & Hpre & Hinfo)].
  - destruct (compile_filters p Hloc) as (Hd & Hm & _ & Hj).
    split_and!; [done|done|]. intros f. by rewrite Hd.
  - destruct (compile_thrown_filters p pre post info Hrep Hpre Hinfo)
      as (Hj & Hd & Hm & _).
    rewrite Hj, Hd. split_and!; [done|..]; intros f Hf; by inv Hf.
Qed.

(** [compile] returns normally exactly when every diagnostic has its file
    and the emission stage returns normally. *)
Lemma compile_normal_iff (p : Project CompilerOptions) :
  (compile p).2 = Normal
  <-> Forall has_file (reported p)
      /\ (emitStage p (createProgram p) (hostOutput p)).2 = Normal.
Proof.
  split.
  - intros Hn. destruct (located_cases (reported p))
      as [Hloc|(pre & info & post & Hrep & Hpre & Hinfo)].
    + split; [done|]. by rewrite <- compile_completion.
    + by rewrite (compile_thrown p pre post info Hrep Hpre Hinfo) in Hn.
  - intros [Hloc Hn]. by rewrite compile_completion.
Qed.

Lemma compile_not_OutOfFuel (p : Project CompilerOptions) :
  (compile p).2 <> Normal -> exists message, (compile p).2 = Threw message.
Proof.
  destruct (located_cases (reported p))
    as [Hloc|(pre & info & post & Hrep & Hpre & Hinfo)].
  - rewrite compile_completion by done.
    destruct (emitStage_completion p (createProgram p) (hostOutput p))
      as [Hn|(_ & m & g & Hm & _)]; [done|]. by exists m.
  - rewrite (compile_thrown p pre post info Hrep Hpre Hinfo). by eexists.
Qed.

(** When each diagnostic has its file, [getError] succeeds on all of them. *)
Lemma mapM_getError_located (p : Project CompilerOptions) (ds : list Diagnostic) :
  Forall has_file ds -> mapM (getError p) ds = Some (omap (getError p) ds).
Proof.
  induction 1 as [|info ds Hinfo _ IH]; [done|].
  apply (getError_is_Some p) in Hinfo as [err Herr].
  rewrite omap_cons_getError, Herr. cbn [mapM]. rewrite Herr. cbn.
  by rewrite IH.
Qed.

Lemma dts_not_js (filename : string) :
  JsString.substr_last 5 filename = ".d.ts" ->
  JsString.substr_last 3 filename <> ".js".
Proof.
  intros [q ->]%(substr_last_suffix 5); [|done].
  change ".d.ts" with (".d" +:+ ".ts"). rewrite <- app_assoc_str.
  by rewrite substr_last_app.
Qed.

(** C2. In sorted-output mode, when every compiled artifact has its source
    file in the program and the reference relation among the files that
    have a compiled artifact is acyclic, [compile] returns normally, pushes
    every compiled artifact once, and pushes every artifact after all the
    artifacts of the files it references, whatever the order in which the
    artifacts are enumerated. The run is one that reaches the emission:
    every diagnostic it reports has its file. *)
Theorem sorted_emit_dependencies_first (p : Project CompilerOptions) :
  sortOutput p = true ->
  (forall g, g ∈ outputJS (artifacts p) ->
             is_Some (getSourceFile (createProgram p) (oname g))) ->
  (forall a, ~ tc (refs_among (createProgram p) (outputJS (artifacts p))) a a) ->
  Forall has_file (reported p) ->
  (compile p).2 = Normal
  /\ jsPushed (compile p).1 ≡ₚ outputJS (artifacts p)
  /\ forall fa fb,
       fa ∈ outputJS (artifacts p) -> fb ∈ outputJS (artifacts p) ->
       references (createProgram p) (oname fa) (oname fb) ->
       precedes (jsPushed (compile p).1) fb fa.
Proof.
  intros Hsorted Hsrc Hacyclic Hloc.
  assert (Hnormal : (compile p).2 = Normal).
  { rewrite compile_completion by done.
    destruct (emitStage_completion p (createProgram p) (hostOutput p))
      as [Hn|(_ & message & g & _ & Hg & Hnone)]; [done|].
    destruct (Hsrc g Hg) as [sf Hsf]. unfold Project.artifacts in Hsf. congruence. }
  rewrite compile_completion in Hnormal by done.
  destruct (emitStage_pushed p (createProgram p) (hostOutput p)
              (hostOutput_NoDup p) Hnormal) as [Hperm Hord].
  rewrite compile_completion, compile_jsPushed by done. split_and!; [done..|].
  intros fa fb Hfa Hfb Href.
  destruct (Hord Hsorted fa fb Hfa Hfb Href) as [Hp|Htc]; [done|].
  exfalso. apply (Hacyclic (oname fa)). eapply tc_l; [|exact Htc].
  split_and!; [by apply list_elem_of_fmap_2..|done].
Qed.

(** C3. Sorted emission returns within its recursion budget for every
    reference relation, cyclic ones included: a call on a name that is
    already marked, emitted or still in progress, returns at once without
    pushing anything. When every compiled artifact has its source file in
    the program, a run of [compile] that reaches the emission (every
    diagnostic it reports has its file) returns normally and pushes each
    compiled artifact exactly once. *)
Theorem sorted_emit_cycle_tolerant (p : Project CompilerOptions) :
  sortOutput p = true ->
  (compile p).2 <> OutOfFuel
  /\ (forall fuel,
        (S (length (outputJS (artifacts p))) <= fuel)%nat ->
        sortedEmitAll (createProgram p) (sourcemaps (artifacts p))
          (outputJS (artifacts p)) fuel (outputJS (artifacts p))
          {| done := ∅; out := [] |}
        = sortedEmitAll (createProgram p) (sourcemaps (artifacts p))
            (outputJS (artifacts p)) (S (length (outputJS (artifacts p))))
            (outputJS (artifacts p)) {| done := ∅; out := [] |})
  /\ (forall prog maps js fuel f st,
        oname f ∈ done st ->
        sortedEmit prog maps js (S fuel) (oname f) f st = (st, Normal))
  /\ ((forall g, g ∈ outputJS (artifacts p) ->
                 is_Some (getSourceFile (createProgram p) (oname g))) ->
      Forall has_file (reported p) ->
      (compile p).2 = Normal
      /\ NoDup (jsPushed (compile p).1)
      /\ jsPushed (compile p).1 ≡ₚ outputJS (artifacts p)).
Proof.
  intros Hsorted.
  pose proof (emitStage_completion p (createProgram p) (hostOutput p)) as Hcompl.
  split_and!.
  - destruct (located_cases (reported p))
      as [Hloc|(pre & info & post & Hrep & Hpre & Hinfo)].
    + rewrite compile_completion by done.
      destruct Hcompl as [->|(_ & message & g & -> & _)]; done.
    + by rewrite (compile_thrown p pre post info Hrep Hpre Hinfo).
  - apply sortedEmitAll_budget.
  - intros prog maps js fuel f st Hdone. simpl. by rewrite decide_True.
  - intros Hsrc Hloc. rewrite compile_completion, compile_jsPushed by done.
    assert (Hnormal : (emitStage p (createProgram p) (hostOutput p)).2 = Normal).
    { destruct Hcompl as [Hn|(_ & message & g & _ & Hg & Hnone)]; [done|].
      destruct (Hsrc g Hg) as [sf Hsf]. unfold Project.artifacts in Hsf. congruence. }
    destruct (emitStage_pushed p (createProgram p) (hostOutput p)
                (hostOutput_NoDup p) Hnormal) as [Hperm _].
    split_and!; [done| |done].
    rewrite Hperm. eapply NoDup_fmap_1.
    apply (outputJS_oname_NoDup _ _ (hostOutput_NoDup p)).
Qed.

(** C4. No run of [compile] ever hands a source map to [sourcemapApply]:
    the maps are stored under the names of the map files and looked up
    under original names, so the lookup made when a compiled file is
    written finds nothing, also for a file whose map the compiler
    produced. *)
Theorem sourcemap_never_applied (p : Project CompilerOptions) :
  mapsApplied (compile p).1 = []
  /\ Forall (fun f => sourcemaps (artifacts p) !! oname f = None)
            (outputJS (artifacts p)).
Proof.
  split; [apply compile_pushed|].
  apply Forall_forall. intros f Hf. by apply sourcemaps_lookup_original.
Qed.

(** C5. A compiled artifact made of a body, a line break, a last line
    without line break (the source-map comment) and a final line break is
    stripped of exactly that last line: what remains is the body and its
    line break, byte for byte. When the comment is the only line, the line
    break alone remains. Every compiled file pushed by [compile] carries the
    stripped content of its artifact. *)
Theorem source_map_comment_stripped (body line : string) :
  JsString.has_char JsString.LF line = false ->
  removeSourceMapComment (body +:+ JsString.nl +:+ line +:+ JsString.nl)
  = body +:+ JsString.nl
  /\ removeSourceMapComment (line +:+ JsString.nl) = JsString.nl
  /\ (forall filename original,
        contents (jsFile filename
                    (body +:+ JsString.nl +:+ line +:+ JsString.nl) original)
        = body +:+ JsString.nl)
  /\ (forall (p : Project CompilerOptions) f,
        f ∈ jsPushed (compile p).1 ->
        exists data, (path f, data) ∈ hostOutput p
                     /\ contents f = removeSourceMapComment data).
Proof.
  intros Hline. split_and!.
  - by apply removeSourceMapComment_last_line.
  - by apply removeSourceMapComment_only_line.
  - intros filename original. rewrite contents_jsFile.
    by apply removeSourceMapComment_last_line.
  - intros p f Hf. apply compile_pushed in Hf.
    apply collect_outputJS_elem in Hf as (filename & data & original & Hin & _ & _ & ->).
    exists data. by rewrite path_jsFile, contents_jsFile.
Qed.

(** C7. An emitted artifact whose original name is not an input file leaves
    the emission stage as it is without it: same events, same completion.
    In a run of [compile] no file pushed to either stream has its path. *)
Theorem orphan_artifact_dropped (p : Project CompilerOptions)
    (filename data : string) :
  Obj.get (getOriginalName filename) (currentFiles p) = None ->
  (forall prog o1 o2,
      emitStage p prog (o1 ++ (filename, data) :: o2) = emitStage p prog (o1 ++ o2))
  /\ (forall f, f ∈ jsPushed (compile p).1 -> path f <> filename)
  /\ (forall f, f ∈ declPushed (compile p).1 -> path f <> filename).
Proof.
  intros Horphan. split_and!.
  - intros prog o1 o2. unfold emitStage. by rewrite collect_orphan.
  - intros f Hf. apply compile_pushed in Hf.
    apply collect_outputJS_elem in Hf as (k & v & original & _ & Horig & _ & ->).
    rewrite path_jsFile. intros ->. congruence.
  - intros f Hf. apply compile_pushed in Hf. revert Hf.
    intros (k & v & original & _ & Horig & _ & _ & ->)%collect_declStream_elem.
    simpl. intros ->. congruence.
Qed.

(** C9. When the program reports a syntactic diagnostic, [compile] makes no
    call to the type checker or to the emitter and pushes no file: its
    trace is the creation of the program followed by callbacks for
    syntactic diagnostics only, one for each of them, in order, when each
    has its file. When the program reports none, the checker and the
    emitter are called and the output of the host is what the emitter
    wrote; the semantic and emit diagnostics are then reported, all of them
    when each has its file. *)
Theorem syntax_errors_suppress_emit (p : Project CompilerOptions) :
  (getDiagnostics (createProgram p) <> [] ->
   hostOutput p = []
   /\ (exists errs,
         (compile p).1
         = CreateProgram (getCurrentFilenames p) :: map ErrorCallback errs
         /\ errs `prefix_of` omap (getError p) (getDiagnostics (createProgram p)))
   /\ (Forall has_file (getDiagnostics (createProgram p)) ->
       compile p
       = (CreateProgram (getCurrentFilenames p)
            :: map ErrorCallback
                 (omap (getError p) (getDiagnostics (createProgram p))),
          Normal)))
  /\ (getDiagnostics (createProgram p) = [] ->
      hostOutput p = host_output (emitFiles_writes (createProgram p))
      /\ (exists rest,
            (compile p).1
            = CreateProgram (getCurrentFilenames p) :: GetTypeChecker :: EmitFiles
                :: rest)
      /\ (Forall has_file (checker_getDiagnostics (createProgram p)
                           ++ emitFiles_errors (createProgram p)) ->
          exists rest,
            (compile p).1
            = CreateProgram (getCurrentFilenames p) :: GetTypeChecker :: EmitFiles
                :: map ErrorCallback
                     (omap (getError p)
                        (checker_getDiagnostics (createProgram p)
                         ++ emitFiles_errors (createProgram p)))
                ++ rest)).
Proof.
  split; intros Hdiag.
  - assert (Hrep : reported p = getDiagnostics (createProgram p)).
    { unfold Project.reported, diagnose.
      by rewrite decide_False by (by destruct (getDiagnostics (createProgram p))). }
    assert (Hcalls : (diagnose (createProgram p)).1.1 = []).
    { unfold diagnose.
      by rewrite decide_False by (by destruct (getDiagnostics (createProgram p))). }
    assert (Hout : hostOutput p = []).
    { unfold Project.hostOutput, diagnose.
      by rewrite decide_False by (by destruct (getDiagnostics (createProgram p))). }
    assert (Hstage : emitStage p (createProgram p) (hostOutput p) = ([], Normal)).
    { rewrite Hout. unfold emitStage. by destruct (sortOutput p). }
    assert (Hlocated : Forall has_file (getDiagnostics (createProgram p)) ->
              compile p
              = (CreateProgram (getCurrentFilenames p)
                   :: map ErrorCallback
                        (omap (getError p) (getDiagnostics (createProgram p))),
                 Normal)).
    { intros Hloc. rewrite compile_located by (by rewrite Hrep).
      rewrite Hcalls, Hstage, Hrep. simpl. by rewrite app_nil_r. }
    split_and!; [done| |done].
    destruct (located_cases (getDiagnostics (createProgram p)))
      as [Hloc|(pre & info & post & Hsplit & Hpre & Hinfo)].
    + eexists. rewrite (Hlocated Hloc). by split.
    + exists (omap (getError p) pre). split.
      * rewrite (compile_thrown p pre post info) by (by rewrite ?Hrep).
        by rewrite Hcalls.
      * rewrite Hsplit, omap_app. by eexists.
  - assert (Hrep : reported p = checker_getDiagnostics (createProgram p)
                                ++ emitFiles_errors (createProgram p)).
    { unfold Project.reported, diagnose. by rewrite decide_True by (by rewrite Hdiag). }
    assert (Hcalls : (diagnose (createProgram p)).1.1 = [GetTypeChecker; EmitFiles]).
    { unfold diagnose. by rewrite decide_True by (by rewrite Hdiag). }
    split_and!.
    + unfold Project.hostOutput, diagnose. by rewrite decide_True by (by rewrite Hdiag).
    + rewrite compile_unfold, Hcalls.
      destruct (reportErrors p (reported p)).2; by eexists.
    + intros Hloc. rewrite compile_located by (by rewrite Hrep).
      rewrite Hcalls, Hrep. simpl. by eexists.
Qed.

(** C10. The declaration files pushed by [compile] are the artifacts
    ending in [.d.ts] whose original name is an input file, each with the
    content left by [removeSourceMapComment]; so a declaration made of a
    body, a line break, a last line and a final line break is pushed
    without its last line. The run is one that reaches the emission: every
    diagnostic it reports has its file. *)
Theorem declarations_lose_last_line (p : Project CompilerOptions) :
  Forall has_file (reported p) ->
  (forall f,
      f ∈ declPushed (compile p).1 <->
      exists filename data original,
        (filename, data) ∈ hostOutput p
        /\ Obj.get (getOriginalName filename) (currentFiles p) = Some original
        /\ JsString.substr_last 5 filename = ".d.ts"
        /\ f = {| path := filename;
                  contents := removeSourceMapComment data;
                  cwd := cwd (file original);
                  base := base (file original);
                  sourceMap := None |})
  /\ (forall filename body line original,
        (filename, body +:+ JsString.nl +:+ line +:+ JsString.nl) ∈ hostOutput p ->
        Obj.get (getOriginalName filename) (currentFiles p) = Some original ->
        JsString.substr_last 5 filename = ".d.ts" ->
        JsString.has_char JsString.LF line = false ->
        exists f, f ∈ declPushed (compile p).1
                  /\ path f = filename
                  /\ contents f = body +:+ JsString.nl).
Proof.
  intros Hloc.
  assert (Hchar : forall f,
      f ∈ declPushed (compile p).1 <->
      exists filename data original,
        (filename, data) ∈ hostOutput p
        /\ Obj.get (getOriginalName filename) (currentFiles p) = Some original
        /\ JsString.substr_last 5 filename = ".d.ts"
        /\ f = outputFile filename data original).
  { intros f. rewrite (proj1 (compile_filters p Hloc)).
    unfold Project.artifacts. rewrite collect_declStream_elem. split.
    - intros (k & v & original & ? & ? & ? & ? & ?). by exists k, v, original.
    - intros (k & v & original & ? & ? & Hd & ?). exists k, v, original.
      split_and!; try done. by apply dts_not_js. }
  split; [exact Hchar|].
  intros filename body line original Hin Horig Hdts Hline.
  exists (outputFile filename (body +:+ JsString.nl +:+ line +:+ JsString.nl) original).
  split_and!; [|done|].
  - apply Hchar. by eexists _, _, _.
  - simpl. by apply removeSourceMapComment_last_line.
Qed.

End CompileFacts.

(** ** The cache left by a recompilation and its replay *)

Section CacheFacts.

Import ProjectCompiler ProjectCompilerTrace.

Lemma same_kind_eq (a b : OutputFileKind) : same_kind a b = true <-> a = b.
Proof. destruct a, b; split; by intros. Qed.

Lemma substring_stem (p t : string) (n : Z) :
  Z.of_nat (String.length t) = n ->
  JsString.substring (p +:+ t) 0 (JsString.len (p +:+ t) - n) = p.
Proof.
  intros <-. unfold JsString.substring, JsString.clamp, JsString.len.
  rewrite length_app_str.
  replace (Z.min (Z.max 0 0) (Z.of_nat (String.length p + String.length t)))
    with 0 by lia.
  replace (Z.min (Z.max (Z.of_nat (String.length p + String.length t)
                         - Z.of_nat (String.length t)) 0)
             (Z.of_nat (String.length p + String.length t)))
    with (Z.of_nat (String.length p)) by lia.
  rewrite Z.min_l, Z.max_r by lia. rewrite Z.sub_0_r, Nat2Z.id. simpl.
  apply substring_app_l.
Qed.

Lemma artifactOf_name (name stem : string) (kind : OutputFileKind) :
  artifactOf name = Some (stem, kind) -> name = stem +:+ extension kind.
Proof.
  unfold artifactOf. cbv zeta.
  destruct (decide (JsString.substr_last 5 name = ".d.ts")) as [Hd|_].
  { intros [= <- <-]. apply (substr_last_suffix 5) in Hd as [q ->]; [|done].
    by rewrite (substring_stem q ".d.ts") by done. }
  destruct (decide (JsString.substr_last 7 name = ".js.map")) as [Hm|_].
  { intros [= <- <-]. apply (substr_last_suffix 7) in Hm as [q ->]; [|done].
    by rewrite (substring_stem q ".js.map") by done. }
  destruct (decide (JsString.substr_last 3 name = ".js")) as [Hj|_]; [|done].
  intros [= <- <-]. apply (substr_last_suffix 3) in Hj as [q ->]; [|done].
  by rewrite (substring_stem q ".js") by done.
Qed.

Lemma artifactOf_extension (stem : string) (kind : OutputFileKind) :
  artifactOf (stem +:+ extension kind) = Some (stem, kind).
Proof.
  unfold artifactOf. cbv zeta. destruct kind; cbn [extension].
  - rewrite decide_False.
    2:{ intros H. apply dts_not_js in H. apply H. by apply substr_last_app. }
    rewrite decide_False.
    2:{ intros H. apply (substr_last_suffix 7) in H as [q Hq]; [|done].
        change ".js" with (".j" +:+ "s") in Hq.
        change ".js.map" with (".js.ma" +:+ "p") in Hq.
        rewrite <- !app_assoc_str in Hq.
        by apply app_inj_suffix in Hq as [_ ?]. }
    rewrite decide_True by (by apply substr_last_app).
    by rewrite (substring_stem stem ".js") by done.
  - rewrite decide_False.
    2:{ intros H. apply (substr_last_suffix 5) in H as [q Hq]; [|done].
        change ".d.ts" with (".d.t" +:+ "s") in Hq.
        change ".js.map" with (".js.ma" +:+ "p") in Hq.
        rewrite <- !app_assoc_str in Hq.
        by apply app_inj_suffix in Hq as [_ ?]. }
    rewrite decide_True by (by apply substr_last_app).
    by rewrite (substring_stem stem ".js.map") by done.
  - rewrite decide_True by (by apply substr_last_app).
    by rewrite (substring_stem stem ".d.ts") by done.
Qed.


(** What the cache holds after the writes of a host output with pairwise
    different names, each the name of an artifact. *)
Lemma cache_entries (o : Obj.t string) :
  NoDup (Obj.keys o) ->
  Forall (fun k => is_Some (artifactOf k)) (Obj.keys o) ->
  NoDup (Obj.keys (fold_left cacheWrite o []))
  /\ (forall key f,
        Obj.get key (fold_left cacheWrite o []) = Some f ->
        key = fileName f +:+ ".ts"
        /\ (forall kind data,
              content f kind = Some data
              <-> (fileName f +:+ extension kind, data) ∈ o)
        /\ exists kind data, content f kind = Some data)
  /\ (forall name data,
        (name, data) ∈ o ->
        exists stem kind,
          artifactOf name = Some (stem, kind)
          /\ (stem +:+ ".ts") ∈ Obj.keys (fold_left cacheWrite o [])).
Proof.
  induction o as [|[name data] o IH] using rev_ind; intros Hnd Hall.
  - split_and!; [constructor|done|]. intros ? ? H. by inv H.
  - unfold Obj.keys in Hnd, Hall. rewrite map_app in Hnd, Hall.
    apply NoDup_app in Hnd as (Hnd & Hfresh & _).
    apply Forall_app in Hall as [Hall Hname].
    apply Forall_cons in Hname as [[[stem kind] Hart] _]. simpl in Hart.
    assert (Hnew : name ∉ Obj.keys o).
    { intros Hin. apply (Hfresh _ Hin). by left. }
    destruct (IH Hnd Hall) as (IHnd & IHget & IHin). clear IH.
    rewrite fold_left_app. cbn [fold_left].
    set (F := fold_left cacheWrite o []) in *.
    unfold cacheWrite at 1 2 3. cbn [fst snd]. rewrite Hart.
    pose proof (artifactOf_name _ _ _ Hart) as Hsplit.
    assert (Hother : forall st k, st +:+ extension k = name -> st = stem /\ k = kind).
    { intros st k Heq. pose proof (artifactOf_extension st k) as Hk.
      rewrite Heq, Hart in Hk. by injection Hk as -> ->. }
    split_and!.
    + rewrite keys_set. case_decide; [done|].
      apply NoDup_app. split_and!; [done| |apply NoDup_singleton].
      intros x Hx ->%list_elem_of_singleton. done.
    + intros key f. destruct (decide (key = stem +:+ ".ts")) as [->|Hkey].
      * rewrite get_set_eq. intros [= <-]. cbn [fileName content].
        split_and!; [done| |].
        -- intros k d. rewrite elem_of_app, list_elem_of_singleton.
           destruct (same_kind k kind) eqn:Hk.
           ++ apply same_kind_eq in Hk as ->. rewrite <- Hsplit. split.
              ** intros [= ->]. by right.
              ** intros [Hin|[= ->]]; [|done]. exfalso. apply Hnew.
                 by apply (list_elem_of_fmap_2 fst _ (name, d)).
           ++ assert (Hne : stem +:+ extension k <> name).
              { intros Heq. apply Hother in Heq as [_ ->].
                by rewrite (proj2 (same_kind_eq kind kind)) in Hk. }
              destruct (Obj.get (stem +:+ ".ts") F) as [f0|] eqn:Hget0.
              ** destruct (IHget _ _ Hget0) as (Hkey0 & Hcont & _).
                 apply app_inj_suffix in Hkey0 as [Hst _]; [|done].
                 rewrite (Hcont k d), <- Hst. split; [by left|].
                 intros [?|[= ? ?]]; [done|]. by destruct Hne.
              ** split; [done|]. intros [Hin|[= ? ?]]; [|by destruct Hne].
                 destruct (IHin _ _ Hin) as (st' & k' & Hart' & Hkeys).
                 rewrite artifactOf_extension in Hart'. injection Hart' as <- <-.
                 apply get_is_Some in Hkeys as [? Hsome]. congruence.
        -- exists kind, data. by rewrite (proj2 (same_kind_eq kind kind)).
      * rewrite get_set_ne by done. intros Hget.
        destruct (IHget _ _ Hget) as (Hk & Hcont & Hex).
        split_and!; [done| |done].
        intros k d. rewrite (Hcont k d), elem_of_app, list_elem_of_singleton.
        split; [by left|]. intros [?|[= Heq _]]; [done|].
        apply Hother in Heq as [Hst _]. destruct Hkey. by rewrite Hk, Hst.
    + intros n d [Hin|[= -> ->]%list_elem_of_singleton]%elem_of_app.
      * destruct (IHin _ _ Hin) as (st' & k' & Hart' & Hkeys).
        exists st', k'. split; [done|]. rewrite keys_set.
        case_decide; [done|]. apply elem_of_app. by left.
      * exists stem, kind. split; [done|]. rewrite keys_set.
        case_decide; [done|]. apply elem_of_app. right. by left.
Qed.


Section Replay.

Context {Error Diagnostic : Type}.

Abbreviation event := (@ProjectCompiler.event Error Diagnostic).

Lemma extension_inj (s1 s2 : string) (k1 k2 : OutputFileKind) :
  s1 +:+ extension k1 = s2 +:+ extension k2 -> s1 = s2 /\ k1 = k2.
Proof.
  intros Heq. pose proof (artifactOf_extension s1 k1) as H1.
  rewrite Heq, artifactOf_extension in H1. by injection H1 as -> ->.
Qed.

Lemma replayFile_elem (f : OutputFile) (e : event) :
  e ∈ replayFile f ->
  exists kind,
    e = OutputWrite (fileName f +:+ extension kind) (content f kind)
    /\ (kind = Definitions -> is_Some (content f kind)).
Proof.
  unfold replayFile. intros [He|He]%elem_of_app.
  - apply elem_of_cons in He as [->|He]; [by exists JavaScript|].
    apply list_elem_of_singleton in He as ->. by exists SourceMap.
  - destruct (content f Definitions) as [d|] eqn:Hd; [|by inv He].
    apply list_elem_of_singleton in He as ->. exists Definitions.
    rewrite Hd. by split.
Qed.

Lemma filter_none {A} (P : A -> bool) (l : list A) :
  (forall a, a ∈ l -> P a = false) -> List.filter P l = [].
Proof.
  induction l as [|a l IH]; intros Hl; [done|]. simpl.
  rewrite (Hl a) by (by left). apply IH. intros b Hb. apply Hl. by right.
Qed.

Lemma filter_all {A} (P : A -> bool) (l : list A) :
  (forall a, a ∈ l -> P a = true) -> List.filter P l = l.
Proof.
  induction l as [|a l IH]; intros Hl; [done|]. simpl.
  rewrite (Hl a) by (by left). f_equal. apply IH. intros b Hb. apply Hl. by right.
Qed.

Lemma replayFile_defined (f : OutputFile) (kind : OutputFileKind) (data : string) :
  content f kind = Some data ->
  OutputWrite (fileName f +:+ extension kind) (Some data)
  ∈ replayFile (Error := Error) (Diagnostic := Diagnostic) f.
Proof.
  intros Hc. unfold replayFile. destruct kind; cbn [extension].
  - rewrite <- Hc. apply elem_of_app. left. by left.
  - rewrite <- Hc. apply elem_of_app. left. right. by left.
  - rewrite Hc. apply elem_of_app. right. by left.
Qed.

Lemma replayFile_NoDup (f : OutputFile) :
  NoDup (replayFile (Error := Error) (Diagnostic := Diagnostic) f).
Proof.
  assert (Hne : forall k1 k2 c1 c2, k1 <> k2 ->
            @OutputWrite Error Diagnostic (fileName f +:+ extension k1) c1
            <> OutputWrite (fileName f +:+ extension k2) c2).
  { intros k1 k2 c1 c2 Hk [= Heq _]. by apply extension_inj in Heq as [_ ?]. }
  unfold replayFile. destruct (content f Definitions) as [d|]; cbn [app].
  - repeat (apply NoDup_cons; split); [| |by inv 1|apply NoDup_nil_2].
    + intros [H|[H|H]%elem_of_cons]%elem_of_cons; [| |by inv H].
      * by apply (Hne JavaScript SourceMap) in H.
      * by apply (Hne JavaScript Definitions) in H.
    + intros [H|H]%elem_of_cons; [|by inv H].
      by apply (Hne SourceMap Definitions) in H.
  - repeat (apply NoDup_cons; split); [|by inv 1|apply NoDup_nil_2].
    intros [H|H]%elem_of_cons; [|by inv H].
    by apply (Hne JavaScript SourceMap) in H.
Qed.

Lemma flat_map_bind {A B} (g : A -> list B) (l : list A) :
  flat_map g l = l ≫= g.
Proof. induction l as [|a l IH]; [done|]. simpl. by rewrite IH. Qed.

Lemma elem_of_flat_map {A B} (g : A -> list B) (l : list A) (y : B) :
  y ∈ flat_map g l <-> exists x, y ∈ g x /\ x ∈ l.
Proof. rewrite flat_map_bind. apply list_elem_of_bind. Qed.

(** The replay of the cache of a host output writes what the output
    held. *)
Lemma replay_of_cache (errs : list Error) (o : Obj.t string) :
  NoDup (Obj.keys o) ->
  Forall (fun k => is_Some (artifactOf k)) (Obj.keys o) ->
  let old := {| errors := errs; files := fold_left cacheWrite o [] |} in
  List.filter is_error (replay (Diagnostic := Diagnostic) old) = map OutputError errs
  /\ (forall name data,
        OutputWrite name (Some data) ∈ replay (Diagnostic := Diagnostic) old
        <-> (name, data) ∈ o)
  /\ NoDup (List.filter is_write (replay (Diagnostic := Diagnostic) old))
  /\ ((forall stem kind,
         (stem +:+ extension kind) ∈ Obj.keys o ->
         (stem +:+ ".js") ∈ Obj.keys o /\ (stem +:+ ".js.map") ∈ Obj.keys o) ->
      forall name, OutputWrite name None ∉ replay (Diagnostic := Diagnostic) old).
Proof.
  intros Hnd Hall old.
  destruct (cache_entries o Hnd Hall) as (HFnd & HFget & HFin).
  set (F := fold_left cacheWrite o []) in *.
  set (g := fun k => match Obj.get k F with
                     | Some f => replayFile (Error := Error) (Diagnostic := Diagnostic) f
                     | None => []
                     end).
  assert (Hreplay : replay (Diagnostic := Diagnostic) old
                    = map OutputError errs ++ flat_map g (Obj.keys F)) by done.
  assert (Hg : forall e, e ∈ flat_map g (Obj.keys F) <->
              exists key f, Obj.get key F = Some f /\ e ∈ replayFile f).
  { intros e. rewrite elem_of_flat_map. split.
    - intros (k & He & Hk). unfold g in He.
      destruct (Obj.get k F) as [f|] eqn:Hget; [|by inv He]. by exists k, f.
    - intros (k & f & Hget & He). exists k. unfold g. rewrite Hget.
      split; [done|]. apply get_is_Some. by eexists. }
  assert (Hwrites : forall e, e ∈ flat_map g (Obj.keys F) -> is_write e = true).
  { intros e (k & f & _ & (kind & -> & _)%replayFile_elem)%Hg. done. }
  assert (Hsplit : forall (P : event -> bool),
            (forall e, P (OutputError e) = false) ->
            List.filter P (replay (Diagnostic := Diagnostic) old)
            = List.filter P (flat_map g (Obj.keys F))).
  { intros P HP. rewrite Hreplay, List.filter_app.
    replace (List.filter P (map OutputError errs)) with (@nil event); [done|].
    clear -HP. induction errs as [|e l IH]; [done|]. simpl. by rewrite HP. }
  split_and!.
  - rewrite Hreplay, List.filter_app.
    rewrite (filter_none is_error (flat_map g (Obj.keys F))).
    + rewrite app_nil_r. clear. induction errs as [|e l IH]; [done|].
      simpl. by rewrite IH.
    + intros e He. apply Hwrites in He. by destruct e.
  - intros name data. rewrite Hreplay, elem_of_app. split.
    + intros [Herr|Hw].
      { apply list_elem_of_fmap in Herr as (? & ? & _). done. }
      apply Hg in Hw as (key & f & Hget & He).
      apply replayFile_elem in He as (kind & [= -> Hc] & _).
      by apply (HFget _ _ Hget).
    + intros Hin. right. apply Hg.
      destruct (HFin _ _ Hin) as (stem & kind & Hart & Hkey).
      apply get_is_Some in Hkey as [f Hget].
      destruct (HFget _ _ Hget) as (Hk & Hcont & _).
      apply app_inj_suffix in Hk as [Hst _]; [|done].
      exists (stem +:+ ".ts"), f. split; [done|].
      rewrite (artifactOf_name _ _ _ Hart), Hst.
      apply replayFile_defined. apply Hcont.
      by rewrite <- Hst, <- (artifactOf_name _ _ _ Hart).
  - rewrite Hsplit by done.
    rewrite (filter_all is_write (flat_map g (Obj.keys F))) by exact Hwrites.
    rewrite flat_map_bind. apply NoDup_bind; [| |done].
    + intros k1 k2 e Hk1 Hk2 H1 H2. unfold g in H1, H2.
      destruct (Obj.get k1 F) as [f1|] eqn:Hget1; [|by inv H1].
      destruct (Obj.get k2 F) as [f2|] eqn:Hget2; [|by inv H2].
      apply replayFile_elem in H1 as (kind1 & -> & _).
      apply replayFile_elem in H2 as (kind2 & [= Heq _] & _).
      apply extension_inj in Heq as [Hst _].
      rewrite (proj1 (HFget _ _ Hget1)), (proj1 (HFget _ _ Hget2)).
      by rewrite Hst.
    + intros k _. unfold g. destruct (Obj.get k F); [apply replayFile_NoDup|].
      apply NoDup_nil_2.
  - intros Hboth name. rewrite Hreplay, elem_of_app.
    intros [Herr|Hw].
    { apply list_elem_of_fmap in Herr as (? & ? & _). done. }
    apply Hg in Hw as (key & f & Hget & He).
    apply replayFile_elem in He as (kind & [= -> Hc] & Hdef).
    destruct (HFget _ _ Hget) as (_ & Hcont & k0 & d0 & Hsome).
    apply Hcont in Hsome.
    destruct (Hboth (fileName f) k0
                (list_elem_of_fmap_2 fst _ (_, d0) Hsome)) as [Hjs Hmap].
    apply list_elem_of_fmap in Hjs as ([n1 d1] & Hn1 & Hin1).
    apply list_elem_of_fmap in Hmap as ([n2 d2] & Hn2 & Hin2).
    simpl in Hn1, Hn2. subst n1 n2.
    apply (Hcont JavaScript d1) in Hin1. apply (Hcont SourceMap d2) in Hin2.
    destruct kind; [congruence|congruence|].
    destruct (Hdef eq_refl) as [d Hd]. congruence.
Qed.

End Replay.

End CacheFacts.

(** ** Runs of [ProjectCompiler.inputDone] *)

Section InputDoneFacts.

Import ProjectCompiler ProjectCompilerTrace.

Context {Error Diagnostic InputFile Options FilterSettings : Type}.

Abbreviation project := (@Project Error InputFile Options FilterSettings).
Abbreviation events := (list (@event Error Diagnostic)).

Variable filter_match : project -> FilterSettings -> string -> bool.
Variable ts_run : project -> list string -> list Diagnostic * Obj.t string.

Abbreviation inputDone := (ProjectCompiler.inputDone filter_match ts_run).
Abbreviation rootFilenames := (ProjectCompiler.rootFilenames filter_match).

Lemma replayFile_events (f : OutputFile) :
  Forall (fun e : @event Error Diagnostic =>
            is_compiler_event e = false /\ e <> OutputFinish)
         (replayFile f).
Proof.
  unfold replayFile. destruct (content f Definitions); repeat constructor; done.
Qed.

(** A replay only reports cached errors and writes cached files. *)
Lemma replay_events (old : @Output Error) :
  Forall (fun e : @event Error Diagnostic =>
            is_compiler_event e = false /\ e <> OutputFinish)
         (replay old).
Proof.
  unfold replay. apply Forall_app. split.
  - induction (errors old); constructor; done.
  - induction (Obj.keys (files old)) as [|k l IH]; [constructor|]. simpl.
    apply Forall_app. split; [|done].
    destruct (Obj.get k (files old)); [apply replayFile_events|constructor].
Qed.

(** The writes of a recompilation are the entries of the host output. *)
Lemma recompile_writes (p : project) (first : InputFile) :
  firstSourceFile (input p) = Some first ->
  isChanged (input p) true = true ->
  NoDup (Obj.keys (ts_run p (rootFilenames p)).2) ->
  List.filter is_write (inputDone p)
  = map (fun e => OutputWrite e.1 (Some e.2)) (ts_run p (rootFilenames p)).2
  /\ (forall fileName data,
        OutputWrite fileName (Some data) ∈ inputDone p
        <-> (fileName, data) ∈ (ts_run p (rootFilenames p)).2).
Proof.
  intros Hfirst Hchanged Hnd.
  assert (Hrun : inputDone p
                 = [NewHost (currentDirectory p) (negb (noExternalResolve p));
                    CreateProgram (rootFilenames p); GetDiagnosticsAndEmit]
                   ++ map OutputDiagnostic (ts_run p (rootFilenames p)).1
                   ++ map (fun e => OutputWrite e.1 (Some e.2))
                          (ts_run p (rootFilenames p)).2
                   ++ [OutputFinish]).
  { unfold ProjectCompiler.inputDone. rewrite Hfirst, Hchanged. simpl.
    fold (rootFilenames p). destruct (ts_run p (rootFilenames p)) as [ds o].
    simpl in *. do 4 f_equal. unfold Obj.keys. rewrite map_map.
    f_equal. apply map_ext_in. intros [k v] Hin. simpl. f_equal.
    by apply get_entry, list_elem_of_In. }
  rewrite Hrun. split.
  - rewrite !List.filter_app.
    rewrite (filter_none is_write (map OutputDiagnostic _)).
    2:{ by intros e (? & -> & _)%list_elem_of_fmap. }
    rewrite (filter_all is_write (map _ (ts_run p (rootFilenames p)).2)).
    2:{ by intros e (? & -> & _)%list_elem_of_fmap. }
    by rewrite app_nil_r.
  - intros fileName data. rewrite !elem_of_app. split.
    + intros [H|[H|[H|H]]].
      * repeat (apply elem_of_cons in H as [H|H]; [done|]). by inv H.
      * by apply list_elem_of_fmap in H as (? & ? & _).
      * by apply list_elem_of_fmap in H as ([k v] & [= -> ->] & ?).
      * by apply list_elem_of_singleton in H.
    + intros Hin. right. right. left.
      by apply (list_elem_of_fmap_2 (fun e => OutputWrite e.1 (Some e.2)) _ (_, _)).
Qed.

(** C1. A build of a non-empty input that the change detector reports
    unchanged replays the previous output: one [error] call per cached
    diagnostic, in order, then for every cached file the writes of its
    JavaScript and source-map contents and of its declaration when there is
    one, each with the cached content; nothing reaches the compiler or the
    host. When the previous output is the cache left by a recompilation
    whose host output holds artifacts under pairwise different names, the
    replay reports the diagnostics of that build again, in order, and
    writes a file with a content exactly when that build wrote it with that
    content; when moreover every compiled file came with its source map,
    the writes of the two builds are the same up to their order. *)
Theorem unchanged_input_replays_previous_output (p : project) (first : InputFile) :
  firstSourceFile (input p) = Some first ->
  isChanged (input p) true = false ->
  inputDone p
  = map OutputError (errors (previousOutput p))
    ++ flat_map
         (fun k =>
            match Obj.get k (files (previousOutput p)) with
            | Some f =>
                [OutputWrite (fileName f +:+ ".js") (content f JavaScript);
                 OutputWrite (fileName f +:+ ".js.map") (content f SourceMap)]
                ++ match content f Definitions with
                   | Some d => [OutputWrite (fileName f +:+ ".d.ts") (Some d)]
                   | None => []
                   end
            | None => []
            end)
         (Obj.keys (files (previousOutput p)))
  /\ Forall (fun e => is_compiler_event e = false) (inputDone p)
  /\ (forall (toError : Diagnostic -> Error) (p0 : project) (first0 : InputFile),
        firstSourceFile (input p0) = Some first0 ->
        isChanged (input p0) true = true ->
        NoDup (Obj.keys (ts_run p0 (rootFilenames p0)).2) ->
        Forall (fun k => is_Some (artifactOf k))
               (Obj.keys (ts_run p0 (rootFilenames p0)).2) ->
        previousOutput p
        = cachedBuildResult toError (ts_run p0 (rootFilenames p0)).1
            (ts_run p0 (rootFilenames p0)).2 ->
        List.filter is_error (inputDone p)
        = map (fun d => OutputError (toError d)) (ts_run p0 (rootFilenames p0)).1
        /\ (forall fileName data,
              OutputWrite fileName (Some data) ∈ inputDone p
              <-> OutputWrite fileName (Some data) ∈ inputDone p0)
        /\ ((forall stem kind,
               (stem +:+ extension kind) ∈ Obj.keys (ts_run p0 (rootFilenames p0)).2 ->
               (stem +:+ ".js") ∈ Obj.keys (ts_run p0 (rootFilenames p0)).2
               /\ (stem +:+ ".js.map") ∈ Obj.keys (ts_run p0 (rootFilenames p0)).2) ->
            List.filter is_write (inputDone p)
            ≡ₚ List.filter is_write (inputDone p0))).
Proof.
  intros Hfirst Hsame.
  assert (Hrun : inputDone p = replay (previousOutput p)).
  { unfold ProjectCompiler.inputDone. by rewrite Hfirst, Hsame. }
  rewrite Hrun. split_and!.
  - done.
  - eapply Forall_impl; [apply replay_events|]. by intros e [? _].
  - intros toError p0 first0 Hfirst0 Hchanged0 Hnd Hall Hold.
    destruct (recompile_writes p0 first0 Hfirst0 Hchanged0 Hnd) as [Hw0 Hin0].
    rewrite Hold. unfold cachedBuildResult.
    destruct (replay_of_cache (Diagnostic := Diagnostic)
                (map toError (ts_run p0 (rootFilenames p0)).1)
                (ts_run p0 (rootFilenames p0)).2 Hnd Hall)
      as (Herrs & Hin & Hnodup & Hnone).
    split_and!.
    + rewrite Herrs. by rewrite map_map.
    + intros fileName data. by rewrite Hin, Hin0.
    + intros Hboth. apply NoDup_Permutation; [done| |].
      * rewrite Hw0. apply NoDup_fmap_2_strong.
        -- intros [k1 v1] [k2 v2] _ _ [= -> ->]. done.
        -- eapply NoDup_fmap_1. exact Hnd.
      * intros e. rewrite !list_elem_of_In, !filter_In, <- !list_elem_of_In.
        destruct e as [| | |name [data|]| | |]; try (split; by intros [_ ?]).
        -- by rewrite Hin, Hin0.
        -- split; intros [He _].
           ++ by apply (Hnone Hboth) in He.
           ++ exfalso. revert He. unfold ProjectCompiler.inputDone.
              rewrite Hfirst0, Hchanged0. simpl. fold (rootFilenames p0).
              destruct (ts_run p0 (rootFilenames p0)) as [ds o]. simpl in *.
              rewrite !elem_of_cons, !elem_of_app.
              intros [H|[H|[H|[H|[H|H]]]]]; try done.
              ** by apply list_elem_of_fmap in H as (? & ? & _).
              ** apply list_elem_of_fmap in H as (k & [= -> Hget] & Hk).
                 apply get_is_Some in Hk as [? ?]. congruence.
              ** by apply list_elem_of_singleton in H.
Qed.

(** C6. A build whose input has no source file only finishes the output:
    no diagnostic, no write, no call to the compiler or the host, whatever
    the previous output holds; the calls made are not those of a replay. *)
Theorem empty_input_finishes_immediately (p : project) :
  firstSourceFile (input p) = None ->
  inputDone p = [OutputFinish]
  /\ Forall (fun e => is_output_event e = false /\ is_compiler_event e = false)
            (inputDone p)
  /\ (forall old, inputDone p <> replay old).
Proof.
  intros Hempty.
  assert (Hrun : inputDone p = [OutputFinish]).
  { unfold ProjectCompiler.inputDone. by rewrite Hempty. }
  rewrite Hrun. split_and!; [done|by repeat constructor|].
  intros old Heq. pose proof (replay_events old) as Hev. rewrite <- Heq in Hev.
  apply Forall_cons in Hev as [[_ Hfin] _]. done.
Qed.

End InputDoneFacts.

(** ** Diagnostics in [Project.compile] *)

Section DiagnosticsFacts.

Import Project.

Context {CompilerOptions : Type}.
Variable path_relative : string -> string -> string.
Variable colors_red : string -> string.
Variable ts_createProgram : list string -> CompilerOptions -> Host -> Program.

Abbreviation compile := (Project.compile path_relative colors_red ts_createProgram).
Abbreviation getError := (Project.getError path_relative colors_red).
Abbreviation createProgram := (Project.createProgram ts_createProgram).
Abbreviation reported := (Project.reported ts_createProgram).
Abbreviation hostOutput := (Project.hostOutput ts_createProgram).
Abbreviation artifacts := (Project.artifacts ts_createProgram).

(** C8. [Project.compile] does not treat every diagnostic as data. When
    one of the diagnostics it reports has no file, [getError] fails on
    [info.file.filename] and the exception leaves [compile]: the
    diagnostics before it have been handed to the callback, it and the
    ones after it never are, and no file is pushed to either stream,
    whatever the emitter wrote. *)
Theorem diagnostic_without_file_throws (p : Project CompilerOptions)
    (pre post : list Diagnostic) (info : Diagnostic) :
  reported p = pre ++ info :: post ->
  Forall has_file pre ->
  d_file info = None ->
  compile p
  = (CreateProgram (getCurrentFilenames p)
       :: (diagnose (createProgram p)).1.1
       ++ map ErrorCallback (omap (getError p) pre),
     Threw "TypeError: Cannot read property 'filename' of undefined")
  /\ errorsReported (compile p).1 = omap (getError p) pre
  /\ (length (errorsReported (compile p).1) < length (reported p))%nat
  /\ jsPushed (compile p).1 = []
  /\ declPushed (compile p).1 = [].
Proof.
  intros Hrep Hpre Hinfo.
  destruct (compile_thrown_filters path_relative colors_red ts_createProgram
              p pre post info Hrep Hpre Hinfo) as (Hj & Hd & _ & He).
  split_and!; [by apply (compile_thrown _ _ _ p pre post info)|done| |done|done].
  rewrite He, Hrep, length_app. cbn [length].
  assert (Hle : forall l, (length (omap (getError p) l) <= length l)%nat).
  { induction l as [|d l IH]; [done|]. rewrite omap_cons_getError.
    destruct (getError p d); simpl; lia. }
  specialize (Hle pre). lia.
Qed.

(** X23. When every diagnostic has its file, the diagnostics are data:
    [compile] hands each of them, converted by [getError], to the error
    callback, one call per diagnostic and in order, before any file is
    pushed. It then pushes the declaration and compiled files and returns
    normally, the one exception being a sorted emission that meets an
    artifact without source file in the program. On a normal return every
    artifact of the host output that ends in [.js] and comes from an input
    file has been pushed. *)
Theorem located_diagnostics_do_not_stop_the_build (p : Project CompilerOptions) :
  Forall has_file (reported p) ->
  mapM (getError p) (reported p) = Some (errorsReported (compile p).1)
  /\ (exists tr,
        (compile p).1
        = CreateProgram (getCurrentFilenames p)
            :: (diagnose (createProgram p)).1.1
            ++ map ErrorCallback (errorsReported (compile p).1)
            ++ map DeclPush (declStream (artifacts p)) ++ tr
        /\ Forall (pushes_of (outputJS (artifacts p))) tr)
  /\ ((compile p).2 = Normal
      \/ (sortOutput p = true
          /\ exists message g,
               (compile p).2 = Threw message
               /\ g ∈ outputJS (artifacts p)
               /\ getSourceFile (createProgram p) (oname g) = None))
  /\ ((compile p).2 = Normal ->
      forall filename data original,
        (filename, data) ∈ hostOutput p ->
        Obj.get (getOriginalName filename) (currentFiles p) = Some original ->
        JsString.substr_last 3 filename = ".js" ->
        jsFile filename data original ∈ jsPushed (compile p).1).
Proof.
  intros Hloc.
  pose proof (compile_filters path_relative colors_red ts_createProgram p Hloc)
    as (_ & _ & Herrs & _).
  split_and!.
  - rewrite Herrs. by apply mapM_getError_located.
  - destruct (compile_shape path_relative colors_red ts_createProgram p Hloc)
      as (tr & Htr & Hjs & _). exists tr. by rewrite Herrs.
  - rewrite compile_completion by done. apply emitStage_completion.
  - intros Hnormal filename data original Hin Horig Hjs.
    rewrite compile_completion in Hnormal by done. rewrite compile_jsPushed by done.
    rewrite (proj1 (emitStage_pushed p (createProgram p) _ (hostOutput_NoDup _ p)
                      Hnormal)).
    apply collect_outputJS_elem. by exists filename, data, original.
Qed.

End DiagnosticsFacts.

(** ** The properties on the sample projects *)

Section Witnesses.

Import Project Examples.

Lemma ranked_acyclic {A : Type} (R : relation A) (rk : A -> nat) :
  (forall a b, R a b -> (rk b < rk a)%nat) -> forall a, ~ tc R a a.
Proof.
  intros Hrk.
  assert (Htc : forall a b, tc R a b -> (rk b < rk a)%nat).
  { induction 1 as [a b Hab|a b c Hab _ IH]; [by apply Hrk|].
    specialize (Hrk a b Hab). lia. }
  intros a Ha. specialize (Htc a a Ha). lia.
Qed.

Lemma unchanged_input_replays_previous_output_witness :
  ProjectCompiler.firstSourceFile (ProjectCompiler.input unchangedProject)
  = Some "/w/src/a.ts"
  /\ ProjectCompiler.isChanged (ProjectCompiler.input unchangedProject) true = false
  /\ Examples.inputDone unchangedProject
     = [ProjectCompiler.OutputError "src/a.ts(1,5): 2304 Cannot find name 'q'.";
        ProjectCompiler.OutputWrite "/w/src/a.js" (Some ("var x;" +:+ nl));
        ProjectCompiler.OutputWrite "/w/src/a.js.map" (Some "{mappings}");
        ProjectCompiler.OutputWrite "/w/src/a.d.ts"
          (Some ("declare var a: number;" +:+ nl));
        ProjectCompiler.OutputWrite "/w/src/b.js" (Some ("var x;" +:+ nl));
        ProjectCompiler.OutputWrite "/w/src/b.js.map" (Some "{mappings}")]
  /\ ProjectCompiler.isChanged (ProjectCompiler.input changedProject) true = true
  /\ ProjectCompiler.isChanged (ProjectCompiler.input rebuiltProject) true = false
  /\ ProjectCompiler.previousOutput rebuiltProject
     = ProjectCompiler.cachedBuildResult (fun d => d)
         (tsRun changedProject
            (ProjectCompiler.rootFilenames (fun _ _ _ => true) changedProject)).1
         (tsRun changedProject
            (ProjectCompiler.rootFilenames (fun _ _ _ => true) changedProject)).2
  /\ List.filter ProjectCompilerTrace.is_error (Examples.inputDone rebuiltProject)
     = [ProjectCompiler.OutputError "TS2304"]
  /\ List.filter ProjectCompilerTrace.is_write (Examples.inputDone rebuiltProject)
     ≡ₚ List.filter ProjectCompilerTrace.is_write (Examples.inputDone changedProject).
Proof.
  assert (Hnd : NoDup (Obj.keys
                         (tsRun changedProject
                            (ProjectCompiler.rootFilenames (fun _ _ _ => true)
                               changedProject)).2)).
  { apply NoDup_cons. split.
    - intros Hin. apply list_elem_of_singleton in Hin. discriminate Hin.
    - apply NoDup_singleton. }
  assert (Hall : Forall (fun k => is_Some (ProjectCompiler.artifactOf k))
                   (Obj.keys
                      (tsRun changedProject
                         (ProjectCompiler.rootFilenames (fun _ _ _ => true)
                            changedProject)).2)).
  { repeat (constructor; [by eexists|]). constructor. }
  assert (Hboth : forall stem kind,
             (stem +:+ ProjectCompiler.extension kind)
             ∈ Obj.keys (tsRun changedProject
                           (ProjectCompiler.rootFilenames (fun _ _ _ => true)
                              changedProject)).2 ->
             (stem +:+ ".js")
             ∈ Obj.keys (tsRun changedProject
                           (ProjectCompiler.rootFilenames (fun _ _ _ => true)
                              changedProject)).2
             /\ (stem +:+ ".js.map")
                ∈ Obj.keys (tsRun changedProject
                              (ProjectCompiler.rootFilenames (fun _ _ _ => true)
                                 changedProject)).2).
  { intros stem kind Hin.
    assert (Hstem : stem = "/w/src/a").
    { apply elem_of_cons in Hin as [Heq|Hin].
      - exact (proj1 (extension_inj stem "/w/src/a" kind
                        ProjectCompiler.JavaScript Heq)).
      - apply list_elem_of_singleton in Hin.
        exact (proj1 (extension_inj stem "/w/src/a" kind
                        ProjectCompiler.SourceMap Hin)). }
    rewrite Hstem. split.
    - apply list_elem_of_here.
    - apply list_elem_of_further, list_elem_of_here. }
  destruct (unchanged_input_replays_previous_output
              (fun _ _ _ => true) tsRun rebuiltProject "/w/src/a.ts"
              eq_refl eq_refl) as (_ & _ & Hsecond).
  destruct (Hsecond (fun d => d) changedProject "/w/src/a.ts" eq_refl eq_refl
              Hnd Hall eq_refl) as (Herrs & _ & Hperm).
  split; [reflexivity|]. split; [reflexivity|].
  split.
  { exact (proj1 (unchanged_input_replays_previous_output
                    (fun _ _ _ => true) tsRun unchangedProject "/w/src/a.ts"
                    eq_refl eq_refl)). }
  split; [reflexivity|]. split; [reflexivity|]. split; [reflexivity|].
  split; [exact Herrs|exact (Hperm Hboth)].
Defined.

Example rebuilt_project_replays_the_build :
  Examples.inputDone changedProject
  = [ProjectCompiler.NewHost "/w" true;
     ProjectCompiler.CreateProgram ["/w/src/a.ts"; "/w/src/b.ts"];
     ProjectCompiler.GetDiagnosticsAndEmit;
     ProjectCompiler.OutputDiagnostic "TS2304";
     ProjectCompiler.OutputWrite "/w/src/a.js" (Some ("var a;" +:+ nl));
     ProjectCompiler.OutputWrite "/w/src/a.js.map" (Some "{mappings-a}");
     ProjectCompiler.OutputFinish]
  /\ Examples.inputDone rebuiltProject
     = [ProjectCompiler.OutputError "TS2304";
        ProjectCompiler.OutputWrite "/w/src/a.js" (Some ("var a;" +:+ nl));
        ProjectCompiler.OutputWrite "/w/src/a.js.map" (Some "{mappings-a}")].
Proof. split; reflexivity. Qed.

Lemma empty_input_finishes_immediately_witness :
  ProjectCompiler.firstSourceFile (ProjectCompiler.input emptyInputProject) = None
  /\ Examples.inputDone emptyInputProject = [ProjectCompiler.OutputFinish]
  /\ Examples.inputDone emptyInputProject <> ProjectCompiler.replay previous.
Proof.
  split; [reflexivity|].
  destruct (empty_input_finishes_immediately
              (fun _ _ _ => true) tsRun emptyInputProject eq_refl)
    as (Hrun & _ & Hreplay).
  split; [exact Hrun|exact (Hreplay previous)].
Defined.

Lemma sorted_emit_dependencies_first_witness :
  sortOutput (abcProject true) = true
  /\ (forall g,
        g ∈ outputJS (artifacts (compiler chainProgram) (abcProject true)) ->
        is_Some (getSourceFile
                   (createProgram (compiler chainProgram) (abcProject true))
                   (oname g)))
  /\ (forall a,
        ~ tc (refs_among
                (createProgram (compiler chainProgram) (abcProject true))
                (outputJS (artifacts (compiler chainProgram) (abcProject true))))
             a a)
  /\ Forall has_file (reported (compiler chainProgram) (abcProject true))
  /\ (compile relative (fun s => s) (compiler chainProgram) (abcProject true)).2
     = Normal
  /\ jsPushed
       (compile relative (fun s => s) (compiler chainProgram) (abcProject true)).1
     ≡ₚ outputJS (artifacts (compiler chainProgram) (abcProject true))
  /\ (forall fa fb,
        fa ∈ outputJS (artifacts (compiler chainProgram) (abcProject true)) ->
        fb ∈ outputJS (artifacts (compiler chainProgram) (abcProject true)) ->
        references (createProgram (compiler chainProgram) (abcProject true))
                   (oname fa) (oname fb) ->
        precedes
          (jsPushed
             (compile relative (fun s => s) (compiler chainProgram)
                (abcProject true)).1)
          fb fa).
Proof.
  assert (Hsrc : forall g,
             g ∈ outputJS (artifacts (compiler chainProgram) (abcProject true)) ->
             is_Some (getSourceFile
                        (createProgram (compiler chainProgram) (abcProject true))
                        (oname g))).
  { apply Forall_forall. repeat (constructor; [by eexists|]). constructor. }
  assert (Hacyclic : forall a,
             ~ tc (refs_among
                     (createProgram (compiler chainProgram) (abcProject true))
                     (outputJS (artifacts (compiler chainProgram) (abcProject true))))
                  a a).
  { apply (ranked_acyclic _ rank).
    intros a b (Ha & _ & sf & Hsf & Hb).
    apply list_elem_of_In in Ha. vm_compute in Ha.
    destruct Ha as [<-|[<-|[<-|[]]]]; vm_compute in Hsf; injection Hsf as <-;
      apply list_elem_of_In in Hb; vm_compute in Hb.
    - destruct Hb as [<-|[]]. vm_compute. lia.
    - destruct Hb as [<-|[]]. vm_compute. lia.
    - destruct Hb. }
  assert (Hloc : Forall has_file (reported (compiler chainProgram) (abcProject true))).
  { repeat (constructor; [by eexists|]). constructor. }
  split; [reflexivity|]. split; [exact Hsrc|]. split; [exact Hacyclic|].
  split; [exact Hloc|].
  exact (sorted_emit_dependencies_first relative (fun s => s) (compiler chainProgram)
           (abcProject true) eq_refl Hsrc Hacyclic Hloc).
Defined.

Example chain_emission_order :
  map path (jsPushed (run chainProgram (abcProject true)).1)
  = ["/w/src/c.js"; "/w/src/b.js"; "/w/src/a.js"].
Proof. reflexivity. Qed.

Lemma sorted_emit_cycle_tolerant_witness :
  sortOutput (abcProject true) = true
  /\ (forall g,
        g ∈ outputJS (artifacts (compiler cycleProgram) (abcProject true)) ->
        is_Some (getSourceFile
                   (createProgram (compiler cycleProgram) (abcProject true))
                   (oname g)))
  /\ Forall has_file (reported (compiler cycleProgram) (abcProject true))
  /\ references cycleProgram "/w/src/a.ts" "/w/src/b.ts"
  /\ references cycleProgram "/w/src/b.ts" "/w/src/a.ts"
  /\ (compile relative (fun s => s) (compiler cycleProgram) (abcProject true)).2
     = Normal
  /\ NoDup (jsPushed
              (compile relative (fun s => s) (compiler cycleProgram)
                 (abcProject true)).1)
  /\ jsPushed
       (compile relative (fun s => s) (compiler cycleProgram) (abcProject true)).1
     ≡ₚ outputJS (artifacts (compiler cycleProgram) (abcProject true)).
Proof.
  assert (Hsrc : forall g,
             g ∈ outputJS (artifacts (compiler cycleProgram) (abcProject true)) ->
             is_Some (getSourceFile
                        (createProgram (compiler cycleProgram) (abcProject true))
                        (oname g))).
  { apply Forall_forall. repeat (constructor; [by eexists|]). constructor. }
  assert (Hloc : Forall has_file (reported (compiler cycleProgram) (abcProject true))).
  { constructor. }
  split; [reflexivity|]. split; [exact Hsrc|]. split; [exact Hloc|].
  split; [eexists; split; [reflexivity|by left]|].
  split; [eexists; split; [reflexivity|by left]|].
  exact (proj2 (proj2 (proj2 (sorted_emit_cycle_tolerant relative (fun s => s)
                                (compiler cycleProgram) (abcProject true) eq_refl)))
           Hsrc Hloc).
Defined.

Example cycle_emission_order :
  map path (jsPushed (run cycleProgram (abcProject true)).1)
  = ["/w/src/b.js"; "/w/src/a.js"; "/w/src/c.js"].
Proof. reflexivity. Qed.

Lemma source_map_comment_stripped_witness :
  JsString.has_char JsString.LF "//# sourceMappingURL=a.js.map" = false
  /\ removeSourceMapComment (compiled "var a;" "a.js.map") = "var a;" +:+ nl.
Proof.
  split; [reflexivity|].
  exact (proj1 (source_map_comment_stripped (CompilerOptions := unit)
                  relative (fun s => s) (compiler chainProgram)
                  "var a;" "//# sourceMappingURL=a.js.map" eq_refl)).
Defined.

Lemma orphan_artifact_dropped_witness :
  Obj.get (getOriginalName "/w/lib/ext.js") (currentFiles (abcProject false)) = None
  /\ (("/w/lib/ext.js", compiled "var ext;" "ext.js.map")
      ∈ hostOutput (compiler chainProgram) (abcProject false))
  /\ (forall f, f ∈ jsPushed (run chainProgram (abcProject false)).1 ->
                path f <> "/w/lib/ext.js").
Proof.
  split; [reflexivity|].
  split; [do 5 apply list_elem_of_further; apply list_elem_of_here|].
  exact (proj1 (proj2 (orphan_artifact_dropped relative (fun s => s)
                         (compiler chainProgram) (abcProject false)
                         "/w/lib/ext.js" (compiled "var ext;" "ext.js.map") eq_refl))).
Defined.

Lemma syntax_errors_suppress_emit_witness :
  getDiagnostics brokenProgram <> []
  /\ Forall has_file (getDiagnostics brokenProgram)
  /\ hostOutput (compiler brokenProgram) (abcProject true) = []
  /\ run brokenProgram (abcProject true)
     = (CreateProgram ["/w/src/a.ts"; "/w/src/b.ts"; "/w/src/c.ts"]
          :: map ErrorCallback
               (omap (errorOf (abcProject true)) (getDiagnostics brokenProgram)),
        Normal)
  /\ getDiagnostics chainProgram = []
  /\ hostOutput (compiler chainProgram) (abcProject true) = host_output abcWrites.
Proof.
  assert (Hbroken : getDiagnostics brokenProgram <> []) by discriminate.
  assert (Hloc : Forall has_file (getDiagnostics brokenProgram)).
  { repeat (constructor; [by eexists|]). constructor. }
  split; [exact Hbroken|]. split; [exact Hloc|].
  destruct (proj1 (syntax_errors_suppress_emit relative (fun s => s)
                     (compiler brokenProgram) (abcProject true)) Hbroken)
    as (Hout & _ & Hrun).
  split; [exact Hout|]. split; [exact (Hrun Hloc)|].
  split; [reflexivity|].
  exact (proj1 (proj2 (syntax_errors_suppress_emit relative (fun s => s)
                         (compiler chainProgram) (abcProject true)) eq_refl)).
Defined.

Lemma declarations_lose_last_line_witness :
  (("/w/src/a.d.ts",
    "declare var a: number;" +:+ JsString.nl +:+ "declare var a2: number;" +:+ JsString.nl)
   ∈ hostOutput (compiler chainProgram) (abcProject false))
  /\ Obj.get (getOriginalName "/w/src/a.d.ts") (currentFiles (abcProject false))
     = Some (getFileDataFromGulpFile (gulpFile "/w/src/a.ts"))
  /\ JsString.substr_last 5 "/w/src/a.d.ts" = ".d.ts"
  /\ JsString.has_char JsString.LF "declare var a2: number;" = false
  /\ Forall has_file (reported (compiler chainProgram) (abcProject false))
  /\ exists f, f ∈ declPushed (run chainProgram (abcProject false)).1
               /\ path f = "/w/src/a.d.ts"
               /\ contents f = "declare var a: number;" +:+ JsString.nl.
Proof.
  assert (Hin : ("/w/src/a.d.ts",
                 "declare var a: number;" +:+ JsString.nl
                 +:+ "declare var a2: number;" +:+ JsString.nl)
                ∈ hostOutput (compiler chainProgram) (abcProject false)).
  { do 2 apply list_elem_of_further. apply list_elem_of_here. }
  assert (Hloc : Forall has_file (reported (compiler chainProgram) (abcProject false))).
  { repeat (constructor; [by eexists|]). constructor. }
  split; [exact Hin|]. split; [reflexivity|]. split; [reflexivity|].
  split; [reflexivity|]. split; [exact Hloc|].
  exact (proj2 (declarations_lose_last_line relative (fun s => s)
                  (compiler chainProgram) (abcProject false) Hloc)
           "/w/src/a.d.ts" "declare var a: number;" "declare var a2: number;"
           (getFileDataFromGulpFile (gulpFile "/w/src/a.ts"))
           Hin eq_refl eq_refl eq_refl).
Defined.

Lemma diagnostic_without_file_throws_witness :
  reported (compiler globalProgram) (abcProject false)
  = [nameDiagnostic] ++ globalDiagnostic :: []
  /\ Forall has_file [nameDiagnostic]
  /\ d_file globalDiagnostic = None
  /\ (("/w/src/a.js", compiled "var a;" "a.js.map")
      ∈ hostOutput (compiler globalProgram) (abcProject false))
  /\ run globalProgram (abcProject false)
     = ([CreateProgram ["/w/src/a.ts"; "/w/src/b.ts"; "/w/src/c.ts"];
         GetTypeChecker; EmitFiles;
         ErrorCallback {| name := "TypeScript error";
                          message := "src/a.ts(1,5): 2304 Cannot find name 'q'." |}],
        Threw "TypeError: Cannot read property 'filename' of undefined")
  /\ jsPushed (run globalProgram (abcProject false)).1 = []
  /\ declPushed (run globalProgram (abcProject false)).1 = [].
Proof.
  assert (Hpre : Forall has_file [nameDiagnostic]).
  { repeat (constructor; [by eexists|]). constructor. }
  destruct (diagnostic_without_file_throws relative (fun s => s)
              (compiler globalProgram) (abcProject false)
              [nameDiagnostic] [] globalDiagnostic eq_refl Hpre eq_refl)
    as (Hrun & _ & _ & Hjs & Hdecl).
  split; [reflexivity|]. split; [exact Hpre|]. split; [reflexivity|].
  split; [apply list_elem_of_here|].
  split; [exact Hrun|]. split; [exact Hjs|exact Hdecl].
Defined.

Lemma located_diagnostics_do_not_stop_the_build_witness :
  Forall has_file (reported (compiler chainProgram) (abcProject true))
  /\ (run chainProgram (abcProject true)).2 = Normal
  /\ errorsReported (run chainProgram (abcProject true)).1
     = [{| name := "TypeScript error";
           message := "src/a.ts(1,5): 2304 Cannot find name 'q'." |}]
  /\ jsFile "/w/src/b.js" (compiled "var b;" "b.js.map")
       (getFileDataFromGulpFile (gulpFile "/w/src/b.ts"))
     ∈ jsPushed (run chainProgram (abcProject true)).1.
Proof.
  assert (Hloc : Forall has_file (reported (compiler chainProgram) (abcProject true))).
  { repeat (constructor; [by eexists|]). constructor. }
  destruct (located_diagnostics_do_not_stop_the_build relative (fun s => s)
              (compiler chainProgram) (abcProject true) Hloc)
    as (_ & _ & _ & Hpushed).
  split; [exact Hloc|]. split; [reflexivity|]. split; [reflexivity|].
  apply (Hpushed eq_refl "/w/src/b.js" (compiled "var b;" "b.js.map")
           (getFileDataFromGulpFile (gulpFile "/w/src/b.ts"))); [|reflexivity..].
  do 3 apply list_elem_of_further. apply list_elem_of_here.
Defined.

Example sourcemap_lookup_misses :
  sourcemaps (abcArtifacts chainProgram false) !! "/w/src/a.js.map" = Some "{mappings-a}"
  /\ sourcemaps (abcArtifacts chainProgram false) !! "/w/src/a.ts" = None
  /\ run chainProgram (abcProject false)
     = ([CreateProgram ["/w/src/a.ts"; "/w/src/b.ts"; "/w/src/c.ts"];
         GetTypeChecker; EmitFiles;
         ErrorCallback {| name := "TypeScript error";
                          message := "src/a.ts(1,5): 2304 Cannot find name 'q'." |};
         DeclPush {| path := "/w/src/a.d.ts";
                     contents := "declare var a: number;" +:+ nl;
                     cwd := "/w"; base := "/w/src"; sourceMap := None |};
         JsPush (jsOf "/w/src/a.js" "var a;");
         JsPush (jsOf "/w/src/b.js" "var b;");
         JsPush (jsOf "/w/src/c.js" "var c;")],
        Normal).
Proof. split_and!; reflexivity. Qed.

End Witnesses.

(** * Further properties of the same code *)

(** ** Paths and original names *)

Section MoreStringFacts.

Import JsString.

Lemma normalizePath_no_backslash (s : string) :
  has_char BACKSLASH (normalizePath s) = false.
Proof.
  induction s as [|c s IH]; [done|]. simpl.
  destruct (decide (c = "\"%char)) as [->|Hc].
  - by rewrite decide_False.
  - by rewrite decide_False.
Qed.

Lemma normalizePath_fixed (s : string) :
  has_char BACKSLASH s = false -> normalizePath s = s.
Proof.
  induction s as [|c s IH]; [done|]. simpl.
  destruct (decide (c = BACKSLASH)) as [->|Hc]; [done|].
  intros Hs. rewrite decide_False by done. by rewrite IH.
Qed.

Lemma normalizePath_app (s t : string) :
  normalizePath (s +:+ t) = normalizePath s +:+ normalizePath t.
Proof. induction s as [|c s IH]; [done|]. rewrite app_cons. simpl. by rewrite IH, app_cons. Qed.

Lemma normalizePath_length (s : string) :
  String.length (normalizePath s) = String.length s.
Proof. induction s as [|c s IH]; [done|]. simpl. by rewrite IH. Qed.

(** X1. [normalizePath] turns every backslash into a forward slash and
    changes nothing else: at each position the result holds a forward slash
    where the path holds a backslash and the character of the path
    elsewhere, so a backslash between two parts becomes a forward slash
    between their normalized forms. The result holds no backslash, has the
    length of its argument and is left unchanged by a second pass;
    [normalizePath] distributes over concatenation and is the identity on a
    path without backslash. *)
Theorem normalizePath_forward_slashes (s t : string) :
  (forall i, String.get i (normalizePath s)
             = (fun c => if decide (c = BACKSLASH) then "/"%char else c)
                 <$> String.get i s)
  /\ normalizePath (s +:+ String BACKSLASH t)
     = normalizePath s +:+ String "/" (normalizePath t)
  /\ has_char BACKSLASH (normalizePath s) = false
  /\ normalizePath (normalizePath s) = normalizePath s
  /\ String.length (normalizePath s) = String.length s
  /\ normalizePath (s +:+ t) = normalizePath s +:+ normalizePath t
  /\ (has_char BACKSLASH s = false -> normalizePath s = s).
Proof.
  split_and!.
  - induction s as [|c s IH]; intros i; [done|]. destruct i as [|i]; [done|].
    cbn [normalizePath String.get]. apply IH.
  - rewrite normalizePath_app. cbn [normalizePath]. unfold BACKSLASH.
    by rewrite decide_True.
  - apply normalizePath_no_backslash.
  - apply normalizePath_fixed, normalizePath_no_backslash.
  - apply normalizePath_length.
  - apply normalizePath_app.
  - apply normalizePath_fixed.
Qed.

(** A suffix the expression matches, and matches nowhere earlier, is
    replaced by [.ts]. *)
Lemma getOriginalName_suffix (p t : string) :
  suffix_match t = true ->
  (forall c q, suffix_match (String c q +:+ t) = false) ->
  getOriginalName (p +:+ t) = p +:+ ".ts".
Proof.
  intros Ht Hbefore. induction p as [|c p IH].
  - rewrite app_empty_l, getOriginalName_unfold. by rewrite Ht.
  - rewrite getOriginalName_unfold, Hbefore. rewrite !app_cons. by rewrite IH.
Qed.

Lemma suffix_match_cases (r : string) :
  suffix_match r = true ->
  r = ".d.ts" \/ r = ".js"
  \/ exists c, dot c = true /\ r = ".js" +:+ String c "map".
Proof.
  unfold suffix_match. intros H.
  apply orb_prop in H as [H|H]; [apply orb_prop in H as [H|H]|].
  - left. by apply bool_decide_eq_true in H.
  - right. left. by apply bool_decide_eq_true in H.
  - right. right. destruct r as [|a [|b [|c [|d rest]]]]; simpl in H; try done.
    apply andb_prop in H as [H Hrest]. apply andb_prop in H as [Habc Hdot].
    apply bool_decide_eq_true in Hrest as ->. apply bool_decide_eq_true in Habc.
    injection Habc as -> -> ->. by exists d.
Qed.

Lemma suffix_match_before_dts (c : ascii) (q : string) :
  suffix_match (String c q +:+ ".d.ts") = false.
Proof.
  apply not_true_is_false. intros H.
  apply suffix_match_cases in H as [H|[H|(d & _ & H)]].
  - change ".d.ts" with ("" +:+ ".d.ts") in H at 2.
    by apply app_inj_suffix in H as [? _].
  - change ".d.ts" with (".d" +:+ ".ts") in H. rewrite <- app_assoc_str in H.
    change ".js" with ("" +:+ ".js") in H at 1.
    apply app_inj_suffix in H as [_ ?]; done.
  - change ".d.ts" with (".d" +:+ ".ts") in H. rewrite <- app_assoc_str in H.
    change (".js" +:+ String d "map") with ((".js" +:+ String d "") +:+ "map") in H.
    apply app_inj_suffix in H as [_ ?]; done.
Qed.

Lemma suffix_match_before_js_map (c d : ascii) (q : string) :
  suffix_match (String c q +:+ ".js" +:+ String d "map") = false.
Proof.
  apply not_true_is_false. intros H.
  assert (Hlen : (7 < String.length (String c q +:+ ".js" +:+ String d "map"))%nat).
  { rewrite !length_app_str. simpl. lia. }
  apply suffix_match_cases in H as [H|[H|(e & _ & H)]]; rewrite H in Hlen;
    simpl in Hlen; lia.
Qed.

Lemma getOriginalName_dts (p : string) :
  getOriginalName (p +:+ ".d.ts") = p +:+ ".ts".
Proof. apply getOriginalName_suffix; [done|]. apply suffix_match_before_dts. Qed.

(** X2. The three artifacts of one source key back to the same original
    name: for every stem, the names in [.js], [.d.ts] and [.js.map] all have
    the stem with [.ts] as original name. The dot before [map] in the
    expression is not escaped, so any character but a line terminator is
    accepted in its place. *)
Theorem original_name_of_artifacts (p : string) (c : ascii) :
  dot c = true ->
  getOriginalName (p +:+ ".js") = p +:+ ".ts"
  /\ getOriginalName (p +:+ ".d.ts") = p +:+ ".ts"
  /\ getOriginalName (p +:+ ".js.map") = p +:+ ".ts"
  /\ getOriginalName (p +:+ ".js" +:+ String c "map") = p +:+ ".ts".
Proof.
  intros Hc. split_and!.
  - apply getOriginalName_js.
  - apply getOriginalName_dts.
  - apply (getOriginalName_suffix p (".js" +:+ String "." "map")); [done|].
    intros. apply suffix_match_before_js_map.
  - apply getOriginalName_suffix.
    + unfold suffix_match. apply orb_true_intro. right. simpl. by rewrite Hc.
    + intros. apply suffix_match_before_js_map.
Qed.

Lemma getOriginalName_no_match (f : string) :
  (forall p r, f = p +:+ r -> suffix_match r = false) ->
  getOriginalName f = f.
Proof.
  induction f as [|c f IH]; intros Hno.
  - rewrite getOriginalName_unfold. by rewrite (Hno "" "").
  - rewrite getOriginalName_unfold. rewrite (Hno "" (String c f)) by done.
    f_equal. apply IH. intros p r ->. apply (Hno (String c p) r). by rewrite app_cons.
Qed.

(** X3. A name that ends in none of the three suffixes is its own
    original name. *)
Theorem original_name_unchanged (f : string) :
  (forall p, f <> p +:+ ".js") ->
  (forall p, f <> p +:+ ".d.ts") ->
  (forall p c, dot c = true -> f <> p +:+ ".js" +:+ String c "map") ->
  getOriginalName f = f.
Proof.
  intros Hjs Hdts Hmap. apply getOriginalName_no_match. intros p r ->.
  apply not_true_is_false. intros [->|[->|(c & Hc & ->)]]%suffix_match_cases.
  - by apply (Hdts p).
  - by apply (Hjs p).
  - by apply (Hmap p c).
Qed.

End MoreStringFacts.

(** ** What [removeSourceMapComment] keeps *)

Section MoreCommentFacts.

Import JsString.

(** X4. [removeSourceMapComment] keeps the content up to the last line
    break that is not the final character, and that line break: whatever
    follows it is dropped, whether the content ends in a line break or
    not. *)
Theorem text_after_last_inner_line_break_dropped (stem mid : string) (c : ascii) :
  has_char LF mid = false ->
  removeSourceMapComment (stem +:+ nl +:+ mid +:+ String c "") = stem +:+ nl.
Proof.
  intros Hmid. unfold removeSourceMapComment, lastIndexOf, substring.
  set (content := stem +:+ nl +:+ mid +:+ String c "").
  assert (Hlen : len content
                 = Z.of_nat (String.length stem) + Z.of_nat (String.length mid) + 2).
  { unfold len, content, nl. rewrite !length_app_str. simpl. lia. }
  assert (Hidx : lastIndexOf_upto LF content
                   (String.length stem + String.length mid)
                 = Z.of_nat (String.length stem)).
  { apply lastIndexOf_upto_skip.
    - unfold content. rewrite <- (Nat.add_0_r (String.length stem)).
      by rewrite get_app_r.
    - intros j Hj. unfold content.
      replace j with (String.length stem + S (j - String.length stem - 1))%nat by lia.
      rewrite get_app_r. unfold nl at 1. rewrite app_cons, app_empty_l. simpl.
      rewrite get_app_l by lia. by apply has_char_get. }
  unfold clamp. rewrite Hlen.
  replace (Z.to_nat (Z.min (Z.max (_ + _ + 2 - 2) 0) (_ + _ + 2)))
    with (String.length stem + String.length mid)%nat by lia.
  rewrite Hidx.
  replace (Z.min (Z.max 0 0) _) with 0 by lia.
  replace (Z.min (Z.max (Z.of_nat (String.length stem)) 0) _)
    with (Z.of_nat (String.length stem)) by lia.
  replace (Z.min 0 _) with 0 by lia.
  replace (Z.max 0 _) with (Z.of_nat (String.length stem)) by lia.
  rewrite Z.sub_0_r, Nat2Z.id. simpl Z.to_nat.
  unfold content. by rewrite substring_app_l.
Qed.

(** X5. A content without line break before its final character loses
    everything: the empty content, a single line, and a single line followed
    by one more character (a final line break, say) all become a lone line
    break. *)
Theorem single_line_content_becomes_line_break (mid : string) (c : ascii) :
  has_char LF mid = false ->
  removeSourceMapComment "" = nl
  /\ removeSourceMapComment mid = nl
  /\ removeSourceMapComment (mid +:+ String c "") = nl.
Proof.
  intros Hmid.
  assert (Hone : forall d, removeSourceMapComment (mid +:+ String d "") = nl).
  { intros d. unfold removeSourceMapComment, lastIndexOf, substring, clamp, len.
    rewrite length_app_str. simpl String.length.
    destruct mid as [|a mid'].
    - rewrite app_empty_l. simpl. destruct (decide (Some d = Some LF)); reflexivity.
    - rewrite lastIndexOf_upto_none.
      + replace (Z.min (Z.max 0 0) _) with 0 by lia. simpl. done.
      + intros j Hj. simpl String.length in Hj.
        rewrite get_app_l by (simpl String.length; lia). by apply has_char_get. }
  split_and!; [reflexivity| |apply Hone].
  unfold removeSourceMapComment, lastIndexOf, substring, clamp, len.
  rewrite lastIndexOf_upto_none by (intros; by apply has_char_get).
  assert (Hz : Z.min (Z.max (-1) 0) (Z.of_nat (String.length mid)) = 0) by lia.
  assert (Hz' : Z.min (Z.max 0 0) (Z.of_nat (String.length mid)) = 0) by lia.
  rewrite Hz, Hz'. simpl. by destruct mid.
Qed.

End MoreCommentFacts.
(** ** The files of a project *)

Section ProjectStateFacts.

Import Project ProjectState.

Context {CompilerOptions : Type}.

(** X6. After [addFile], the entry under the normalized path of the file
    holds that file and its content, and the entries under other keys are
    what they were. *)
Theorem addFile_lookup (f : File) (p : Project CompilerOptions) :
  Obj.get (normalizePath (path f)) (currentFiles (addFile f p))
  = Some (getFileDataFromGulpFile f)
  /\ (forall k, k <> normalizePath (path f) ->
                Obj.get k (currentFiles (addFile f p)) = Obj.get k (currentFiles p))
  /\ file (getFileDataFromGulpFile f) = f
  /\ content (getFileDataFromGulpFile f) = contents f.
Proof.
  split_and!; try done.
  - apply get_set_eq.
  - intros k Hk. by apply get_set_ne.
Qed.

(** X7. Two files whose paths normalize to the same string share one
    entry: adding the second after the first gives the project that adding
    the second alone gives, with the same keys as after the first. *)
Theorem addFile_same_normalized_path (f g : File) (p : Project CompilerOptions) :
  normalizePath (path f) = normalizePath (path g) ->
  addFile g (addFile f p) = addFile g p
  /\ Obj.keys (currentFiles (addFile g (addFile f p)))
     = Obj.keys (currentFiles (addFile f p))
  /\ Obj.get (normalizePath (path f)) (currentFiles (addFile g (addFile f p)))
     = Some (getFileDataFromGulpFile g).
Proof.
  intros Hsame. split_and!.
  - unfold addFile. simpl. rewrite Hsame. by rewrite set_set.
  - unfold addFile. simpl. rewrite Hsame, !keys_set.
    destruct (decide (normalizePath (path g) ∈ Obj.keys (currentFiles p))) as [Hin|Hnin].
    + by rewrite decide_True.
    + rewrite decide_True; [done|]. apply elem_of_app. right. by left.
  - rewrite Hsame. apply get_set_eq.
Qed.

Lemma addFiles_snoc (fs : list File) (f : File) (p : Project CompilerOptions) :
  addFiles (fs ++ [f]) p = addFile f (addFiles fs p).
Proof. unfold addFiles. by rewrite fold_left_app. Qed.

Lemma addFile_keys_NoDup (f : File) (p : Project CompilerOptions) :
  NoDup (Obj.keys (currentFiles p)) ->
  NoDup (Obj.keys (currentFiles (addFile f p))).
Proof.
  intros Hnd. unfold addFile. simpl. rewrite keys_set. case_decide as Hin; [done|].
  apply NoDup_app. split_and!; [done| |apply NoDup_singleton].
  intros x Hx ->%list_elem_of_singleton. done.
Qed.

Lemma addFile_entries (f : File) (p : Project CompilerOptions) (k : string)
    (fd : FileData) :
  (k, fd) ∈ currentFiles (addFile f p) ->
  (k, fd) ∈ currentFiles p \/ (k, fd) = entryOf f.
Proof.
  unfold addFile. simpl. generalize (currentFiles p). intros o.
  induction o as [|[k' v'] o IH]; simpl.
  - intros ->%list_elem_of_singleton. by right.
  - destruct (decide (k' = normalizePath (path f))) as [->|Hne].
    + intros [->|Hin]%elem_of_cons; [by right|]. left. by right.
    + intros [->|Hin]%elem_of_cons; [left; by left|].
      destruct (IH Hin) as [?|?]; [left; by right|by right].
Qed.

(** X8. In a project loaded by [reset] and then [addFile]s, the keys of
    [currentFiles] are pairwise different, every entry sits under the
    normalized path of its own file, which holds no backslash, belongs to
    one of the files added, and is what a lookup at its key returns. *)
Theorem currentFiles_keys_normalized (fs : list File) (p : Project CompilerOptions) :
  NoDup (Obj.keys (currentFiles (addFiles fs (reset p))))
  /\ (forall k fd,
        (k, fd) ∈ currentFiles (addFiles fs (reset p)) ->
        k = normalizePath (path (file fd))
        /\ JsString.has_char "\"%char k = false
        /\ file fd ∈ fs
        /\ Obj.get k (currentFiles (addFiles fs (reset p))) = Some fd).
Proof.
  assert (Hnd : NoDup (Obj.keys (currentFiles (addFiles fs (reset p))))).
  { induction fs as [|f fs IH] using rev_ind; [apply NoDup_nil_2|].
    rewrite addFiles_snoc. by apply addFile_keys_NoDup. }
  split; [done|].
  intros k fd Hin. split_and!; [| | |by apply get_entry].
  - clear Hnd. revert k fd Hin. induction fs as [|f fs IH] using rev_ind;
      intros k fd Hin; [by inv Hin|].
    rewrite addFiles_snoc in Hin. apply addFile_entries in Hin as [Hin|Heq]; [by apply IH|].
    by injection Heq as -> ->.
  - clear Hnd. revert k fd Hin. induction fs as [|f fs IH] using rev_ind;
      intros k fd Hin; [by inv Hin|].
    rewrite addFiles_snoc in Hin.
    apply addFile_entries in Hin as [Hin|Heq]; [by apply (IH k fd)|].
    injection Heq as -> ->. apply normalizePath_no_backslash.
  - clear Hnd. revert k fd Hin. induction fs as [|f fs IH] using rev_ind;
      intros k fd Hin; [by inv Hin|].
    rewrite addFiles_snoc in Hin. apply elem_of_app.
    apply addFile_entries in Hin as [Hin|Heq]; [left; by apply (IH k fd)|].
    injection Heq as -> ->. right. by left.
Qed.



End ProjectStateFacts.

(** ** More on sorted emission *)

Section MoreSortedEmitFacts.

Import Project.

Variable prog : Program.
Variable maps : gmap string string.
Variable js : list File.

Lemma emitReferences_none
    (call : string -> File -> emitState -> emitState * completion)
    (refs : list string) (rest : list File) (st : emitState) :
  (forall g, g ∈ rest -> oname g ∉ refs) ->
  emitReferences call refs rest st = (st, Normal).
Proof.
  induction rest as [|g rest IH]; intros Hrest; [done|]. simpl.
  rewrite decide_False by (apply Hrest; by left).
  apply IH. intros g' Hg'. apply Hrest. by right.
Qed.

(** Without references among the artifacts, the sorted branch pushes them
    in their order. *)
Lemma sortedEmitAll_no_references (fuel : nat) (rest : list File) (st : emitState) :
  (forall f g, f ∈ js -> g ∈ js -> ~ references prog (oname f) (oname g)) ->
  (forall g, g ∈ rest -> g ∈ js) ->
  (forall g, g ∈ rest -> is_Some (getSourceFile prog (oname g))) ->
  NoDup (map oname rest) ->
  (forall g, g ∈ rest -> oname g ∉ done st) ->
  (sortedEmitAll prog maps js (S fuel) rest st).2 = Normal
  /\ out (sortedEmitAll prog maps js (S fuel) rest st).1
     = out st ++ plainEmitAll maps rest.
Proof.
  intros Hnoref. revert st.
  induction rest as [|f rest IH]; intros st Hsub Hsrc Hnd Hfresh.
  { simpl. by rewrite app_nil_r. }
  apply NoDup_cons in Hnd as [Hf Hnd].
  cbn [sortedEmitAll sortedEmit].
  rewrite decide_False by (apply Hfresh; by left).
  destruct (Hsrc f ltac:(by left)) as [tsFile Hts]. rewrite Hts.
  rewrite emitReferences_none.
  - cbn iota beta. cbn [done out].
    specialize (IH {| done := {[oname f]} ∪ done st;
                      out := out st ++ emit maps (oname f) f |}).
    destruct IH as [Hn Hout].
    + intros g Hg. apply Hsub. by right.
    + intros g Hg. apply Hsrc. by right.
    + done.
    + intros g Hg. simpl. rewrite elem_of_union, elem_of_singleton.
      intros [Heq|Hin].
      * apply Hf. rewrite <- Heq. by apply list_elem_of_fmap_2.
      * revert Hin. apply Hfresh. by right.
    + split; [exact Hn|]. rewrite Hout. simpl.
      unfold plainEmitAll. simpl. by rewrite app_assoc.
  - intros g Hg Href. apply (Hnoref f g); [apply Hsub; by left|done|].
    by exists tsFile.
Qed.

(** Every name marked during a run that returns normally has its source
    file in the program. *)
Lemma sortedEmit_marks_known (fuel : nat) (n : string) (f : File)
    (st st' : emitState) :
  sortedEmit prog maps js fuel n f st = (st', Normal) ->
  forall m, m ∈ done st' -> m ∈ done st \/ is_Some (getSourceFile prog m).
Proof.
  revert n f st st'. induction fuel as [|fuel IH]; intros n f st st' Hrun; [done|].
  simpl in Hrun. case_decide as Hdone.
  { injection Hrun as <-. auto. }
  destruct (getSourceFile prog n) as [tsFile|] eqn:Hsrc; [|done].
  assert (Hloop : forall rest st0 st1,
             emitReferences (sortedEmit prog maps js fuel)
               (map fr_filename (referencedFiles tsFile)) rest st0 = (st1, Normal) ->
             forall m, m ∈ done st1 -> m ∈ done st0 \/ is_Some (getSourceFile prog m)).
  { induction rest as [|other rest IHrest]; intros st0 st1 Hr m Hm.
    - injection Hr as <-. auto.
    - simpl in Hr. case_decide; [|by eapply IHrest].
      destruct (sortedEmit prog maps js fuel (oname other) other st0)
        as [st2 [| |]] eqn:Hcall; [|done..].
      destruct (IHrest _ _ Hr m Hm) as [Hin|?]; [|by right].
      by apply (IH _ _ _ _ Hcall). }
  destruct (emitReferences _ _ js _) as [st2 [| |]] eqn:Hr; [|done..].
  injection Hrun as <-. simpl. intros m Hm.
  destruct (Hloop _ _ _ Hr m Hm) as [Hin|?]; [|by right].
  simpl in Hin. apply elem_of_union in Hin as [->%elem_of_singleton|Hin]; [|by left].
  right. by eexists.
Qed.

Lemma sortedEmitAll_marks_known (fuel : nat) (rest : list File)
    (st st' : emitState) :
  sortedEmitAll prog maps js fuel rest st = (st', Normal) ->
  forall m, m ∈ done st' -> m ∈ done st \/ is_Some (getSourceFile prog m).
Proof.
  revert st. induction rest as [|f rest IH]; intros st Hrun m Hm.
  - injection Hrun as <-. auto.
  - simpl in Hrun.
    destruct (sortedEmit prog maps js fuel (oname f) f st) as [st1 [| |]] eqn:Hcall;
      [|done..].
    destruct (IH _ Hrun m Hm) as [Hin|?]; [|by right].
    by apply (sortedEmit_marks_known _ _ _ _ _ Hcall).
Qed.

(** A normal return of the sorted branch means every artifact has its
    source file. *)
Lemma sortedEmitAll_normal_sources :
  (sortedEmitAll prog maps js (S (length js)) js {| done := ∅; out := [] |}).2
  = Normal ->
  forall g, g ∈ js -> is_Some (getSourceFile prog (oname g)).
Proof.
  intros Hn g Hg.
  pose proof (sortedEmitAll_spec prog maps js (S (length js)) js (fun g Hg => Hg)
                _ [] (inv_init prog maps js)) as Hspec.
  simpl in Hspec. specialize (Hspec ltac:(pose proof (undone_le js ∅); lia)).
  destruct (sortedEmitAll _ _ _ _ _ _) as [st' r] eqn:Hrun. simpl in Hn. subst r.
  destruct Hspec as (new & _ & _ & Hall).
  destruct (sortedEmitAll_marks_known _ _ _ _ Hrun (oname g) (Hall g Hg)) as [Hin|?];
    [|done].
  by apply not_elem_of_empty in Hin.
Qed.

(** The first artifact is pushed after the artifacts of the files it
    references, whatever they reference themselves. *)
Lemma sortedEmitAll_first (f : File) (rest : list File) :
  js = f :: rest ->
  NoDup (map oname js) ->
  (forall g, g ∈ js -> is_Some (getSourceFile prog (oname g))) ->
  exists st' before after,
    sortedEmitAll prog maps js (S (length js)) js {| done := ∅; out := [] |}
    = (st', Normal)
    /\ out st' = plainEmitAll maps (before ++ f :: after)
    /\ (forall g, g ∈ js -> g <> f -> references prog (oname f) (oname g) ->
                  g ∈ before).
Proof.
  intros Hjs Hnd Hsrc.
  assert (Hf : f ∈ js) by (rewrite Hjs; by left).
  assert (Hinj : forall x y, x ∈ js -> y ∈ js -> oname x = oname y -> x = y).
  { clear -Hnd. induction js as [|a l IH]; simpl in *.
    - intros x y Hx. by inv Hx.
    - apply NoDup_cons in Hnd as [Ha Hl].
      intros x y [->|Hx]%elem_of_cons [->|Hy]%elem_of_cons Heq; auto.
      + exfalso. apply Ha. rewrite Heq. by apply list_elem_of_fmap_2.
      + exfalso. apply Ha. rewrite <- Heq. by apply list_elem_of_fmap_2. }
  destruct (Hsrc f Hf) as [tsFile Hts].
  pose proof (inv_mark prog maps js _ [] ∅ (oname f) (inv_init prog maps js)
                (not_elem_of_empty _)) as Hinv1.
  pose proof (emitReferences_spec prog maps js (length js) f tsFile js
                (sortedEmit_spec prog maps js (length js)) Hf Hts (fun g Hg => Hg)
                _ [] _ Hinv1) as Hloop.
  simpl in Hloop.
  assert (Hfuel : (undone js ({[oname f]} ∪ ∅) < length js)%nat).
  { pose proof (undone_mark js ∅ (oname f) (list_elem_of_fmap_2 oname js f Hf)
                  (not_elem_of_empty _)).
    pose proof (undone_le js ∅). lia. }
  specialize (Hloop ltac:(intros a [->%elem_of_singleton|Ha]%elem_of_union; auto;
                           by apply not_elem_of_empty in Ha) Hfuel).
  destruct (emitReferences (sortedEmit prog maps js (length js))
              (map fr_filename (referencedFiles tsFile)) js
              {| done := {[oname f]} ∪ ∅; out := [] |}) as [st2 r2] eqn:Hrun2.
  destruct r2 as [|message|]; [|
    destruct Hloop as (g & Hg & Hnone); destruct (Hsrc g Hg); congruence|done].
  destruct Hloop as (new & Hinv2 & _ & Hrefs). simpl in Hinv2.
  pose proof (inv_emit prog maps js st2 new ∅ f tsFile Hinv2 (not_elem_of_empty _)
                Hf Hts ltac:(intros a Ha; by apply not_elem_of_empty in Ha) Hrefs)
    as Hinv3.
  pose proof (sortedEmitAll_spec prog maps js (S (length js)) rest
                ltac:(intros g Hg; rewrite Hjs; by right)
                _ (new ++ [f]) Hinv3) as Hrest.
  simpl in Hrest.
  specialize (Hrest ltac:(pose proof (undone_le js (done st2)); lia)).
  destruct (sortedEmitAll prog maps js (S (length js)) rest
              {| done := done st2; out := out st2 ++ emit maps (oname f) f |})
    as [st3 r3] eqn:Hrun3.
  destruct r3 as [|message|]; [|
    destruct Hrest as (g & Hg & Hnone); destruct (Hsrc g Hg); congruence|done].
  destruct Hrest as (new2 & Hinv4 & _ & _).
  exists st3, new, new2. split_and!.
  - rewrite Hjs at 3. cbn [sortedEmitAll sortedEmit].
    rewrite decide_False by apply not_elem_of_empty. rewrite Hts.
    cbn [done out]. rewrite Hrun2. exact Hrun3.
  - rewrite (inv_out _ _ _ _ _ _ Hinv4). by rewrite <- app_assoc.
  - intros g Hg Hne (sf & Hsf & Hin). rewrite Hts in Hsf. injection Hsf as <-.
    specialize (Hrefs g Hg Hin).
    apply (inv_done _ _ _ _ _ _ Hinv2) in Hrefs as [Hnew|Hanc].
    + apply list_elem_of_fmap in Hnew as (g' & Heq & Hg').
      by rewrite (Hinj g g' Hg (inv_sub _ _ _ _ _ _ Hinv2 g' Hg') Heq).
    + exfalso. apply Hne. apply Hinj; [done..|].
      apply elem_of_union in Hanc as [Hanc|Hanc]; [by apply elem_of_singleton in Hanc|].
      by apply not_elem_of_empty in Hanc.
Qed.

End MoreSortedEmitFacts.

(** ** More on runs of [Project.compile] *)

Section MoreCompileFacts.

Import Project.

Context {CompilerOptions : Type}.
Variable path_relative : string -> string -> string.
Variable colors_red : string -> string.
Variable ts_createProgram : list string -> CompilerOptions -> Host -> Program.

Abbreviation compile := (Project.compile path_relative colors_red ts_createProgram).
Abbreviation getError := (Project.getError path_relative colors_red).
Abbreviation reportErrors := (Project.reportErrors path_relative colors_red).
Abbreviation createProgram := (Project.createProgram ts_createProgram).
Abbreviation reported := (Project.reported ts_createProgram).
Abbreviation hostOutput := (Project.hostOutput ts_createProgram).
Abbreviation artifacts := (Project.artifacts ts_createProgram).

Lemma collect_no_files (o : Obj.t string) :
  collect [] o = {| outputJS := []; declStream := []; sourcemaps := ∅ |}.
Proof.
  unfold collect. induction o as [|e o IH] using rev_ind; [done|].
  rewrite fold_left_app. simpl. by rewrite IH.
Qed.

(** X10. After [reset], [compile] gives the compiler no root name and
    pushes no file on either stream, whatever the compiler emits. It returns
    normally exactly when every diagnostic has its file, and has then
    reported each of them. *)
Theorem compile_after_reset (p : Project CompilerOptions) :
  getCurrentFilenames (reset p) = []
  /\ jsPushed (compile (reset p)).1 = []
  /\ declPushed (compile (reset p)).1 = []
  /\ ((compile (reset p)).2 = Normal <-> Forall has_file (reported (reset p)))
  /\ (Forall has_file (reported (reset p)) ->
      mapM (getError (reset p)) (reported (reset p))
      = Some (errorsReported (compile (reset p)).1)).
Proof.
  assert (Hart : artifacts (reset p)
                 = {| outputJS := []; declStream := []; sourcemaps := ∅ |}).
  { unfold Project.artifacts. simpl. apply collect_no_files. }
  pose proof (compile_pushed path_relative colors_red ts_createProgram (reset p))
    as (_ & Hjs & Hdecl).
  rewrite Hart in Hdecl, Hjs. simpl in Hdecl, Hjs. split_and!.
  - done.
  - destruct (jsPushed (compile (reset p)).1) as [|f l]; [done|].
    specialize (Hjs f ltac:(by left)). by inv Hjs.
  - destruct (declPushed (compile (reset p)).1) as [|f l]; [done|].
    specialize (Hdecl f ltac:(by left)). by inv Hdecl.
  - rewrite compile_normal_iff. split; [by intros [? _]|]. intros Hloc.
    split; [done|].
    destruct (emitStage_completion (reset p) (createProgram (reset p))
                (hostOutput (reset p))) as [Hn|(_ & m & g & _ & Hg & _)]; [done|].
    simpl in Hg. rewrite collect_no_files in Hg. by inv Hg.
  - intros Hloc.
    rewrite (proj1 (proj2 (proj2 (compile_filters path_relative colors_red
                                    ts_createProgram (reset p) Hloc)))).
    by apply mapM_getError_located.
Qed.

(** X11. With [sortOutput] off, [compile] returns normally exactly when
    every diagnostic it reports has its file, and then pushes the compiled
    files in the order [host.output] enumerates their artifacts. *)
Theorem unsorted_emit_keeps_order (p : Project CompilerOptions) :
  sortOutput p = false ->
  ((compile p).2 = Normal <-> Forall has_file (reported p))
  /\ (Forall has_file (reported p) ->
      jsPushed (compile p).1 = outputJS (artifacts p))
  /\ map path (jsPushed (compile p).1) `sublist_of` Obj.keys (hostOutput p).
Proof.
  intros Hplain.
  assert (Hjs : Forall has_file (reported p) ->
                jsPushed (compile p).1 = outputJS (artifacts p)).
  { intros Hloc. rewrite compile_jsPushed by done.
    unfold emitStage. rewrite Hplain. simpl.
    rewrite plainEmitAll_outputJS by done.
    rewrite jsPushed_app, (proj1 (filters_decls _)), jsPushed_map. done. }
  split_and!.
  - rewrite compile_normal_iff. split; [by intros [? _]|]. intros Hloc.
    split; [done|]. unfold emitStage. by rewrite Hplain.
  - exact Hjs.
  - destruct (located_cases (reported p))
      as [Hloc|(pre & info & post & Hrep & Hpre & Hinfo)].
    + rewrite (Hjs Hloc). apply collect_outputJS_paths.
    + rewrite (proj1 (compile_thrown_filters path_relative colors_red
                        ts_createProgram p pre post info Hrep Hpre Hinfo)).
      apply sublist_nil_l.
Qed.

(** X12. With [sortOutput] on, when no file with a compiled artifact
    references another one and the program has every source file, a run
    that reaches the emission (every diagnostic it reports has its file)
    pushes the compiled files in the order [host.output] enumerates them,
    as in the unsorted branch. *)
Theorem sorted_emit_without_references_keeps_order (p : Project CompilerOptions) :
  sortOutput p = true ->
  (forall g, g ∈ outputJS (artifacts p) ->
             is_Some (getSourceFile (createProgram p) (oname g))) ->
  (forall f g, f ∈ outputJS (artifacts p) -> g ∈ outputJS (artifacts p) ->
               ~ references (createProgram p) (oname f) (oname g)) ->
  Forall has_file (reported p) ->
  (compile p).2 = Normal
  /\ jsPushed (compile p).1 = outputJS (artifacts p).
Proof.
  intros Hsorted Hsrc Hnoref Hloc.
  destruct (sortedEmitAll_no_references (createProgram p) (sourcemaps (artifacts p))
              (outputJS (artifacts p)) (length (outputJS (artifacts p)))
              (outputJS (artifacts p)) {| done := ∅; out := [] |}
              Hnoref (fun g Hg => Hg) Hsrc
              (outputJS_oname_NoDup _ _ (hostOutput_NoDup _ p))
              (fun g _ => not_elem_of_empty _)) as [Hn Hout].
  rewrite compile_completion, compile_jsPushed by done.
  unfold emitStage. rewrite Hsorted.
  simpl. split; [exact Hn|].
  unfold Project.artifacts in Hout. rewrite Hout. simpl.
  rewrite plainEmitAll_outputJS by done.
  rewrite jsPushed_app, (proj1 (filters_decls _)), jsPushed_map. done.
Qed.

(** X13. Every file pushed by [compile] keys back to an input file and
    takes its [cwd] and [base] from it; a compiled file carries the inbound
    source map of that input file, a declaration file carries none. *)
Theorem pushed_files_inherit_from_input (p : Project CompilerOptions) :
  (forall f, f ∈ jsPushed (compile p).1 ->
     exists original,
       Obj.get (getOriginalName (path f)) (currentFiles p) = Some original
       /\ cwd f = cwd (file original)
       /\ base f = base (file original)
       /\ sourceMap f = sourceMap (file original))
  /\ (forall f, f ∈ declPushed (compile p).1 ->
        exists original,
          Obj.get (getOriginalName (path f)) (currentFiles p) = Some original
          /\ cwd f = cwd (file original)
          /\ base f = base (file original)
          /\ sourceMap f = None).
Proof.
  pose proof (compile_pushed path_relative colors_red ts_createProgram p)
    as (_ & Hjs & Hdecl).
  split.
  - intros f Hf. apply Hjs in Hf.
    apply collect_outputJS_elem in Hf as (k & v & original & _ & Horig & _ & ->).
    exists original. rewrite path_jsFile. split; [done|].
    unfold jsFile. by destruct (sourceMap (file original)).
  - intros f Hf. apply Hdecl in Hf. revert Hf.
    intros (k & v & original & _ & Horig & _ & _ & ->)%collect_declStream_elem.
    by exists original.
Qed.

(** X14. With [sortOutput] on, [compile] returns normally exactly when
    every diagnostic it reports has its file and the program has a source
    file for every compiled artifact; otherwise it throws. When every
    diagnostic has its file, each has been reported and every declaration
    file pushed, whether or not the sorted emission then throws. *)
Theorem sorted_emit_throws_iff_source_missing (p : Project CompilerOptions) :
  sortOutput p = true ->
  ((compile p).2 = Normal <->
   Forall has_file (reported p)
   /\ forall g, g ∈ outputJS (artifacts p) ->
                is_Some (getSourceFile (createProgram p) (oname g)))
  /\ ((compile p).2 <> Normal ->
      exists message, (compile p).2 = Threw message)
  /\ (Forall has_file (reported p) ->
      mapM (getError p) (reported p) = Some (errorsReported (compile p).1)
      /\ declPushed (compile p).1 = declStream (artifacts p)).
Proof.
  intros Hsorted.
  pose proof (emitStage_completion p (createProgram p) (hostOutput p)) as Hcompl.
  split_and!.
  - rewrite compile_normal_iff. split; intros [Hloc H]; (split; [done|]).
    + revert H. unfold emitStage. rewrite Hsorted. simpl.
      apply sortedEmitAll_normal_sources.
    + destruct Hcompl as [Hn|(_ & m & g & _ & Hg & Hnone)]; [done|].
      destruct (H g Hg) as [sf Hsf]. unfold Project.artifacts in Hsf. congruence.
  - apply compile_not_OutOfFuel.
  - intros Hloc.
    pose proof (compile_filters path_relative colors_red ts_createProgram p Hloc)
      as (Hdecl & _ & Herr & _).
    split; [|done]. rewrite Herr. by apply mapM_getError_located.
Qed.

Lemma NoDup_split_unique {A} (l1 l2 k1 k2 : list A) (y : A) :
  NoDup (l1 ++ y :: l2) -> l1 ++ y :: l2 = k1 ++ y :: k2 -> l1 = k1.
Proof.
  revert k1. induction l1 as [|a l1 IH]; intros k1 Hnd Heq.
  - destruct k1 as [|b k1]; [done|]. simpl in *. injection Heq as <- ->.
    apply NoDup_cons in Hnd as [Hy _]. exfalso. apply Hy.
    apply elem_of_app. right. by left.
  - destruct k1 as [|b k1]; simpl in *.
    + injection Heq as -> <-. apply NoDup_cons in Hnd as [Hy _]. exfalso. apply Hy.
      apply elem_of_app. right. by left.
    + injection Heq as <- Heq. apply NoDup_cons in Hnd as [_ Hnd].
      f_equal. by apply IH.
Qed.

Lemma precedes_trans {A} (l : list A) (x y z : A) :
  NoDup l -> precedes l x y -> precedes l y z -> precedes l x z.
Proof.
  intros Hnd (l1 & l2 & -> & Hx) (l3 & l4 & Heq & Hy).
  exists l3, l4. split; [done|].
  apply list_elem_of_split in Hy as (l3a & l3b & ->).
  rewrite <- app_assoc in Heq. simpl in Heq.
  apply NoDup_split_unique in Heq as ->; [|done].
  apply elem_of_app. by left.
Qed.

(** X15. With [sortOutput] on and an acyclic reference relation, a run
    that reaches the emission (every diagnostic it reports has its file)
    pushes a compiled file after every file it depends on through a chain
    of references, not only after those it references itself. *)
Theorem sorted_emit_transitive_dependencies_first (p : Project CompilerOptions) :
  sortOutput p = true ->
  (forall g, g ∈ outputJS (artifacts p) ->
             is_Some (getSourceFile (createProgram p) (oname g))) ->
  (forall a, ~ tc (refs_among (createProgram p) (outputJS (artifacts p))) a a) ->
  Forall has_file (reported p) ->
  forall fa fb,
    fa ∈ outputJS (artifacts p) -> fb ∈ outputJS (artifacts p) ->
    tc (refs_among (createProgram p) (outputJS (artifacts p))) (oname fa) (oname fb) ->
    precedes (jsPushed (compile p).1) fb fa.
Proof.
  intros Hsorted Hsrc Hacyclic Hloc.
  assert (Hnormal : (emitStage p (createProgram p) (hostOutput p)).2 = Normal).
  { destruct (emitStage_completion p (createProgram p) (hostOutput p))
      as [Hn|(_ & message & g & _ & Hg & Hnone)]; [done|].
    destruct (Hsrc g Hg) as [sf Hsf]. unfold Project.artifacts in Hsf. congruence. }
  destruct (emitStage_pushed p (createProgram p) (hostOutput p)
              (hostOutput_NoDup _ p) Hnormal) as [Hperm Hord].
  specialize (Hord Hsorted). rewrite compile_jsPushed by done.
  assert (Hnd : NoDup (jsPushed (emitStage p (createProgram p) (hostOutput p)).1)).
  { rewrite Hperm. eapply NoDup_fmap_1.
    apply (outputJS_oname_NoDup _ _ (hostOutput_NoDup _ p)). }
  assert (Hgen : forall a b,
             tc (refs_among (createProgram p) (outputJS (artifacts p))) a b ->
             forall fa fb, fa ∈ outputJS (artifacts p) -> fb ∈ outputJS (artifacts p) ->
               oname fa = a -> oname fb = b ->
               precedes (jsPushed (emitStage p (createProgram p) (hostOutput p)).1)
                        fb fa).
  { assert (Hdirect : forall fa fb,
               fa ∈ outputJS (artifacts p) -> fb ∈ outputJS (artifacts p) ->
               refs_among (createProgram p) (outputJS (artifacts p))
                          (oname fa) (oname fb) ->
               precedes (jsPushed (emitStage p (createProgram p) (hostOutput p)).1)
                        fb fa).
    { intros fa fb Hfa Hfb Hedge.
      destruct (Hord fa fb Hfa Hfb (proj2 (proj2 Hedge))) as [Hp|Htc]; [done|].
      exfalso. apply (Hacyclic (oname fa)). by eapply tc_l. }
    induction 1 as [a b Hab|a b c Hab Hbc IH]; intros fa fb Hfa Hfb <- <-.
    - by apply Hdirect.
    - destruct Hab as (Ha & Hb & Href) eqn:Hedge. clear Hedge.
      apply list_elem_of_fmap in Hb as (fm & -> & Hfm).
      apply (precedes_trans _ fb fm fa); [done| |].
      + by apply IH.
      + apply Hdirect; [done..|]. split_and!; [done|by apply list_elem_of_fmap_2|done]. }
  intros fa fb Hfa Hfb Htc. by apply (Hgen _ _ Htc).
Qed.

(** X16. [getError] looks the diagnostic's file up under its original
    name. For a diagnostic located in a declaration file [q.d.ts] the lookup
    is made at [q.ts]: the message names the file as the compiler gave it
    when [q.ts] is not an input file, and relative to the working directory
    of [q.ts] when it is, whether or not [q.d.ts] itself is an input. *)
Theorem declaration_diagnostic_file_name (p : Project CompilerOptions)
    (info : Diagnostic) (info_file : SourceFile) (q : string) :
  d_file info = Some info_file ->
  filename info_file = q +:+ ".d.ts" ->
  let position :=
    "(" +:+ pretty (line (getLineAndCharacterFromPosition info_file (d_start info)) + 1)
    +:+ "," +:+ pretty (character (getLineAndCharacterFromPosition info_file (d_start info)) + 1)
    +:+ "): " in
  (Obj.get (q +:+ ".ts") (currentFiles p) = None ->
   getError p info
   = Some {| name := "TypeScript error";
             message := colors_red ((q +:+ ".d.ts") +:+ position)
                        +:+ pretty (d_code info) +:+ " " +:+ d_messageText info |})
  /\ (forall fd, Obj.get (q +:+ ".ts") (currentFiles p) = Some fd ->
      getError p info
      = Some {| name := "TypeScript error";
                message :=
                  colors_red (path_relative (cwd (file fd)) (q +:+ ".d.ts")
                              +:+ position)
                  +:+ pretty (d_code info) +:+ " " +:+ d_messageText info |}).
Proof.
  intros Hfile Hname position. unfold Project.getError. rewrite Hfile, Hname.
  rewrite getOriginalName_dts.
  split.
  - by intros ->.
  - by intros fd ->.
Qed.

(** X21. Each stream receives its own kind of artifact: every file pushed
    on the compiled stream has a path in [.js] and every file pushed on the
    declaration stream a path in [.d.ts], both keys of [host.output]; no
    file whose path ends in [.map] is ever pushed. *)
Theorem streams_receive_their_kind (p : Project CompilerOptions) :
  (forall f, f ∈ jsPushed (compile p).1 ->
     (exists q, path f = q +:+ ".js") /\ path f ∈ Obj.keys (hostOutput p))
  /\ (forall f, f ∈ declPushed (compile p).1 ->
        (exists q, path f = q +:+ ".d.ts") /\ path f ∈ Obj.keys (hostOutput p))
  /\ (forall f q, f ∈ jsPushed (compile p).1 \/ f ∈ declPushed (compile p).1 ->
                  path f <> q +:+ ".map").
Proof.
  pose proof (compile_pushed path_relative colors_red ts_createProgram p)
    as (_ & Hjs & Hdecl).
  assert (Hj : forall f, f ∈ jsPushed (compile p).1 ->
             (exists q, path f = q +:+ ".js") /\ path f ∈ Obj.keys (hostOutput p)).
  { intros f Hf. apply Hjs in Hf. split.
    - apply outputJS_names in Hf as (q & Hq & _). by exists q.
    - apply collect_outputJS_elem in Hf as (k & v & original & Hin & _ & _ & ->).
      rewrite path_jsFile. by apply (list_elem_of_fmap_2 fst _ (k, v)). }
  assert (Hd : forall f, f ∈ declPushed (compile p).1 ->
             (exists q, path f = q +:+ ".d.ts") /\ path f ∈ Obj.keys (hostOutput p)).
  { intros f Hf. apply Hdecl in Hf. revert Hf.
    intros (k & v & original & Hin & _ & _ & Hdts & ->)%collect_declStream_elem.
    simpl. split.
    - by apply (substr_last_suffix 5).
    - by apply (list_elem_of_fmap_2 fst _ (k, v)). }
  split_and!; [exact Hj|exact Hd|].
  intros f q [Hf|Hf] Hmap.
  - destruct (Hj f Hf) as [[q' Hq'] _]. rewrite Hq' in Hmap.
    change ".map" with ("." +:+ "map") in Hmap. rewrite <- app_assoc_str in Hmap.
    by apply app_inj_suffix in Hmap as [_ ?].
  - destruct (Hd f Hf) as [[q' Hq'] _]. rewrite Hq' in Hmap.
    change ".map" with ("." +:+ "map") in Hmap. rewrite <- app_assoc_str in Hmap.
    change ".d.ts" with (".d" +:+ ".ts") in Hmap. rewrite <- app_assoc_str in Hmap.
    by apply app_inj_suffix in Hmap as [_ ?].
Qed.

(** X22. In sorted mode a run that reaches the emission (every diagnostic
    it reports has its file) pushes the compiled file enumerated first
    after every other compiled file whose source it references directly,
    also when the references form a cycle: a cycle is cut at the file the
    traversal entered it by. *)
Theorem first_artifact_follows_its_references (p : Project CompilerOptions)
    (f : File) (rest : list File) :
  sortOutput p = true ->
  outputJS (artifacts p) = f :: rest ->
  (forall g, g ∈ outputJS (artifacts p) ->
             is_Some (getSourceFile (createProgram p) (oname g))) ->
  Forall has_file (reported p) ->
  forall g, g ∈ outputJS (artifacts p) -> g <> f ->
    references (createProgram p) (oname f) (oname g) ->
    precedes (jsPushed (compile p).1) g f.
Proof.
  intros Hsorted Hjs Hsrc Hloc g Hg Hne Href.
  destruct (sortedEmitAll_first (createProgram p) (sourcemaps (artifacts p))
              (outputJS (artifacts p)) f rest Hjs
              (outputJS_oname_NoDup _ _ (hostOutput_NoDup _ p)) Hsrc)
    as (st' & before & after & Hrun & Hout & Hbefore).
  assert (Hsub : forall x, x ∈ before ++ f :: after -> x ∈ outputJS (artifacts p)).
  { intros x Hx.
    pose proof (sortedRun_pushes_of p (createProgram p) (hostOutput p)) as Hev.
    unfold Project.artifacts in Hrun. rewrite Hrun in Hev. simpl in Hev.
    rewrite Hout in Hev. clear -Hev Hx.
    induction (before ++ f :: after) as [|a l IH]; [by inv Hx|].
    unfold plainEmitAll in Hev. simpl in Hev. apply Forall_app in Hev as [Ha Hl].
    apply elem_of_cons in Hx as [->|Hx]; [|by apply IH].
    unfold emit in Ha. destruct (_ !! _) as [m|]; [destruct (decide (m = ""))|].
    - apply Forall_cons in Ha as [(x & Hx & Hin) _]. by injection Hx as ->.
    - apply Forall_cons in Ha as [(x & Hx & Hin) _]. done.
    - apply Forall_cons in Ha as [(x & Hx & Hin) _]. by injection Hx as ->. }
  rewrite compile_jsPushed by done. unfold emitStage. rewrite Hsorted. simpl.
  unfold Project.artifacts in Hrun. rewrite Hrun. simpl. rewrite Hout.
  rewrite (plainEmitAll_outputJS (currentFiles p) (hostOutput p)) by exact Hsub.
  rewrite jsPushed_app, (proj1 (filters_decls _)), jsPushed_map. simpl.
  exists before, after. split; [done|]. by apply Hbefore.
Qed.

End MoreCompileFacts.
(** ** More on runs of [ProjectCompiler.inputDone] *)

Section MoreInputDoneFacts.

Import ProjectCompiler ProjectCompilerTrace.

Context {Error Diagnostic InputFile Options FilterSettings : Type}.

Abbreviation project := (@Project Error InputFile Options FilterSettings).

Variable filter_match : project -> FilterSettings -> string -> bool.
Variable ts_run : project -> list string -> list Diagnostic * Obj.t string.

Abbreviation inputDone := (ProjectCompiler.inputDone filter_match ts_run).
Abbreviation rootFilenames := (ProjectCompiler.rootFilenames filter_match).

Lemma filter_map_none {A} (P : @event Error Diagnostic -> bool)
    (g : A -> @event Error Diagnostic) (l : list A) :
  (forall a, P (g a) = false) -> List.filter P (map g l) = [].
Proof. intros HP. induction l as [|a l IH]; [done|]. simpl. by rewrite HP. Qed.

Lemma filter_map_all {A} (P : @event Error Diagnostic -> bool)
    (g : A -> @event Error Diagnostic) (l : list A) :
  (forall a, P (g a) = true) -> List.filter P (map g l) = map g l.
Proof. intros HP. induction l as [|a l IH]; [done|]. simpl. by rewrite HP, IH. Qed.

Lemma replay_keys (old : @Output Error) :
  NoDup (Obj.keys (files old)) ->
  replay (Diagnostic := Diagnostic) old
  = map OutputError (errors old) ++ flat_map (fun e => replayFile e.2) (files old).
Proof.
  intros Hnd. unfold replay. f_equal.
  assert (Hgen : forall l : list (string * OutputFile),
             (forall e, e ∈ l -> Obj.get e.1 (files old) = Some e.2) ->
             flat_map (fun k => match Obj.get k (files old) with
                                | Some f => replayFile (Error := Error)
                                              (Diagnostic := Diagnostic) f
                                | None => []
                                end) (map fst l)
             = flat_map (fun e => replayFile e.2) l).
  { induction l as [|e l IH]; intros Hl; [done|]. simpl.
    rewrite (Hl e) by (by left). rewrite IH; [done|].
    intros e' He'. apply Hl. by right. }
  apply Hgen. intros [k v] He. by apply get_entry.
Qed.

Lemma recompile_trace (p : project) (first : InputFile) :
  firstSourceFile (input p) = Some first ->
  isChanged (input p) true = true ->
  inputDone p
  = [NewHost (currentDirectory p) (negb (noExternalResolve p));
     CreateProgram (rootFilenames p); GetDiagnosticsAndEmit]
    ++ map OutputDiagnostic (ts_run p (rootFilenames p)).1
    ++ map (fun k => OutputWrite k (Obj.get k (ts_run p (rootFilenames p)).2))
           (Obj.keys (ts_run p (rootFilenames p)).2)
    ++ [OutputFinish].
Proof.
  intros Hfirst Hchanged. unfold ProjectCompiler.inputDone.
  rewrite Hfirst, Hchanged. simpl. by destruct (ts_run p _).
Qed.

Lemma replay_trace (p : project) (first : InputFile) :
  firstSourceFile (input p) = Some first ->
  isChanged (input p) true = false ->
  inputDone p = replay (previousOutput p).
Proof.
  intros Hfirst Hsame. unfold ProjectCompiler.inputDone. by rewrite Hfirst, Hsame.
Qed.

Lemma replay_filters (old : @Output Error) :
  List.filter is_finish (replay (Diagnostic := Diagnostic) old) = []
  /\ List.filter is_compiler_event (replay (Diagnostic := Diagnostic) old) = [].
Proof.
  pose proof (replay_events (Diagnostic := Diagnostic) old) as Hev.
  induction Hev as [|e tr [Hc Hf] _ [IH1 IH2]]; [done|]. simpl.
  rewrite Hc. destruct e; try done.
Qed.

(** X17. [inputDone] calls [finish] exactly once, as its last call, when
    the input is empty or changed; when it replays the previous output it
    never calls [finish]. *)
Theorem finish_is_last_and_never_on_replay (p : project) :
  (firstSourceFile (input p) = None \/ isChanged (input p) true = true ->
   exists tr, inputDone p = tr ++ [OutputFinish]
              /\ List.filter is_finish tr = [])
  /\ (forall first,
        firstSourceFile (input p) = Some first ->
        isChanged (input p) true = false ->
        List.filter is_finish (inputDone p) = []).
Proof.
  split.
  - intros Hcase. destruct (firstSourceFile (input p)) as [first|] eqn:Hfirst.
    + destruct Hcase as [?|Hchanged]; [done|].
      rewrite (recompile_trace p first Hfirst Hchanged).
      eexists. rewrite !app_assoc. split; [done|].
      rewrite !List.filter_app, !filter_map_none by done. done.
    + exists []. unfold ProjectCompiler.inputDone. by rewrite Hfirst.
  - intros first Hfirst Hsame. rewrite (replay_trace p first Hfirst Hsame).
    apply replay_filters.
Qed.

(** X18. The host and the program are created, and the diagnostics
    collected, exactly when the input is not empty and changed: the calls on
    the compiler side are then these three, in that order, and there is none
    otherwise. *)
Theorem compiler_runs_only_for_changed_input (p : project) :
  List.filter is_compiler_event (inputDone p)
  = match firstSourceFile (input p) with
    | Some _ =>
        if isChanged (input p) true
        then [NewHost (currentDirectory p) (negb (noExternalResolve p));
              CreateProgram (rootFilenames p); GetDiagnosticsAndEmit]
        else []
    | None => []
    end.
Proof.
  destruct (firstSourceFile (input p)) as [first|] eqn:Hfirst.
  - destruct (isChanged (input p) true) eqn:Hchanged.
    + rewrite (recompile_trace p first Hfirst Hchanged).
      rewrite !List.filter_app, !filter_map_none by done. done.
    + rewrite (replay_trace p first Hfirst Hchanged). apply replay_filters.
  - unfold ProjectCompiler.inputDone. by rewrite Hfirst.
Qed.

Lemma replayFile_writes (f : OutputFile) :
  List.filter is_write (replayFile (Error := Error) (Diagnostic := Diagnostic) f)
  = replayFile f.
Proof. unfold replayFile. by destruct (content f Definitions). Qed.

(** X19. A replay over a previous output with pairwise different keys
    reports the cached errors in order and writes, for every cached file,
    its [.js] and [.js.map] entries whatever their cached content, also an
    undefined one, and its [.d.ts] entry only when the declaration is
    defined: two writes per file and one more per declaration, and never a
    declaration with undefined content. *)
Theorem replay_writes_every_cached_file (p : project) (first : InputFile) :
  firstSourceFile (input p) = Some first ->
  isChanged (input p) true = false ->
  NoDup (Obj.keys (files (previousOutput p))) ->
  List.filter is_error (inputDone p) = map OutputError (errors (previousOutput p))
  /\ length (List.filter is_write (inputDone p))
     = (2 * length (files (previousOutput p))
        + length (List.filter has_declaration (files (previousOutput p))))%nat
  /\ (forall k f,
        (k, f) ∈ files (previousOutput p) ->
        OutputWrite (fileName f +:+ ".js") (content f JavaScript) ∈ inputDone p
        /\ OutputWrite (fileName f +:+ ".js.map") (content f SourceMap) ∈ inputDone p
        /\ (forall d, content f Definitions = Some d ->
                      OutputWrite (fileName f +:+ ".d.ts") (Some d) ∈ inputDone p))
  /\ (forall n, OutputWrite (n +:+ ".d.ts") None ∉ inputDone p).
Proof.
  intros Hfirst Hsame Hnd. rewrite (replay_trace p first Hfirst Hsame).
  rewrite (replay_keys _ Hnd). split_and!.
  - rewrite List.filter_app, filter_map_all by done.
    assert (Hno : List.filter is_error
                    (flat_map (fun e : string * OutputFile =>
                                 replayFile (Error := Error) (Diagnostic := Diagnostic) e.2)
                              (files (previousOutput p))) = []).
    { clear. generalize (files (previousOutput p)). intros l.
      induction l as [|e l IH]; [done|]. cbn [flat_map].
      rewrite List.filter_app, IH, app_nil_r. unfold replayFile.
      by destruct (content e.2 Definitions). }
    by rewrite Hno, app_nil_r.
  - rewrite List.filter_app, filter_map_none by done. simpl.
    clear. generalize (files (previousOutput p)). intros l.
    induction l as [|e l IH]; [done|]. cbn [flat_map List.filter length].
    rewrite List.filter_app, length_app, IH, replayFile_writes.
    unfold replayFile, has_declaration. destruct (content e.2 Definitions); simpl; lia.
  - intros k f Hin.
    assert (Hfile : forall e, e ∈ replayFile (Error := Error) (Diagnostic := Diagnostic) f ->
                              e ∈ map OutputError (errors (previousOutput p))
                                  ++ flat_map (fun e => replayFile e.2)
                                       (files (previousOutput p))).
    { intros e He. apply elem_of_app. right. apply list_elem_of_In, in_flat_map.
      exists (k, f). split; by apply list_elem_of_In. }
    split_and!.
    + apply Hfile. unfold replayFile. by left.
    + apply Hfile. unfold replayFile. right. by left.
    + intros d Hd. apply Hfile. unfold replayFile. rewrite Hd. do 2 right. by left.
  - intros n Hw. apply elem_of_app in Hw as [Hw|Hw].
    { apply list_elem_of_fmap in Hw as (? & ? & _). done. }
    apply list_elem_of_In, in_flat_map in Hw as ([k' f'] & _ & Hw).
    apply list_elem_of_In in Hw. unfold replayFile in Hw. simpl in Hw.
    change (n +:+ ".d.ts") with (n +:+ ".d" +:+ ".ts") in Hw.
    rewrite <- app_assoc_str in Hw.
    apply elem_of_cons in Hw as [Hw|Hw].
    { injection Hw as Hw _. by apply app_inj_suffix in Hw as [_ ?]. }
    apply elem_of_cons in Hw as [Hw|Hw].
    { injection Hw as Hw _. change ".js.map" with (".js." +:+ "map") in Hw.
      rewrite <- (app_assoc_str (fileName f')) in Hw.
      by apply app_inj_suffix in Hw as [_ ?]. }
    destruct (content f' Definitions); [|by inv Hw].
    apply list_elem_of_singleton in Hw. done.
Qed.

(** X20. A recompilation writes every entry of [host.output] once, in
    enumeration order, with the content the compiler emitted, and hands over
    the diagnostics in the order the compiler returned them. *)
Theorem recompile_writes_every_emitted_file (p : project) (first : InputFile) :
  firstSourceFile (input p) = Some first ->
  isChanged (input p) true = true ->
  NoDup (Obj.keys (ts_run p (rootFilenames p)).2) ->
  List.filter is_write (inputDone p)
  = map (fun e => OutputWrite e.1 (Some e.2)) (ts_run p (rootFilenames p)).2
  /\ List.filter is_diagnostic (inputDone p)
     = map OutputDiagnostic (ts_run p (rootFilenames p)).1.
Proof.
  intros Hfirst Hchanged Hnd. rewrite (recompile_trace p first Hfirst Hchanged).
  set (o := (ts_run p (rootFilenames p)).2) in *.
  assert (Hgen : forall l : list (string * string),
             (forall e, e ∈ l -> Obj.get e.1 o = Some e.2) ->
             map (fun k => OutputWrite (Error := Error) (Diagnostic := Diagnostic)
                             k (Obj.get k o)) (map fst l)
             = map (fun e => OutputWrite e.1 (Some e.2)) l).
  { induction l as [|e l IH]; intros Hl; [done|]. simpl.
    rewrite (Hl e) by (by left). rewrite IH; [done|].
    intros e' He'. apply Hl. by right. }
  split.
  - rewrite !List.filter_app. rewrite (filter_map_none is_write OutputDiagnostic) by done.
    rewrite filter_map_all by done. simpl. rewrite app_nil_r.
    apply Hgen. intros [k v] He. by apply get_entry.
  - rewrite !List.filter_app. rewrite filter_map_all by done.
    rewrite filter_map_none by done. simpl. by rewrite app_nil_r.
Qed.

End MoreInputDoneFacts.

(** ** The further properties on the sample data *)

Section MoreWitnesses.

Import Project Examples ProjectState ProjectCompilerTrace MoreExamples.

Lemma normalizePath_forward_slashes_witness :
  normalizePath ("C:\w\src" +:+ String BACKSLASH "a.ts")
  = "C:/w/src" +:+ String "/" "a.ts"
  /\ String.get 2 (normalizePath "C:\w\src") = Some "/"%char
  /\ String.get 3 (normalizePath "C:\w\src") = Some "w"%char
  /\ JsString.has_char BACKSLASH (normalizePath "C:\w\src") = false.
Proof.
  destruct (normalizePath_forward_slashes "C:\w\src" "a.ts")
    as (Hget & Hslash & Hnone & _).
  split; [exact Hslash|]. split; [exact (Hget 2%nat)|].
  split; [exact (Hget 3%nat)|exact Hnone].
Defined.

Example normalizePath_windows_path :
  normalizePath "\w\src\a.ts" = "/w/src/a.ts".
Proof. reflexivity. Qed.

Lemma original_name_of_artifacts_witness :
  JsString.dot "x" = true
  /\ getOriginalName ("/w/src/a" +:+ ".js") = "/w/src/a" +:+ ".ts"
  /\ getOriginalName ("/w/src/a" +:+ ".d.ts") = "/w/src/a" +:+ ".ts"
  /\ getOriginalName ("/w/src/a" +:+ ".js.map") = "/w/src/a" +:+ ".ts"
  /\ getOriginalName ("/w/src/a" +:+ ".js" +:+ String "x" "map") = "/w/src/a" +:+ ".ts".
Proof.
  split; [reflexivity|].
  exact (original_name_of_artifacts "/w/src/a" "x" eq_refl).
Defined.

Lemma original_name_unchanged_witness :
  (forall p, "/w/src/a.ts" <> p +:+ ".js")
  /\ (forall p, "/w/src/a.ts" <> p +:+ ".d.ts")
  /\ (forall p c, JsString.dot c = true ->
                  "/w/src/a.ts" <> p +:+ ".js" +:+ String c "map")
  /\ getOriginalName "/w/src/a.ts" = "/w/src/a.ts".
Proof.
  assert (Hjs : forall p, "/w/src/a.ts" <> p +:+ ".js").
  { intros p H. change "/w/src/a.ts" with ("/w/src/a" +:+ ".ts") in H.
    apply app_inj_suffix in H as [_ H]; [discriminate H|reflexivity]. }
  assert (Hdts : forall p, "/w/src/a.ts" <> p +:+ ".d.ts").
  { intros p H. change "/w/src/a.ts" with ("/w/src" +:+ "/a.ts") in H.
    apply app_inj_suffix in H as [_ H]; [discriminate H|reflexivity]. }
  assert (Hmap : forall p c, JsString.dot c = true ->
                             "/w/src/a.ts" <> p +:+ ".js" +:+ String c "map").
  { intros p c _ H. change "/w/src/a.ts" with ("/w/src/a" +:+ ".ts") in H.
    change (p +:+ ".js" +:+ String c "map")
      with (p +:+ (".js" +:+ String c "") +:+ "map") in H.
    rewrite <- app_assoc_str in H.
    apply app_inj_suffix in H as [_ H]; [discriminate H|reflexivity]. }
  split; [exact Hjs|]. split; [exact Hdts|]. split; [exact Hmap|].
  exact (original_name_unchanged "/w/src/a.ts" Hjs Hdts Hmap).
Defined.

Lemma text_after_last_inner_line_break_dropped_witness :
  JsString.has_char JsString.LF "//# sourceMappingURL=a.js.ma" = false
  /\ removeSourceMapComment
       ("var a;" +:+ JsString.nl +:+ "//# sourceMappingURL=a.js.ma" +:+ String "p" "")
     = "var a;" +:+ JsString.nl.
Proof.
  split; [reflexivity|].
  exact (text_after_last_inner_line_break_dropped
           "var a;" "//# sourceMappingURL=a.js.ma" "p" eq_refl).
Defined.

Lemma single_line_content_becomes_line_break_witness :
  JsString.has_char JsString.LF "var a;" = false
  /\ removeSourceMapComment "" = JsString.nl
  /\ removeSourceMapComment "var a;" = JsString.nl
  /\ removeSourceMapComment ("var a;" +:+ String JsString.LF "") = JsString.nl.
Proof.
  split; [reflexivity|].
  exact (single_line_content_becomes_line_break "var a;" JsString.LF eq_refl).
Defined.

Lemma addFile_lookup_witness :
  "/w/src/b.ts" <> normalizePath (path winFile)
  /\ Obj.get (normalizePath (path winFile))
       (currentFiles (addFile winFile (addFile otherFile (emptyProject false))))
     = Some (getFileDataFromGulpFile winFile)
  /\ Obj.get "/w/src/b.ts"
       (currentFiles (addFile winFile (addFile otherFile (emptyProject false))))
     = Obj.get "/w/src/b.ts" (currentFiles (addFile otherFile (emptyProject false))).
Proof.
  assert (Hne : "/w/src/b.ts" <> normalizePath (path winFile)) by discriminate.
  split; [exact Hne|].
  destruct (addFile_lookup winFile (addFile otherFile (emptyProject false)))
    as (Hget & Hother & _).
  split; [exact Hget|exact (Hother "/w/src/b.ts" Hne)].
Defined.

Lemma addFile_same_normalized_path_witness :
  normalizePath (path winFile) = normalizePath (path posixFile)
  /\ addFile posixFile (addFile winFile (emptyProject false))
     = addFile posixFile (emptyProject false)
  /\ Obj.keys (currentFiles (addFile posixFile (addFile winFile (emptyProject false))))
     = Obj.keys (currentFiles (addFile winFile (emptyProject false)))
  /\ Obj.get (normalizePath (path winFile))
       (currentFiles (addFile posixFile (addFile winFile (emptyProject false))))
     = Some (getFileDataFromGulpFile posixFile).
Proof.
  split; [reflexivity|].
  exact (addFile_same_normalized_path winFile posixFile (emptyProject false) eq_refl).
Defined.

Lemma currentFiles_keys_normalized_witness :
  (("/w/src/a.ts", getFileDataFromGulpFile winFile)
   ∈ currentFiles (addFiles [winFile; otherFile] (reset (emptyProject false))))
  /\ "/w/src/a.ts" = normalizePath (path (file (getFileDataFromGulpFile winFile)))
  /\ JsString.has_char "\"%char "/w/src/a.ts" = false
  /\ file (getFileDataFromGulpFile winFile) ∈ [winFile; otherFile]
  /\ Obj.get "/w/src/a.ts"
       (currentFiles (addFiles [winFile; otherFile] (reset (emptyProject false))))
     = Some (getFileDataFromGulpFile winFile).
Proof.
  assert (Hin : ("/w/src/a.ts", getFileDataFromGulpFile winFile)
                ∈ currentFiles (addFiles [winFile; otherFile]
                                  (reset (emptyProject false)))).
  { apply list_elem_of_here. }
  split; [exact Hin|].
  exact (proj2 (currentFiles_keys_normalized [winFile; otherFile] (emptyProject false))
           "/w/src/a.ts" (getFileDataFromGulpFile winFile) Hin).
Defined.


Example root_names_keep_backslashes :
  getCurrentFilenames (addFiles [winFile; otherFile] (reset (emptyProject false)))
  = ["\w\src\a.ts"; "/w/src/b.ts"]
  /\ Obj.keys (currentFiles (addFiles [winFile; otherFile] (reset (emptyProject false))))
     = ["/w/src/a.ts"; "/w/src/b.ts"].
Proof. split; reflexivity. Qed.

Lemma unsorted_emit_keeps_order_witness :
  sortOutput (abcProject false) = false
  /\ Forall has_file (reported (compiler chainProgram) (abcProject false))
  /\ (compile relative (fun s => s) (compiler chainProgram) (abcProject false)).2
     = Normal
  /\ jsPushed
       (compile relative (fun s => s) (compiler chainProgram) (abcProject false)).1
     = outputJS (artifacts (compiler chainProgram) (abcProject false))
  /\ map path
       (jsPushed
          (compile relative (fun s => s) (compiler chainProgram) (abcProject false)).1)
     `sublist_of` Obj.keys (hostOutput (compiler chainProgram) (abcProject false)).
Proof.
  assert (Hloc : Forall has_file (reported (compiler chainProgram) (abcProject false))).
  { repeat (constructor; [by eexists|]). constructor. }
  destruct (unsorted_emit_keeps_order relative (fun s => s) (compiler chainProgram)
              (abcProject false) eq_refl) as (Hiff & Hjs & Hsub).
  split; [reflexivity|]. split; [exact Hloc|].
  split; [exact (proj2 Hiff Hloc)|]. split; [exact (Hjs Hloc)|exact Hsub].
Defined.

Lemma sorted_emit_without_references_keeps_order_witness :
  sortOutput (abcProject true) = true
  /\ (forall g,
        g ∈ outputJS (artifacts (compiler flatProgram) (abcProject true)) ->
        is_Some (getSourceFile
                   (createProgram (compiler flatProgram) (abcProject true))
                   (oname g)))
  /\ (forall f g,
        f ∈ outputJS (artifacts (compiler flatProgram) (abcProject true)) ->
        g ∈ outputJS (artifacts (compiler flatProgram) (abcProject true)) ->
        ~ references (createProgram (compiler flatProgram) (abcProject true))
            (oname f) (oname g))
  /\ Forall has_file (reported (compiler flatProgram) (abcProject true))
  /\ (compile relative (fun s => s) (compiler flatProgram) (abcProject true)).2
     = Normal
  /\ jsPushed
       (compile relative (fun s => s) (compiler flatProgram) (abcProject true)).1
     = outputJS (artifacts (compiler flatProgram) (abcProject true)).
Proof.
  assert (Hloc : Forall has_file (reported (compiler flatProgram) (abcProject true))).
  { repeat (constructor; [by eexists|]). constructor. }
  assert (Hsrc : forall g,
             g ∈ outputJS (artifacts (compiler flatProgram) (abcProject true)) ->
             is_Some (getSourceFile
                        (createProgram (compiler flatProgram) (abcProject true))
                        (oname g))).
  { intros g _. eexists. reflexivity. }
  assert (Hnoref : forall f g,
             f ∈ outputJS (artifacts (compiler flatProgram) (abcProject true)) ->
             g ∈ outputJS (artifacts (compiler flatProgram) (abcProject true)) ->
             ~ references (createProgram (compiler flatProgram) (abcProject true))
                 (oname f) (oname g)).
  { intros f g _ _ (sf & Hsf & Hin). injection Hsf as <-. simpl in Hin.
    apply elem_of_nil in Hin. exact Hin. }
  split; [reflexivity|]. split; [exact Hsrc|]. split; [exact Hnoref|].
  split; [exact Hloc|].
  exact (sorted_emit_without_references_keeps_order relative (fun s => s)
           (compiler flatProgram) (abcProject true) eq_refl Hsrc Hnoref Hloc).
Defined.

Lemma pushed_files_inherit_from_input_witness :
  (jsOf "/w/src/a.js" "var a;"
   ∈ jsPushed
       (compile relative (fun s => s) (compiler chainProgram) (abcProject false)).1)
  /\ exists original,
       Obj.get (getOriginalName (path (jsOf "/w/src/a.js" "var a;")))
               (currentFiles (abcProject false)) = Some original
       /\ cwd (jsOf "/w/src/a.js" "var a;") = cwd (file original)
       /\ base (jsOf "/w/src/a.js" "var a;") = base (file original)
       /\ sourceMap (jsOf "/w/src/a.js" "var a;") = sourceMap (file original).
Proof.
  assert (Hin : jsOf "/w/src/a.js" "var a;"
                ∈ jsPushed
                    (compile relative (fun s => s) (compiler chainProgram)
                       (abcProject false)).1).
  { apply list_elem_of_here. }
  split; [exact Hin|].
  exact (proj1 (pushed_files_inherit_from_input relative (fun s => s)
                  (compiler chainProgram) (abcProject false))
           (jsOf "/w/src/a.js" "var a;") Hin).
Defined.

Lemma sorted_emit_throws_iff_source_missing_witness :
  sortOutput (abcProject true) = true
  /\ (compile relative (fun s => s) (compiler partialProgram) (abcProject true)).2
     <> Normal
  /\ exists message,
       (compile relative (fun s => s) (compiler partialProgram) (abcProject true)).2
       = Threw message.
Proof.
  destruct (sorted_emit_throws_iff_source_missing relative (fun s => s)
              (compiler partialProgram) (abcProject true) eq_refl)
    as (Hiff & Hthrow & _).
  assert (Hne : (compile relative (fun s => s) (compiler partialProgram)
                   (abcProject true)).2 <> Normal).
  { intros Hn.
    destruct (proj2 (proj1 Hiff Hn) (jsOf "/w/src/c.js" "var c;")) as [sf Hsf].
    - do 2 apply list_elem_of_further. apply list_elem_of_here.
    - discriminate Hsf. }
  split; [reflexivity|]. split; [exact Hne|exact (Hthrow Hne)].
Defined.

Lemma sorted_emit_transitive_dependencies_first_witness :
  sortOutput (abcProject true) = true
  /\ tc (refs_among (createProgram (compiler chainProgram) (abcProject true))
           (outputJS (artifacts (compiler chainProgram) (abcProject true))))
        (oname (jsOf "/w/src/a.js" "var a;")) (oname (jsOf "/w/src/c.js" "var c;"))
  /\ precedes
       (jsPushed
          (compile relative (fun s => s) (compiler chainProgram) (abcProject true)).1)
       (jsOf "/w/src/c.js" "var c;") (jsOf "/w/src/a.js" "var a;").
Proof.
  assert (Hsrc : forall g,
             g ∈ outputJS (artifacts (compiler chainProgram) (abcProject true)) ->
             is_Some (getSourceFile
                        (createProgram (compiler chainProgram) (abcProject true))
                        (oname g))).
  { apply Forall_forall. repeat (constructor; [by eexists|]). constructor. }
  assert (Hacyclic : forall a,
             ~ tc (refs_among
                     (createProgram (compiler chainProgram) (abcProject true))
                     (outputJS (artifacts (compiler chainProgram) (abcProject true))))
                  a a).
  { apply (ranked_acyclic _ rank).
    intros a b (Ha & _ & sf & Hsf & Hb).
    apply list_elem_of_In in Ha. vm_compute in Ha.
    destruct Ha as [<-|[<-|[<-|[]]]]; vm_compute in Hsf; injection Hsf as <-;
      apply list_elem_of_In in Hb; vm_compute in Hb.
    - destruct Hb as [<-|[]]. vm_compute. lia.
    - destruct Hb as [<-|[]]. vm_compute. lia.
    - destruct Hb. }
  assert (Ha : jsOf "/w/src/a.js" "var a;"
               ∈ outputJS (artifacts (compiler chainProgram) (abcProject true))).
  { apply list_elem_of_here. }
  assert (Hb : jsOf "/w/src/b.js" "var b;"
               ∈ outputJS (artifacts (compiler chainProgram) (abcProject true))).
  { apply list_elem_of_further. apply list_elem_of_here. }
  assert (Hc : jsOf "/w/src/c.js" "var c;"
               ∈ outputJS (artifacts (compiler chainProgram) (abcProject true))).
  { do 2 apply list_elem_of_further. apply list_elem_of_here. }
  assert (Htc : tc (refs_among (createProgram (compiler chainProgram) (abcProject true))
                      (outputJS (artifacts (compiler chainProgram) (abcProject true))))
                   (oname (jsOf "/w/src/a.js" "var a;"))
                   (oname (jsOf "/w/src/c.js" "var c;"))).
  { apply (tc_l _ _ (oname (jsOf "/w/src/b.js" "var b;"))).
    - split; [exact (list_elem_of_fmap_2 oname _ _ Ha)|].
      split; [exact (list_elem_of_fmap_2 oname _ _ Hb)|].
      eexists. split; [reflexivity|]. apply list_elem_of_here.
    - apply tc_once.
      split; [exact (list_elem_of_fmap_2 oname _ _ Hb)|].
      split; [exact (list_elem_of_fmap_2 oname _ _ Hc)|].
      eexists. split; [reflexivity|]. apply list_elem_of_here. }
  assert (Hloc : Forall has_file (reported (compiler chainProgram) (abcProject true))).
  { repeat (constructor; [by eexists|]). constructor. }
  split; [reflexivity|]. split; [exact Htc|].
  exact (sorted_emit_transitive_dependencies_first relative (fun s => s)
           (compiler chainProgram) (abcProject true) eq_refl Hsrc Hacyclic Hloc
           _ _ Ha Hc Htc).
Defined.

Lemma declaration_diagnostic_file_name_witness :
  d_file dtsDiagnostic = Some (sourceOf "/w/src/lib.d.ts" [])
  /\ filename (sourceOf "/w/src/lib.d.ts" []) = "/w/src/lib" +:+ ".d.ts"
  /\ Obj.get ("/w/src/lib" +:+ ".ts") (currentFiles (abcProject false)) = None
  /\ getError relative (fun s => s) (abcProject false) dtsDiagnostic
     = Some {| name := "TypeScript error";
               message := "/w/src/lib.d.ts(1,5): 2300 Duplicate identifier 'x'." |}.
Proof.
  split; [reflexivity|]. split; [reflexivity|]. split; [reflexivity|].
  exact (proj1 (declaration_diagnostic_file_name relative (fun s => s)
                  (abcProject false) dtsDiagnostic (sourceOf "/w/src/lib.d.ts" [])
                  "/w/src/lib" eq_refl eq_refl)
           eq_refl).
Defined.

Lemma streams_receive_their_kind_witness :
  (jsOf "/w/src/a.js" "var a;"
   ∈ jsPushed
       (compile relative (fun s => s) (compiler chainProgram) (abcProject false)).1)
  /\ (exists q, path (jsOf "/w/src/a.js" "var a;") = q +:+ ".js")
  /\ path (jsOf "/w/src/a.js" "var a;")
     ∈ Obj.keys (hostOutput (compiler chainProgram) (abcProject false)).
Proof.
  assert (Hin : jsOf "/w/src/a.js" "var a;"
                ∈ jsPushed
                    (compile relative (fun s => s) (compiler chainProgram)
                       (abcProject false)).1).
  { apply list_elem_of_here. }
  split; [exact Hin|].
  exact (proj1 (streams_receive_their_kind relative (fun s => s)
                  (compiler chainProgram) (abcProject false))
           (jsOf "/w/src/a.js" "var a;") Hin).
Defined.

Lemma finish_is_last_and_never_on_replay_witness :
  ProjectCompiler.isChanged (ProjectCompiler.input changedProject) true = true
  /\ (exists tr, Examples.inputDone changedProject = tr ++ [ProjectCompiler.OutputFinish]
                 /\ List.filter is_finish tr = [])
  /\ ProjectCompiler.firstSourceFile (ProjectCompiler.input unchangedProject)
     = Some "/w/src/a.ts"
  /\ ProjectCompiler.isChanged (ProjectCompiler.input unchangedProject) true = false
  /\ List.filter is_finish (Examples.inputDone unchangedProject) = [].
Proof.
  split; [reflexivity|].
  split.
  - exact (proj1 (finish_is_last_and_never_on_replay (fun _ _ _ => true) tsRun
                    changedProject) (or_intror eq_refl)).
  - split; [reflexivity|]. split; [reflexivity|].
    exact (proj2 (finish_is_last_and_never_on_replay (fun _ _ _ => true) tsRun
                    unchangedProject) "/w/src/a.ts" eq_refl eq_refl).
Defined.

Lemma previous_keys_NoDup :
  NoDup (Obj.keys (ProjectCompiler.files
                     (ProjectCompiler.previousOutput unchangedProject))).
Proof.
  apply NoDup_cons. split.
  - intros Hin. apply list_elem_of_singleton in Hin. discriminate Hin.
  - apply NoDup_singleton.
Qed.

Lemma replay_writes_every_cached_file_witness :
  ProjectCompiler.firstSourceFile (ProjectCompiler.input unchangedProject)
  = Some "/w/src/a.ts"
  /\ ProjectCompiler.isChanged (ProjectCompiler.input unchangedProject) true = false
  /\ NoDup (Obj.keys (ProjectCompiler.files
                        (ProjectCompiler.previousOutput unchangedProject)))
  /\ length (List.filter is_write (Examples.inputDone unchangedProject)) = 5%nat.
Proof.
  split; [reflexivity|]. split; [reflexivity|]. split; [exact previous_keys_NoDup|].
  exact (proj1 (proj2 (replay_writes_every_cached_file (fun _ _ _ => true) tsRun
                         unchangedProject "/w/src/a.ts" eq_refl eq_refl
                         previous_keys_NoDup))).
Defined.

Lemma tsRun_keys_NoDup :
  NoDup (Obj.keys (tsRun changedProject
                     (ProjectCompiler.rootFilenames (fun _ _ _ => true)
                        changedProject)).2).
Proof.
  apply NoDup_cons. split.
  - intros Hin. apply list_elem_of_singleton in Hin. discriminate Hin.
  - apply NoDup_singleton.
Qed.

Lemma recompile_writes_every_emitted_file_witness :
  ProjectCompiler.firstSourceFile (ProjectCompiler.input changedProject)
  = Some "/w/src/a.ts"
  /\ ProjectCompiler.isChanged (ProjectCompiler.input changedProject) true = true
  /\ List.filter is_write (Examples.inputDone changedProject)
     = [ProjectCompiler.OutputWrite "/w/src/a.js" (Some ("var a;" +:+ Examples.nl));
        ProjectCompiler.OutputWrite "/w/src/a.js.map" (Some "{mappings-a}")].
Proof.
  split; [reflexivity|]. split; [reflexivity|].
  exact (proj1 (recompile_writes_every_emitted_file (fun _ _ _ => true) tsRun
                  changedProject "/w/src/a.ts" eq_refl eq_refl tsRun_keys_NoDup)).
Defined.

Lemma first_artifact_follows_its_references_witness :
  sortOutput (abcProject true) = true
  /\ outputJS (artifacts (compiler cycleProgram) (abcProject true))
     = jsOf "/w/src/a.js" "var a;"
       :: [jsOf "/w/src/b.js" "var b;"; jsOf "/w/src/c.js" "var c;"]
  /\ references (createProgram (compiler cycleProgram) (abcProject true))
       (oname (jsOf "/w/src/a.js" "var a;")) (oname (jsOf "/w/src/b.js" "var b;"))
  /\ references (createProgram (compiler cycleProgram) (abcProject true))
       (oname (jsOf "/w/src/b.js" "var b;")) (oname (jsOf "/w/src/a.js" "var a;"))
  /\ precedes
       (jsPushed
          (compile relative (fun s => s) (compiler cycleProgram) (abcProject true)).1)
       (jsOf "/w/src/b.js" "var b;") (jsOf "/w/src/a.js" "var a;").
Proof.
  assert (Hsrc : forall g,
             g ∈ outputJS (artifacts (compiler cycleProgram) (abcProject true)) ->
             is_Some (getSourceFile
                        (createProgram (compiler cycleProgram) (abcProject true))
                        (oname g))).
  { apply Forall_forall. repeat (constructor; [by eexists|]). constructor. }
  assert (Hb : jsOf "/w/src/b.js" "var b;"
               ∈ outputJS (artifacts (compiler cycleProgram) (abcProject true))).
  { apply list_elem_of_further. apply list_elem_of_here. }
  assert (Hab : references (createProgram (compiler cycleProgram) (abcProject true))
                  (oname (jsOf "/w/src/a.js" "var a;"))
                  (oname (jsOf "/w/src/b.js" "var b;"))).
  { eexists. split; [reflexivity|]. apply list_elem_of_here. }
  split; [reflexivity|]. split; [reflexivity|]. split; [exact Hab|].
  split; [eexists; split; [reflexivity|apply list_elem_of_here]|].
  exact (first_artifact_follows_its_references relative (fun s => s)
           (compiler cycleProgram) (abcProject true) _ _ eq_refl eq_refl Hsrc
           (Forall_nil_2 _) _ Hb ltac:(discriminate) Hab).
Defined.

End MoreWitnesses.
